(** * MailSender: the authenticated send pipeline

    A shallow embedding of the JavaScript sources of the extension
    (ErrorHandler, Validator, AuthService, GmailApiService, EmailService and
    the parts of StorageService and Environment they call) together with the
    properties of the send pipeline stated in the specification.

    Conventions of the embedding.
    - A JavaScript string is a [string]: one [ascii] per code unit, so the
      model covers the strings whose code units are below 256.
    - [null] and [undefined] are [None]; a value used in a condition goes
      through an explicit truthiness test.
    - An [async] method is a state transformer over [World] that returns,
      throws, or runs out of fuel; everything outside the extension (the
      identity provider, the token introspection endpoint, the mail endpoint,
      [chrome.storage.local], [Math.random]) answers through the oracles of
      [Env], indexed by the number of calls made so far.  [console] output
      (all that [ErrorHandler.logError] does with an error object) and
      timestamps are not part of the model. *)

From stdpp Require Import base strings gmap list pretty.
From Stdlib Require Import ZArith Lia Ascii.

(** ** JavaScript strings *)

Module Js.

Definition CR : ascii := "013"%char.
Definition LF : ascii := "010"%char.
Definition CRLF : string := String CR (String LF "").
Definition DQUOTE : ascii := "034"%char.

(** [!s] for a string [s]: only the empty string is falsy. *)
Definition truthy (s : string) : bool :=
  match s with "" => false | String _ _ => true end.

(** [s.includes(sub)] *)
Fixpoint includes (s sub : string) : bool :=
  String.prefix sub s ||
  match s with
  | "" => false
  | String _ s' => includes s' sub
  end.

(** The white space and line terminator code units below 256, that is what
    both [\s] and [String.prototype.trim] recognise there:
    TAB, LF, VT, FF, CR, SPACE and NO-BREAK SPACE. *)
Definition is_space (c : ascii) : bool :=
  match N_of_ascii c with
  | 9 | 10 | 11 | 12 | 13 | 32 | 160 => true
  | _ => false
  end%N.

Fixpoint trimStart (s : string) : string :=
  match s with
  | "" => ""
  | String c s' => if is_space c then trimStart s' else s
  end.

(** [trimEnd] keeps a character when it is not white space or when
    something remains after it. *)
Fixpoint trimEnd (s : string) : string :=
  match s with
  | "" => ""
  | String c s' =>
      match trimEnd s' with
      | "" => if is_space c then "" else String c ""
      | r => String c r
      end
  end.

Definition trim (s : string) : string := trimEnd (trimStart s).

(** [lines.join(sep)] *)
Fixpoint join (sep : string) (lines : list string) : string :=
  match lines with
  | [] => ""
  | [l] => l
  | l :: rest => l +:+ sep +:+ join sep rest
  end.

(** [s.substr(start, len)] for non-negative arguments *)
Definition substr (start len : nat) (s : string) : string :=
  String.substring start len s.

(** Template-literal rendering of an integer, [`${n}`]. *)
Definition show (n : Z) : string := pretty n.

End Js.

(** ** error-handler.js *)

(** An error object as the classifier reads it: [message], [code], [status],
    and the retry-after seconds that [_extractRetryAfter] finds under
    [response.headers].  Codes and statuses are the integers that
    [_makeApiRequest] copies from the HTTP response.  The message is text or
    absent, as it is in every error the extension raises with [new Error] or
    catches from the platform; [ErrorHandlerAny] below takes up
    [classifyError] on a message of any primitive type. *)
Record JsError := mkJsError {
  err_message : option string;
  err_code : option Z;
  err_status : option Z;
  err_retryAfter : option Z
}.

(** [new Error(msg)] *)
Definition Error (msg : string) : JsError :=
  {| err_message := Some msg; err_code := None; err_status := None;
     err_retryAfter := None |}.

(** What [classifyError] may be handed: a falsy value ([null], [undefined],
    and through [RString ""] the empty string), a string, or an object. *)
Inductive RawError :=
| RNull
| RString (s : string)
| RObject (e : JsError).

Module ErrorHandler.

Module ERROR_TYPES.
Definition TOKEN_EXPIRED := "auth.token_expired".
Definition INVALID_CREDENTIALS := "auth.invalid_credentials".
Definition PERMISSION_DENIED := "auth.permission_denied".
Definition VERIFICATION_REQUIRED := "auth.verification_required".
Definition INVALID_EMAIL := "validation.invalid_email".
Definition MISSING_REQUIRED_FIELD := "validation.missing_field".
Definition FILE_TOO_LARGE := "validation.file_too_large".
Definition INVALID_FILE_TYPE := "validation.invalid_file_type".
Definition NETWORK_ERROR := "api.network_error".
Definition RATE_LIMIT := "api.rate_limit".
Definition SERVER_ERROR := "api.server_error".
Definition TIMEOUT := "api.timeout".
Definition QUOTA_EXCEEDED := "storage.quota_exceeded".
Definition CORRUPTION := "storage.corruption".
Definition ACCESS_DENIED := "storage.access_denied".
End ERROR_TYPES.
Import ERROR_TYPES.

Record RecoveryStrategy := mkStrategy {
  action : string;
  userMessage : string;
  autoRetry : bool;
  maxRetries : option nat
}.

Definition RECOVERY_STRATEGIES : gmap string RecoveryStrategy :=
  <[TOKEN_EXPIRED :=
      mkStrategy "refresh_token"
        "Session expired. Refreshing authentication..." true (Some 1)]>
  (<[RATE_LIMIT :=
      mkStrategy "exponential_backoff"
        "Rate limit reached. Retrying in a moment..." true (Some 3)]>
  (<[FILE_TOO_LARGE :=
      mkStrategy "user_action_required"
        "File is too large. Please select a smaller file." false None]>
  (<[NETWORK_ERROR :=
      mkStrategy "retry" "Network error. Retrying..." true (Some 2)]>
   ∅))).

(** [!error] *)
Definition falsy (error : RawError) : bool :=
  match error with
  | RNull => true
  | RString s => negb (Js.truthy s)
  | RObject _ => false
  end.

(** [typeof error === 'string' ? error : error.message || ''] *)
Definition errorMessage (error : RawError) : string :=
  match error with
  | RNull => ""
  | RString s => s
  | RObject e => default "" (err_message e)
  end.

(** [a || b] on optional numbers: zero is falsy. *)
Definition num_or (a b : option Z) : option Z :=
  match a with
  | Some n => if (n =? 0)%Z then b else a
  | None => b
  end.

(** [error.code || error.status || '']; [None] stands for the final ['']. *)
Definition errorCode (error : RawError) : option Z :=
  match error with
  | RObject e => num_or (num_or (err_code e) (err_status e)) None
  | _ => None
  end.

(** [errorCode === n] *)
Definition code_is (c : option Z) (n : Z) : bool :=
  match c with Some m => (m =? n)%Z | None => false end.

(** [errorCode >= n]; the empty string compares as zero. *)
Definition code_ge (c : option Z) (n : Z) : bool :=
  match c with Some m => (n <=? m)%Z | None => (n <=? 0)%Z end.

Definition classifyError (error : RawError) : string :=
  if falsy error then "unknown" else
  let errorMessage := errorMessage error in
  let errorCode := errorCode error in
  if Js.includes errorMessage "token" && Js.includes errorMessage "expired"
  then TOKEN_EXPIRED
  else if Js.includes errorMessage "invalid_grant"
          || Js.includes errorMessage "unauthorized"
  then INVALID_CREDENTIALS
  else if Js.includes errorMessage "permission" || code_is errorCode 403
  then PERMISSION_DENIED
  else if Js.includes errorMessage "verification"
          || Js.includes errorMessage "not completed"
  then VERIFICATION_REQUIRED
  else if code_is errorCode 429 || Js.includes errorMessage "rate limit"
  then RATE_LIMIT
  else if code_ge errorCode 500 || Js.includes errorMessage "server error"
  then SERVER_ERROR
  else if Js.includes errorMessage "network"
          || Js.includes errorMessage "fetch"
  then NETWORK_ERROR
  else if Js.includes errorMessage "email"
          && Js.includes errorMessage "invalid"
  then INVALID_EMAIL
  else if Js.includes errorMessage "file" && Js.includes errorMessage "large"
  then FILE_TOO_LARGE
  else if Js.includes errorMessage "required"
  then MISSING_REQUIRED_FIELD
  else if Js.includes errorMessage "quota"
          || Js.includes errorMessage "QUOTA_BYTES"
  then QUOTA_EXCEEDED
  else "unknown".

Definition isRetryableError (errorType : string) : bool :=
  match RECOVERY_STRATEGIES !! errorType with
  | Some strategy => autoRetry strategy
  | None => false
  end.

(** [getUserMessage] reads [error.message] of an unclassified error, which
    throws a [TypeError] on [null]: [None] stands for that. *)
Definition getUserMessage (error : RawError) : option string :=
  let errorType := classifyError error in
  match RECOVERY_STRATEGIES !! errorType with
  | Some strategy => Some (userMessage strategy)
  | None =>
      match error with
      | RNull => None
      | _ =>
          let errorMessage := errorMessage error in
          if Js.includes errorMessage "network"
          then Some "Network connection error. Please check your internet connection."
          else if Js.includes errorMessage "file"
          then Some "File processing error. Please try with a different file."
          else Some "An unexpected error occurred. Please try again."
      end
  end.

Definition actionableMessages : gmap string string :=
  <[TOKEN_EXPIRED :=
      "Please click " +:+ String Js.DQUOTE "Authenticate Gmail"
        +:+ String Js.DQUOTE " to refresh your session."]>
  (<[VERIFICATION_REQUIRED :=
      "Please add yourself as a test user in Google Cloud Console."]>
  (<[FILE_TOO_LARGE := "Please select a file smaller than 1MB."]>
  (<[INVALID_EMAIL := "Please enter a valid email address."]>
  (<[QUOTA_EXCEEDED :=
      "Please select a smaller file or clear some storage."]>
  (<[NETWORK_ERROR :=
      "Please check your internet connection and try again."]>
   ∅))))).

Definition getActionableMessage (error : RawError) : string :=
  let errorType := classifyError error in
  match actionableMessages !! errorType with
  | Some m => if Js.truthy m then m
              else "Please try again or contact support if the problem persists."
  | None => "Please try again or contact support if the problem persists."
  end.

(** The [context] argument of [logError] and [createErrorResponse]. *)
Record Context := mkContext {
  ctx_recipient : option string;
  ctx_attempts : option nat;
  ctx_interactive : option bool
}.

Definition noContext : Context := mkContext None None None.

Record ErrorResponse := mkErrorResponse {
  success : bool;
  errorType : string;
  message : string;
  actionableMessage : string;
  isRetryable : bool;
  context : Context
}.

Definition createErrorResponse (error : RawError) (context : Context)
  : option ErrorResponse :=
  let errorType := classifyError error in
  match getUserMessage error with
  | None => None
  | Some userMessage =>
      let actionableMessage := getActionableMessage error in
      let isRetryable := isRetryableError errorType in
      Some {| success := false;
              errorType := errorType;
              message := userMessage;
              actionableMessage := actionableMessage;
              isRetryable := isRetryable;
              context := context |}
  end.

End ErrorHandler.

(** ** validation.js *)

Module Validator.

(** The character class [[^\s@]]. *)
Definition not_space_at (c : ascii) : bool :=
  negb (Js.is_space c) && negb (Ascii.eqb c "@").

(** [/^[^\s@]+@[^\s@]+\.[^\s@]+$/], one function per position of the
    pattern; each tries the alternatives the backtracking matcher has. *)

(** [[^\s@]+$] *)
Fixpoint re_tld (s : string) : bool :=
  match s with
  | "" => false
  | String c "" => not_space_at c
  | String c s' => not_space_at c && re_tld s'
  end.

(** [[^\s@]*\.[^\s@]+$] *)
Fixpoint re_domain_rest (s : string) : bool :=
  match s with
  | "" => false
  | String c s' =>
      (Ascii.eqb c "." && re_tld s') || (not_space_at c && re_domain_rest s')
  end.

(** [[^\s@]+\.[^\s@]+$] *)
Definition re_domain (s : string) : bool :=
  match s with
  | "" => false
  | String c s' => not_space_at c && re_domain_rest s'
  end.

(** [[^\s@]*@[^\s@]+\.[^\s@]+$] *)
Fixpoint re_local_rest (s : string) : bool :=
  match s with
  | "" => false
  | String c s' =>
      (Ascii.eqb c "@" && re_domain s') || (not_space_at c && re_local_rest s')
  end.

(** [emailRegex.test(s)] *)
Definition emailRegex_test (s : string) : bool :=
  match s with
  | "" => false
  | String c s' => not_space_at c && re_local_rest s'
  end.

(** The recipient is a string here, so [typeof email !== 'string'] is
    false and [!email] is the test for the empty string. *)
Definition isValidEmail (email : string) : bool :=
  if negb (Js.truthy email) then false
  else emailRegex_test (Js.trim email).

(** The stored template: [subject] and [body] (an absent field and the
    empty string are both falsy, and are the empty string here), and the
    optional attachment fields. *)
Record EmailConfig := mkEmailConfig {
  subject : string;
  body : string;
  attachmentName : option string;
  attachmentData : option string;
  attachmentType : option string
}.

Definition validateEmailConfig (config : option EmailConfig) : list string :=
  match config with
  | None => ["Configuration is required"]
  | Some config =>
      (if negb (Js.truthy (subject config))
          || negb (Js.truthy (Js.trim (subject config)))
       then ["Email subject is required"] else [])
      ++ (if negb (Js.truthy (body config))
             || negb (Js.truthy (Js.trim (body config)))
          then ["Email body is required"] else [])
      ++ (if Js.truthy (subject config)
             && (200 <? Z.of_nat (String.length (subject config)))%Z
          then ["Email subject is too long (max 200 characters)"] else [])
      ++ (if Js.truthy (body config)
             && (10000 <? Z.of_nat (String.length (body config)))%Z
          then ["Email body is too long (max 10,000 characters)"] else [])
  end.

End Validator.

(** ** The extension's state and its environment *)

(** The mutable state the services share, and a record of what they did to
    the outside: [AuthService.currentToken], [EmailService.initialized], the
    two keys of [chrome.storage.local] the pipeline uses, and logs of the
    calls made to the collaborators. *)
Record World := mkWorld {
  currentToken : option string;
  initialized : bool;
  stored_token : option string;
  stored_config : option Validator.EmailConfig;
  identityCalls : list bool;          (* getAuthToken calls, with [interactive] *)
  removedTokens : list string;        (* removeCachedAuthToken calls *)
  tokeninfoCalls : list string;       (* tokens sent to the introspection URL *)
  sendCalls : list (string * string); (* POSTs to the mail endpoint: token, raw *)
  storageOps : nat;                   (* chrome.storage.local operations *)
  sleeps : list Z;                    (* setTimeout delays awaited, in ms *)
  randomCalls : nat;                  (* Math.random calls *)
  notifications : list (bool * option string) (* _notifyAuthStateChange *)
}.

(** A reply of the mail endpoint to one POST. *)
Inductive ApiReply :=
| FetchRejected (e : JsError)
    (* fetch, or response.json() of a 2xx response, rejects with [e] *)
| HttpError (status : Z) (errMessage : option string) (retryAfter : option Z)
    (* !response.ok, with errorData.error?.message and the retry-after
       seconds found in errorData.headers *)
| HttpOk (id threadId : string).

Record Env := mkEnv {
  clientId : string;                               (* ENV_CONFIG.GOOGLE_CLIENT_ID || '' *)
  getAuthToken_reply : nat -> bool -> string + string;
    (* n-th chrome.identity.getAuthToken call: the token handed to the
       callback, or chrome.runtime.lastError.message *)
  tokeninfo_ok : nat -> string -> bool;
    (* n-th introspection call: response.ok, false when fetch throws *)
  send_reply : nat -> string -> string -> ApiReply;
  storage_fails : nat -> bool;                     (* n-th storage operation rejects *)
  random36 : nat -> string                         (* Math.random().toString(36) *)
}.

Definition set_currentToken (t : option string) (w : World) : World :=
  mkWorld t (initialized w) (stored_token w) (stored_config w)
    (identityCalls w) (removedTokens w) (tokeninfoCalls w) (sendCalls w)
    (storageOps w) (sleeps w) (randomCalls w) (notifications w).

Definition set_initialized (b : bool) (w : World) : World :=
  mkWorld (currentToken w) b (stored_token w) (stored_config w)
    (identityCalls w) (removedTokens w) (tokeninfoCalls w) (sendCalls w)
    (storageOps w) (sleeps w) (randomCalls w) (notifications w).

Definition set_stored_token (t : option string) (w : World) : World :=
  mkWorld (currentToken w) (initialized w) t (stored_config w)
    (identityCalls w) (removedTokens w) (tokeninfoCalls w) (sendCalls w)
    (storageOps w) (sleeps w) (randomCalls w) (notifications w).

Definition log_identityCall (interactive : bool) (w : World) : World :=
  mkWorld (currentToken w) (initialized w) (stored_token w) (stored_config w)
    (identityCalls w ++ [interactive]) (removedTokens w) (tokeninfoCalls w)
    (sendCalls w) (storageOps w) (sleeps w) (randomCalls w) (notifications w).

Definition log_removedToken (t : string) (w : World) : World :=
  mkWorld (currentToken w) (initialized w) (stored_token w) (stored_config w)
    (identityCalls w) (removedTokens w ++ [t]) (tokeninfoCalls w)
    (sendCalls w) (storageOps w) (sleeps w) (randomCalls w) (notifications w).

Definition log_tokeninfoCall (t : string) (w : World) : World :=
  mkWorld (currentToken w) (initialized w) (stored_token w) (stored_config w)
    (identityCalls w) (removedTokens w) (tokeninfoCalls w ++ [t])
    (sendCalls w) (storageOps w) (sleeps w) (randomCalls w) (notifications w).

Definition log_sendCall (token raw : string) (w : World) : World :=
  mkWorld (currentToken w) (initialized w) (stored_token w) (stored_config w)
    (identityCalls w) (removedTokens w) (tokeninfoCalls w)
    (sendCalls w ++ [(token, raw)]) (storageOps w) (sleeps w) (randomCalls w)
    (notifications w).

Definition log_storageOp (w : World) : World :=
  mkWorld (currentToken w) (initialized w) (stored_token w) (stored_config w)
    (identityCalls w) (removedTokens w) (tokeninfoCalls w) (sendCalls w)
    (S (storageOps w)) (sleeps w) (randomCalls w) (notifications w).

Definition log_sleep (ms : Z) (w : World) : World :=
  mkWorld (currentToken w) (initialized w) (stored_token w) (stored_config w)
    (identityCalls w) (removedTokens w) (tokeninfoCalls w) (sendCalls w)
    (storageOps w) (sleeps w ++ [ms]) (randomCalls w) (notifications w).

Definition log_randomCall (w : World) : World :=
  mkWorld (currentToken w) (initialized w) (stored_token w) (stored_config w)
    (identityCalls w) (removedTokens w) (tokeninfoCalls w) (sendCalls w)
    (storageOps w) (sleeps w) (S (randomCalls w)) (notifications w).

Definition log_notification (isAuthenticated : bool) (token : option string)
    (w : World) : World :=
  mkWorld (currentToken w) (initialized w) (stored_token w) (stored_config w)
    (identityCalls w) (removedTokens w) (tokeninfoCalls w) (sendCalls w)
    (storageOps w) (sleeps w) (randomCalls w)
    (notifications w ++ [(isAuthenticated, token)]).

(** ** Asynchronous methods as state transformers *)

Inductive Outcome (A : Type) :=
| Return (a : A)
| Throw (e : JsError)
| OutOfFuel.
Arguments Return {A} a.
Arguments Throw {A} e.
Arguments OutOfFuel {A}.

Definition M (A : Type) : Type := World -> Outcome A * World.

Definition ret {A} (a : A) : M A := fun w => (Return a, w).
Definition throw {A} (e : JsError) : M A := fun w => (Throw e, w).
Definition out_of_fuel {A} : M A := fun w => (OutOfFuel, w).

Definition bind {A B} (m : M A) (k : A -> M B) : M B :=
  fun w =>
    match m w with
    | (Return a, w') => k a w'
    | (Throw e, w') => (Throw e, w')
    | (OutOfFuel, w') => (OutOfFuel, w')
    end.

(** [try { m } catch (e) { handler(e) }] *)
Definition try_catch {A} (m : M A) (handler : JsError -> M A) : M A :=
  fun w =>
    match m w with
    | (Throw e, w') => handler e w'
    | r => r
    end.

Definition get {A} (f : World -> A) : M A := fun w => (Return (f w), w).
Definition modify (f : World -> World) : M unit := fun w => (Return tt, f w).

Declare Scope js_scope.
Delimit Scope js_scope with js.
Notation "x <- m ;; k" := (bind m (fun x => k))
  (at level 100, m at next level, k at level 200, right associativity)
  : js_scope.
Notation "m ;; k" := (bind m (fun _ => k))
  (at level 100, k at level 200, right associativity) : js_scope.
Local Open Scope js_scope.

(** ** storage.service.js (the operations the pipeline calls) *)

Module StorageService.
Section WithEnv.
Variable env : Env.

(** One [await chrome.storage.local.get/set/remove(...)]: it rejects when
    the environment says so. *)
Definition chrome_storage_op : M unit :=
  fun w =>
    if storage_fails env (storageOps w)
    then (Throw (Error "chrome.storage.local operation failed"), log_storageOp w)
    else (Return tt, log_storageOp w).

Definition getEmailConfig : M (option Validator.EmailConfig) :=
  try_catch
    (chrome_storage_op ;;
     get stored_config)
    (fun error => throw (Error "Failed to retrieve email configuration")).

(** [result[KEYS.AUTH_TOKEN] || null] *)
Definition getAuthToken : M (option string) :=
  try_catch
    (chrome_storage_op ;;
     t <- get stored_token ;;
     ret (match t with
          | Some s => if Js.truthy s then Some s else None
          | None => None
          end))
    (fun error => throw (Error "Failed to retrieve authentication token")).

Definition saveAuthToken (token : string) : M bool :=
  try_catch
    (if negb (Js.truthy token) then throw (Error "Invalid token provided")
     else
       chrome_storage_op ;;
       modify (set_stored_token (Some token)) ;;
       ret true)
    (fun error => throw (Error "Failed to save authentication token")).

Definition clearAuthToken : M bool :=
  try_catch
    (chrome_storage_op ;;
     modify (set_stored_token None) ;;
     ret true)
    (fun error => throw (Error "Failed to clear authentication token")).

End WithEnv.
End StorageService.

(** ** auth.service.js *)

Module AuthService.
Import ErrorHandler ErrorHandler.ERROR_TYPES.
Section WithEnv.
Variable env : Env.

(** [getUserMessage] of a caught error object, inside an [async] method. *)
Definition getUserMessage (error : JsError) : M string :=
  match ErrorHandler.getUserMessage (RObject error) with
  | Some m => ret m
  | None => throw (Error "Cannot read properties of null")
  end.

Definition _notifyAuthStateChange (isAuthenticated : bool)
    (token : option string) : M unit :=
  modify (log_notification isAuthenticated token).

(** [chrome.identity.getAuthToken({interactive, scopes}, callback)] wrapped
    in a promise. *)
Definition _getAuthToken (interactive : bool) : M string :=
  fun w =>
    match getAuthToken_reply env (length (identityCalls w)) interactive with
    | inl token => (Return token, log_identityCall interactive w)
    | inr lastError => (Throw (Error lastError), log_identityCall interactive w)
    end.

Definition authenticate (interactive : bool) : M string :=
  try_catch
    (let clientId := clientId env in
     if negb (Js.truthy clientId)
     then throw (Error "Google Client ID not configured")
     else
       token <- _getAuthToken interactive ;;
       if Js.truthy token then
         modify (set_currentToken (Some token)) ;;
         StorageService.saveAuthToken env token ;;
         _notifyAuthStateChange true (Some token) ;;
         ret token
       else throw (Error "Authentication failed"))
    (fun error =>
       let errorType := classifyError (RObject error) in
       if String.eqb errorType VERIFICATION_REQUIRED
       then throw (Error "App verification required. Please add yourself as a test user in Google Cloud Console.")
       else
         m <- getUserMessage error ;;
         throw (Error ("Authentication failed: " +:+ m))).

Definition _validateToken (token : string) : M bool :=
  if negb (Js.truthy token) then ret false
  else
    fun w =>
      (Return (tokeninfo_ok env (length (tokeninfoCalls w)) token),
       log_tokeninfoCall token w).

Definition clearTokens : M bool :=
  try_catch
    (cur <- get currentToken ;;
     match cur with
     | Some t =>
         if Js.truthy t then modify (log_removedToken t) else ret tt
     | None => ret tt
     end ;;
     StorageService.clearAuthToken env ;;
     modify (set_currentToken None) ;;
     _notifyAuthStateChange false None ;;
     ret true)
    (fun error => throw (Error "Failed to clear tokens")).

Definition refreshToken : M string :=
  try_catch
    (clearTokens ;;
     newToken <- authenticate false ;;
     ret newToken)
    (fun error =>
       try_catch
         (interactiveToken <- authenticate true ;;
          ret interactiveToken)
         (fun interactiveError =>
            m <- getUserMessage interactiveError ;;
            throw (Error ("Token refresh failed: " +:+ m)))).

(** The two early returns of the source are the two [if ... then ret]
    below.  [return this.currentToken] reads the field again after the
    [await]; within one call nothing has written it in between. *)
Definition getValidToken : M string :=
  try_catch
    (cur <- get currentToken ;;
     let cur := default "" cur in
     isValid <- (if Js.truthy cur then _validateToken cur else ret false) ;;
     if isValid then ret cur
     else
       storedToken <- StorageService.getAuthToken env ;;
       let stored := default "" storedToken in
       isValid <- (if Js.truthy stored then _validateToken stored
                   else ret false) ;;
       if isValid then
         modify (set_currentToken (Some stored)) ;;
         ret stored
       else authenticate true)
    (fun error =>
       m <- getUserMessage error ;;
       throw (Error ("Failed to get valid token: " +:+ m))).

Definition handleAuthError (error : JsError) : M string :=
  let errorType := classifyError (RObject error) in
  if String.eqb errorType TOKEN_EXPIRED then refreshToken
  else if String.eqb errorType INVALID_CREDENTIALS then
    clearTokens ;;
    authenticate true
  else if String.eqb errorType PERMISSION_DENIED then
    throw (Error "Permission denied. Please check your Google Cloud Console settings.")
  else throw error.

Definition initialize : M bool :=
  try_catch
    (storedToken <- StorageService.getAuthToken env ;;
     match storedToken with
     | Some s =>
         isValid <- _validateToken s ;;
         if isValid then
           modify (set_currentToken (Some s)) ;;
           _notifyAuthStateChange true (Some s)
         else
           StorageService.clearAuthToken env ;;
           ret tt
     | None => ret tt
     end ;;
     ret true)
    (fun error => ret false).

End WithEnv.
End AuthService.

(** ** gmail-api.service.js *)

Module GmailApiService.
Import ErrorHandler ErrorHandler.ERROR_TYPES.

Record EmailData := mkEmailData {
  to : string;
  subject : string;
  body : string
}.

Record Attachment := mkAttachment {
  name : string;
  data : string;
  type : option string
}.

(** The value [sendEmail] resolves to: the success object or the response
    built by [ErrorHandler.createErrorResponse]. *)
Inductive SendResult :=
| SendOk (messageId threadId : string)
| SendFailed (response : ErrorResponse).

Definition rateLimitDelay : Z := 1000.
Definition maxRetries : nat := 3.

(** *** [btoa] and the URL-safe rewriting of [_makeApiRequest] *)

Definition b64_digits : string :=
  "ABCDEFGHIJKLMNOPQRSTUVWXYZabcdefghijklmnopqrstuvwxyz0123456789+/".

Definition b64_digit (n : N) : ascii :=
  default "="%char (String.get (N.to_nat n) b64_digits).

Fixpoint btoa (s : string) : string :=
  match s with
  | "" => ""
  | String a "" =>
      let x := N_of_ascii a in
      String (b64_digit (x / 4)) (String (b64_digit (x mod 4 * 16)) "==")
  | String a (String b "") =>
      let x := N_of_ascii a in
      let y := N_of_ascii b in
      String (b64_digit (x / 4))
        (String (b64_digit (x mod 4 * 16 + y / 16))
           (String (b64_digit (y mod 16 * 4)) "="))
  | String a (String b (String c rest)) =>
      let x := N_of_ascii a in
      let y := N_of_ascii b in
      let z := N_of_ascii c in
      String (b64_digit (x / 4))
        (String (b64_digit (x mod 4 * 16 + y / 16))
           (String (b64_digit (y mod 16 * 4 + z / 64))
              (String (b64_digit (z mod 64)) (btoa rest))))
  end%N.

(** [.replace(/\+/g, '-').replace(/\//g, '_')] *)
Fixpoint replace_plus_slash (s : string) : string :=
  match s with
  | "" => ""
  | String c s' =>
      String (if Ascii.eqb c "+" then "-"%char
              else if Ascii.eqb c "/" then "_"%char else c)
             (replace_plus_slash s')
  end.

(** [.replace(/=+$/, '')] *)
Fixpoint strip_padding (s : string) : string :=
  match s with
  | "" => ""
  | String c s' =>
      match strip_padding s' with
      | "" => if Ascii.eqb c "=" then "" else String c ""
      | r => String c r
      end
  end.

Definition encodeMessage (emailMessage : string) : string :=
  strip_padding (replace_plus_slash (btoa emailMessage)).

(** *** [_buildEmailMessage]

    The boundary that the first line of the method draws from
    [_generateBoundary] is the first argument here; [sendEmail] draws it. *)
Definition _buildEmailMessage (boundary : string) (emailData : EmailData)
    (attachments : list Attachment) : string :=
  let hasAttachments := (0 <? length attachments)%nat in
  let message :=
    [ "To: " +:+ to emailData;
      "Subject: " +:+ subject emailData;
      "MIME-Version: 1.0" ] in
  let message :=
    if hasAttachments
    then message ++ [ "Content-Type: multipart/mixed; boundary="
                        +:+ String Js.DQUOTE boundary
                        +:+ String Js.DQUOTE "" ]
    else message ++ [ "Content-Type: text/plain; charset=UTF-8" ] in
  let message := message ++ [ "" ] in
  let message :=
    if hasAttachments then
      let message :=
        message ++ [ "--" +:+ boundary;
                     "Content-Type: text/plain; charset=UTF-8";
                     "";
                     body emailData;
                     "" ] in
      let message :=
        fold_left
          (fun message attachment =>
             message ++ [ "--" +:+ boundary;
                          "Content-Type: "
                            +:+ (match type attachment with
                                 | Some t =>
                                     if Js.truthy t then t
                                     else "application/octet-stream"
                                 | None => "application/octet-stream"
                                 end);
                          "Content-Disposition: attachment; filename="
                            +:+ String Js.DQUOTE (name attachment)
                            +:+ String Js.DQUOTE "";
                          "Content-Transfer-Encoding: base64";
                          "";
                          data attachment;
                          "" ])
          attachments message in
      message ++ [ "--" +:+ boundary +:+ "--" ]
    else message ++ [ body emailData ] in
  Js.join Js.CRLF message.

Section WithEnv.
Variable env : Env.

Definition createErrorResponse (error : JsError) (context : Context)
  : M ErrorResponse :=
  match ErrorHandler.createErrorResponse (RObject error) context with
  | Some r => ret r
  | None => throw (Error "Cannot read properties of null")
  end.

(** [await new Promise(resolve => setTimeout(resolve, ms))] *)
Definition sleep (ms : Z) : M unit := modify (log_sleep ms).

(** ['boundary_' + Math.random().toString(36).substr(2, 9)] *)
Definition _generateBoundary : M string :=
  fun w =>
    (Return ("boundary_" +:+ Js.substr 2 9 (random36 env (randomCalls w))),
     log_randomCall w).

Definition _makeApiRequest (token emailMessage : string)
  : M (string * string) :=
  let encodedMessage := encodeMessage emailMessage in
  fun w =>
    let w' := log_sendCall token encodedMessage w in
    match send_reply env (length (sendCalls w)) token encodedMessage with
    | FetchRejected e => (Throw e, w')
    | HttpError status errMessage retryAfter =>
        let msg :=
          match errMessage with
          | Some m =>
              if Js.truthy m then m
              else "API request failed with status " +:+ Js.show status
          | None => "API request failed with status " +:+ Js.show status
          end in
        (Throw {| err_message := Some msg; err_code := None;
                  err_status := Some status;
                  err_retryAfter := retryAfter |}, w')
    | HttpOk id threadId => (Return (id, threadId), w')
    end.

(** [parseInt(retryAfter) * 1000], or [null] *)
Definition _extractRetryAfter (error : JsError) : option Z :=
  match err_retryAfter error with
  | Some seconds => Some (seconds * 1000)%Z
  | None => None
  end.

(** The three methods below call [sendEmail]; it is their first argument,
    and [sendEmail] passes itself with the fuel that is left.  The fuel
    counts the nesting of these calls. *)
Fixpoint _retryWithBackoff
    (sendEmail : EmailData -> list Attachment -> M SendResult)
    (fuel : nat) (emailData : EmailData) (attachments : list Attachment)
    (attempt : nat) : M SendResult :=
  if (maxRetries <? attempt)%nat then
    r <- createErrorResponse (Error "Maximum retry attempts exceeded")
           (mkContext None (Some attempt) None) ;;
    ret (SendFailed r)
  else
    match fuel with
    | O => out_of_fuel
    | S fuel' =>
        try_catch
          (let delay := (2 ^ Z.of_nat attempt * 1000)%Z in
           sleep delay ;;
           sendEmail emailData attachments)
          (fun error =>
             _retryWithBackoff sendEmail fuel' emailData attachments
               (attempt + 1))
    end.

Definition _handleRateLimit
    (sendEmail : EmailData -> list Attachment -> M SendResult)
    (fuel : nat) (error : JsError) (emailData : EmailData)
    (attachments : list Attachment) : M SendResult :=
  let retryAfter :=
    match _extractRetryAfter error with
    | Some ms => if (ms =? 0)%Z then rateLimitDelay else ms
    | None => rateLimitDelay
    end in
  sleep retryAfter ;;
  _retryWithBackoff sendEmail fuel emailData attachments 1.

Definition _handleApiError
    (sendEmail : EmailData -> list Attachment -> M SendResult)
    (fuel : nat) (error : JsError) (emailData : EmailData)
    (attachments : list Attachment) : M SendResult :=
  let errorType := classifyError (RObject error) in
  if String.eqb errorType TOKEN_EXPIRED then
    try_catch
      (AuthService.handleAuthError env error ;;
       sendEmail emailData attachments)
      (fun authError =>
         r <- createErrorResponse authError noContext ;;
         ret (SendFailed r))
  else if String.eqb errorType RATE_LIMIT then
    _handleRateLimit sendEmail fuel error emailData attachments
  else if String.eqb errorType NETWORK_ERROR then
    _retryWithBackoff sendEmail fuel emailData attachments 1
  else
    r <- createErrorResponse error noContext ;;
    ret (SendFailed r).

Fixpoint sendEmail (fuel : nat) (emailData : EmailData)
    (attachments : list Attachment) : M SendResult :=
  match fuel with
  | O => out_of_fuel
  | S fuel' =>
      try_catch
        (token <- AuthService.getValidToken env ;;
         boundary <- _generateBoundary ;;
         let emailMessage :=
           _buildEmailMessage boundary emailData attachments in
         response <- _makeApiRequest token emailMessage ;;
         ret (SendOk (fst response) (snd response)))
        (fun error =>
           _handleApiError (sendEmail fuel') fuel' error emailData
             attachments)
  end.

End WithEnv.
End GmailApiService.

(** ** email.service.js *)

Module EmailService.
Import ErrorHandler.
Section WithEnv.
Variable env : Env.

(** The success object of [sendEmailWithAttachment]. *)
Record Sent := mkSent {
  sent_success : bool;
  sent_message : string;
  sent_messageId : string;
  sent_recipient : string
}.

(** What [sendEmailWithAttachment] resolves to. *)
Inductive Result :=
| ResultSent (r : Sent)
| ResultError (r : ErrorResponse).

Definition result_success (r : Result) : bool :=
  match r with
  | ResultSent s => sent_success s
  | ResultError e => success e
  end.

Definition initialize : M bool :=
  try_catch
    (AuthService.initialize env ;;
     modify (set_initialized true) ;;
     ret true)
    (fun error => ret false).

Definition _prepareEmailData (recipient : string)
    (config : Validator.EmailConfig) : GmailApiService.EmailData :=
  {| GmailApiService.to := recipient;
     GmailApiService.subject := Validator.subject config;
     GmailApiService.body := Validator.body config |}.

Definition _prepareAttachments (config : Validator.EmailConfig)
  : list GmailApiService.Attachment :=
  let attachmentData := default "" (Validator.attachmentData config) in
  let attachmentName := default "" (Validator.attachmentName config) in
  let attachmentType := default "" (Validator.attachmentType config) in
  if Js.truthy attachmentData && Js.truthy attachmentName then
    [ {| GmailApiService.name := attachmentName;
         GmailApiService.data := attachmentData;
         GmailApiService.type :=
           Some (if Js.truthy attachmentType then attachmentType
                 else "application/octet-stream") |} ]
  else [].

Definition sendEmailWithAttachment (fuel : nat) (recipient : string)
  : M Result :=
  try_catch
    (isInitialized <- get initialized ;;
     (if negb isInitialized then initialize else ret true) ;;
     if negb (Validator.isValidEmail recipient)
     then throw (Error "Invalid recipient email address")
     else
       config <- StorageService.getEmailConfig env ;;
       match config with
       | None =>
           throw (Error "No email configuration found. Please configure your email template first.")
       | Some config =>
           let configErrors := Validator.validateEmailConfig (Some config) in
           if (0 <? length configErrors)%nat
           then throw (Error ("Invalid email configuration: "
                                +:+ Js.join ", " configErrors))
           else
             let emailData := _prepareEmailData recipient config in
             let attachments := _prepareAttachments config in
             result <- GmailApiService.sendEmail env fuel emailData
                         attachments ;;
             match result with
             | GmailApiService.SendOk messageId _ =>
                 ret (ResultSent
                        {| sent_success := true;
                           sent_message := "Email sent successfully!";
                           sent_messageId := messageId;
                           sent_recipient := recipient |})
             | GmailApiService.SendFailed r =>
                 throw (Error (if Js.truthy (message r) then message r
                               else "Failed to send email"))
             end
       end)
    (fun error =>
       r <- GmailApiService.createErrorResponse error
              (mkContext (Some recipient) None None) ;;
       ret (ResultError r)).

End WithEnv.
End EmailService.

(** ** Two concurrent [getValidToken] calls

    JavaScript runs an [async] method without interruption from one [await]
    to the next.  A call of [getValidToken] is therefore a [Task] that is
    suspended at one of its awaits (the constructor says which, with the
    index of the request it waits for), and a step lets one task receive the
    answer it waits for and run to its next await.  Tasks share the [World];
    a schedule is the order in which the answers arrive. *)

Module Concurrent.
Import ErrorHandler ErrorHandler.ERROR_TYPES.

Inductive Task :=
| Called
    (* getValidToken() is invoked; nothing has run yet *)
| AwaitValidateCurrent (n : nat) (t : string)
    (* await this._validateToken(this.currentToken) *)
| AwaitStoredToken (n : nat)
    (* await StorageService.getAuthToken() *)
| AwaitValidateStored (n : nat) (s : string)
    (* await this._validateToken(storedToken) *)
| AwaitIdentity (n : nat)
    (* authenticate(true): await this._getAuthToken(interactive) *)
| AwaitSave (n : nat) (token : string)
    (* authenticate(true): await StorageService.saveAuthToken(token) *)
| Resolved (token : option string)
| Rejected (e : JsError).

Record Config := mkConfig {
  world : World;
  tasks : list Task
}.

Section WithEnv.
Variable env : Env.

(** The [catch] block of [getValidToken]. *)
Definition reject_getValidToken (error : JsError) : Task :=
  match ErrorHandler.getUserMessage (RObject error) with
  | Some m => Rejected (Error ("Failed to get valid token: " +:+ m))
  | None => Rejected (Error "Cannot read properties of null")
  end.

(** The [catch] block of [authenticate], whose error [getValidToken]
    catches in turn. *)
Definition reject_authenticate (error : JsError) : Task :=
  let errorType := classifyError (RObject error) in
  if String.eqb errorType VERIFICATION_REQUIRED
  then reject_getValidToken (Error "App verification required. Please add yourself as a test user in Google Cloud Console.")
  else
    match ErrorHandler.getUserMessage (RObject error) with
    | Some m => reject_getValidToken (Error ("Authentication failed: " +:+ m))
    | None => reject_getValidToken (Error "Cannot read properties of null")
    end.

(** [StorageService.getAuthToken()] up to its await. *)
Definition start_getAuthToken (w : World) : Task * World :=
  (AwaitStoredToken (storageOps w), log_storageOp w).

(** [this._validateToken(token)] up to its await, for a truthy token. *)
Definition start_validateStored (s : string) (w : World) : Task * World :=
  (AwaitValidateStored (length (tokeninfoCalls w)) s, log_tokeninfoCall s w).

(** [this.authenticate(true)] up to its first await. *)
Definition start_authenticate (w : World) : Task * World :=
  if negb (Js.truthy (clientId env))
  then (reject_authenticate (Error "Google Client ID not configured"), w)
  else (AwaitIdentity (length (identityCalls w)), log_identityCall true w).

Definition step_task (t : Task) (w : World) : option (Task * World) :=
  match t with
  | Called =>
      let cur := default "" (currentToken w) in
      if Js.truthy cur
      then Some (AwaitValidateCurrent (length (tokeninfoCalls w)) cur,
                 log_tokeninfoCall cur w)
      else Some (start_getAuthToken w)
  | AwaitValidateCurrent n t =>
      if tokeninfo_ok env n t
      then Some (Resolved (currentToken w), w)
      else Some (start_getAuthToken w)
  | AwaitStoredToken n =>
      if storage_fails env n
      then Some (reject_getValidToken
                   (Error "Failed to retrieve authentication token"), w)
      else
        let stored := default "" (stored_token w) in
        if Js.truthy stored then Some (start_validateStored stored w)
        else Some (start_authenticate w)
  | AwaitValidateStored n s =>
      if tokeninfo_ok env n s
      then Some (Resolved (Some s), set_currentToken (Some s) w)
      else Some (start_authenticate w)
  | AwaitIdentity n =>
      match getAuthToken_reply env n true with
      | inl token =>
          if Js.truthy token
          then let w := set_currentToken (Some token) w in
               Some (AwaitSave (storageOps w) token, log_storageOp w)
          else Some (reject_authenticate (Error "Authentication failed"), w)
      | inr lastError => Some (reject_authenticate (Error lastError), w)
      end
  | AwaitSave n token =>
      if storage_fails env n
      then Some (reject_authenticate
                   (Error "Failed to save authentication token"), w)
      else Some (Resolved (Some token),
                 log_notification true (Some token)
                   (set_stored_token (Some token) w))
  | Resolved _ | Rejected _ => None
  end.

(** Task [i] takes its next step. *)
Definition step (i : nat) (c : Config) : option Config :=
  match tasks c !! i with
  | Some t =>
      match step_task t (world c) with
      | Some (t', w') => Some (mkConfig w' (<[i := t']> (tasks c)))
      | None => None
      end
  | None => None
  end.

Fixpoint run (schedule : list nat) (c : Config) : option Config :=
  match schedule with
  | [] => Some c
  | i :: rest =>
      match step i c with
      | Some c' => run rest c'
      | None => None
      end
  end.

(** One call on its own: it takes up to [n] steps. *)
Fixpoint solo (n : nat) (t : Task) (w : World) : Task * World :=
  match n with
  | O => (t, w)
  | S n' =>
      match step_task t w with
      | Some (t', w') => solo n' t' w'
      | None => (t, w)
      end
  end.

End WithEnv.

(** The task a finished sequential call corresponds to. *)
Definition settled (r : Outcome string) : Task :=
  match r with
  | Return token => Resolved (Some token)
  | Throw e => Rejected e
  | OutOfFuel => Called
  end.

(** The interactive invocations in a log of [getAuthToken] calls. *)
Definition interactive_invocations (calls : list bool) : nat :=
  length (filter (fun b => b = true) calls).

End Concurrent.

(** ** Vocabulary of the statements *)

(** [sub] occurs in [s]. *)
Definition contains (s sub : string) : Prop :=
  exists pre post, s = pre +:+ sub +:+ post.

(** The classifier's tests in their order, each with the kind it returns:
    the list of section 4.1 of the specification with the tests of the
    source. *)
Definition priority_rules : list ((string -> option Z -> bool) * string) :=
  [ (fun m _ => Js.includes m "token" && Js.includes m "expired",
     ErrorHandler.ERROR_TYPES.TOKEN_EXPIRED);
    (fun m _ => Js.includes m "invalid_grant" || Js.includes m "unauthorized",
     ErrorHandler.ERROR_TYPES.INVALID_CREDENTIALS);
    (fun m c => Js.includes m "permission" || ErrorHandler.code_is c 403,
     ErrorHandler.ERROR_TYPES.PERMISSION_DENIED);
    (fun m _ => Js.includes m "verification" || Js.includes m "not completed",
     ErrorHandler.ERROR_TYPES.VERIFICATION_REQUIRED);
    (fun m c => ErrorHandler.code_is c 429 || Js.includes m "rate limit",
     ErrorHandler.ERROR_TYPES.RATE_LIMIT);
    (fun m c => ErrorHandler.code_ge c 500 || Js.includes m "server error",
     ErrorHandler.ERROR_TYPES.SERVER_ERROR);
    (fun m _ => Js.includes m "network" || Js.includes m "fetch",
     ErrorHandler.ERROR_TYPES.NETWORK_ERROR);
    (fun m _ => Js.includes m "email" && Js.includes m "invalid",
     ErrorHandler.ERROR_TYPES.INVALID_EMAIL);
    (fun m _ => Js.includes m "file" && Js.includes m "large",
     ErrorHandler.ERROR_TYPES.FILE_TOO_LARGE);
    (fun m _ => Js.includes m "required",
     ErrorHandler.ERROR_TYPES.MISSING_REQUIRED_FIELD);
    (fun m _ => Js.includes m "quota" || Js.includes m "QUOTA_BYTES",
     ErrorHandler.ERROR_TYPES.QUOTA_EXCEEDED) ].

(** First match wins; the fallback is ['unknown']. *)
Definition first_match (rules : list ((string -> option Z -> bool) * string))
    (m : string) (c : option Z) : string :=
  match find (fun rule => fst rule m c) rules with
  | Some rule => snd rule
  | None => "unknown"
  end.

(** An error that no test of the classifier matches. *)
Definition matches_no_pattern (error : RawError) : Prop :=
  let m := ErrorHandler.errorMessage error in
  let c := ErrorHandler.errorCode error in
  ~ (contains m "token" /\ contains m "expired")
  /\ ~ contains m "invalid_grant" /\ ~ contains m "unauthorized"
  /\ ~ contains m "permission" /\ c <> Some 403%Z
  /\ ~ contains m "verification" /\ ~ contains m "not completed"
  /\ c <> Some 429%Z /\ ~ contains m "rate limit"
  /\ (forall n, c = Some n -> (n < 500)%Z) /\ ~ contains m "server error"
  /\ ~ contains m "network" /\ ~ contains m "fetch"
  /\ ~ (contains m "email" /\ contains m "invalid")
  /\ ~ (contains m "file" /\ contains m "large")
  /\ ~ contains m "required"
  /\ ~ contains m "quota" /\ ~ contains m "QUOTA_BYTES".

(** The in-memory credential is present and the introspection call that
    [getValidToken] makes for it answers that it is live. *)
Definition memory_live (env : Env) (w : World) : bool :=
  let cur := default "" (currentToken w) in
  Js.truthy cur && tokeninfo_ok env (length (tokeninfoCalls w)) cur.

(** The world in which [getValidToken] reads the persisted credential: after
    the introspection of the in-memory one, when there is one, and the
    storage read. *)
Definition after_memory_check (w : World) : World :=
  let cur := default "" (currentToken w) in
  log_storageOp (if Js.truthy cur then log_tokeninfoCall cur w else w).

(** The persisted credential is present and verifies live. *)
Definition stored_live (env : Env) (w : World) : bool :=
  let stored := default "" (stored_token w) in
  Js.truthy stored
  && tokeninfo_ok env (length (tokeninfoCalls (after_memory_check w))) stored.

(** Every POST to the mail endpoint fails with an error of kind [kind]. *)
Definition endpoint_always_fails_with (env : Env) (kind : string) : Prop :=
  forall token emailMessage w,
  exists e,
    fst (GmailApiService._makeApiRequest env token emailMessage w) = Throw e
    /\ ErrorHandler.classifyError (RObject e) = kind.

(** Every character of [s] is in the class [[^\s@]]. *)
Fixpoint no_space_at (s : string) : bool :=
  match s with
  | "" => true
  | String c s' => Validator.not_space_at c && no_space_at s'
  end.

(** The shape [^[^\s@]+@[^\s@]+\.[^\s@]+$] describes. *)
Definition email_shape (s : string) : Prop :=
  exists a b c,
    s = a +:+ "@" +:+ b +:+ "." +:+ c
    /\ a <> "" /\ b <> "" /\ c <> ""
    /\ no_space_at a = true /\ no_space_at b = true /\ no_space_at c = true.

(** ** Reading an attachment back from an envelope

    The receiving side of the round-trip property: the lines between the
    attachment part's [Content-Transfer-Encoding: base64] header block and
    the next boundary marker. *)

Module Mime.

Definition cons_head (c : ascii) (lines : list string) : list string :=
  match lines with
  | [] => [String c ""]
  | l :: rest => String c l :: rest
  end.

(** [envelope.split('\r\n')] *)
Fixpoint split_crlf (s : string) : list string :=
  match s with
  | "" => [""]
  | String c1 rest =>
      match rest with
      | "" => [String c1 ""]
      | String c2 rest' =>
          if Ascii.eqb c1 Js.CR && Ascii.eqb c2 Js.LF
          then "" :: split_crlf rest'
          else cons_head c1 (split_crlf rest)
      end
  end.

(** The lines after the last line that satisfies [P]. *)
Fixpoint after_last (P : string -> bool) (lines : list string)
  : option (list string) :=
  match lines with
  | [] => None
  | l :: rest =>
      match after_last P rest with
      | Some r => Some r
      | None => if P l then Some rest else None
      end
  end.

(** The lines after the first empty line: the end of a header block. *)
Fixpoint after_first_blank (lines : list string) : list string :=
  match lines with
  | [] => []
  | l :: rest => if String.eqb l "" then rest else after_first_blank rest
  end.

(** The lines before the next boundary marker. *)
Fixpoint until_boundary (boundary : string) (lines : list string)
  : list string :=
  match lines with
  | [] => []
  | l :: rest =>
      if String.prefix ("--" +:+ boundary) l then []
      else l :: until_boundary boundary rest
  end.

(** Modelled from the spec: the reader of the round-trip property, which
    the extension does not contain.  It returns the payload of the last
    attachment part: the part's header block is found by its
    [Content-Transfer-Encoding: base64] line and ends at the empty line, and
    the payload is the content of the lines up to the next boundary marker
    (a base64 payload does not contain its line breaks). *)
Definition extractAttachmentData (boundary envelope : string)
  : option string :=
  match after_last (String.eqb "Content-Transfer-Encoding: base64")
          (split_crlf envelope) with
  | Some rest =>
      Some (String.concat "" (until_boundary boundary (after_first_blank rest)))
  | None => None
  end.

(** A character of the base64 alphabet, padding included. *)
Definition is_base64_char (c : ascii) : bool :=
  let n := N_of_ascii c in
  ((65 <=? n) && (n <=? 90) || (97 <=? n) && (n <=? 122)
   || (48 <=? n) && (n <=? 57) || (n =? 43) || (n =? 47) || (n =? 61))%N.

Fixpoint is_base64 (s : string) : bool :=
  match s with
  | "" => true
  | String c s' => is_base64_char c && is_base64 s'
  end.

(** A string without a carriage return, hence a single line. *)
Fixpoint no_CR (s : string) : bool :=
  match s with
  | "" => true
  | String c s' => negb (Ascii.eqb c Js.CR) && no_CR s'
  end.

End Mime.

(** ** Concrete inputs *)

Module Examples.

Definition fresh : World :=
  mkWorld None false None None [] [] [] [] 0 [] 0 [].

Definition template : Validator.EmailConfig :=
  Validator.mkEmailConfig "Hi" "Hello" None None None.

(** An initialised service holding the token [tok] and a stored template. *)
Definition ready : World :=
  mkWorld (Some "tok") true (Some "tok") (Some template) [] [] [] [] 0 [] 0 [].

(** A service that has a stored template and no credential. *)
Definition configured : World :=
  mkWorld None false None (Some template) [] [] [] [] 0 [] 0 [].

(** Everything works: the identity provider grants [tok] with or without
    interaction, every token is live, and the endpoint accepts. *)
Definition online : Env :=
  mkEnv "client-id" (fun _ _ => inl "tok") (fun _ _ => true)
    (fun _ _ _ => HttpOk "m1" "t1") (fun _ => false)
    (fun _ => "0.4fzyo82mvyr").

(** As [online], but every POST fails the way [fetch] fails when the network
    is down. *)
Definition offline : Env :=
  mkEnv "client-id" (fun _ _ => inl "tok") (fun _ _ => true)
    (fun _ _ _ => FetchRejected (Error "Failed to fetch")) (fun _ => false)
    (fun _ => "0.4fzyo82mvyr").

(** As [offline] for the first five POSTs, then the endpoint accepts. *)
Definition flaky : Env :=
  mkEnv "client-id" (fun _ _ => inl "tok") (fun _ _ => true)
    (fun n _ _ => if (n <? 5)%nat
                  then FetchRejected (Error "Failed to fetch")
                  else HttpOk "m1" "t1")
    (fun _ => false) (fun _ => "0.4fzyo82mvyr").

Definition hello : GmailApiService.EmailData :=
  GmailApiService.mkEmailData "user@example.com" "Hi" "Hello".

Definition cv : GmailApiService.Attachment :=
  GmailApiService.mkAttachment "cv.pdf" "JVBERi0xLjQK" (Some "application/pdf").

(** Two calls of [getValidToken] made in the same turn, with no credential
    anywhere. *)
Definition two_calls : Concurrent.Config :=
  Concurrent.mkConfig fresh [Concurrent.Called; Concurrent.Called].

(** The first call waits for the identity provider; the second still waits
    for its storage read. *)
Definition one_acquiring : Concurrent.Config :=
  Concurrent.mkConfig
    (mkWorld None false None None [true] [] [] [] 2 [] 0 [])
    [Concurrent.AwaitIdentity 0; Concurrent.AwaitStoredToken 1].

(** Both calls wait for the identity provider. *)
Definition both_acquiring : Concurrent.Config :=
  Concurrent.mkConfig
    (mkWorld None false None None [true; true] [] [] [] 2 [] 0 [])
    [Concurrent.AwaitIdentity 0; Concurrent.AwaitIdentity 1].

End Examples.

(** * The rest of the cited files *)

(** ** More of JavaScript's strings *)

Module JsMore.

(** [c.toLowerCase()] of a code unit below 256: the letters A to Z, and
    the accented capitals U+00C0 to U+00DE without the multiplication
    sign. *)
Definition lower_char (c : ascii) : ascii :=
  let n := N_of_ascii c in
  if ((65 <=? n) && (n <=? 90)
      || (192 <=? n) && (n <=? 222) && negb (n =? 215))%N
  then ascii_of_N (n + 32)
  else c.

Fixpoint toLowerCase (s : string) : string :=
  match s with
  | "" => ""
  | String c s' => String (lower_char c) (toLowerCase s')
  end.

(** The text after the last [sep] of [s], if [sep] occurs. *)
Fixpoint after_last_sep (sep : ascii) (s : string) : option string :=
  match s with
  | "" => None
  | String c s' =>
      match after_last_sep sep s' with
      | Some r => Some r
      | None => if Ascii.eqb c sep then Some s' else None
      end
  end.

(** [s.split(sep).pop()] *)
Definition split_pop (sep : ascii) (s : string) : string :=
  default s (after_last_sep sep s).

(** [s.replace(/p+/g, '_')]: every maximal run of characters in the class
    [p] becomes one underscore.  [in_run] says that the previous character
    was in the class. *)
Fixpoint collapse_runs (p : ascii -> bool) (in_run : bool) (s : string)
  : string :=
  match s with
  | "" => ""
  | String c s' =>
      if p c then
        if in_run then collapse_runs p true s'
        else String "_" (collapse_runs p true s')
      else String c (collapse_runs p false s')
  end.

(** Every character of [s] satisfies [p]. *)
Fixpoint all_chars (p : ascii -> bool) (s : string) : bool :=
  match s with
  | "" => true
  | String c s' => p c && all_chars p s'
  end.

(** The number of occurrences of [c] in [s]. *)
Fixpoint count_char (c : ascii) (s : string) : nat :=
  match s with
  | "" => 0
  | String d s' => (if Ascii.eqb d c then 1 else 0) + count_char c s'
  end.

End JsMore.

(** ** validation.js: files and file names *)

Module ValidatorFiles.

(** A [File] as the validator reads it: [size] in bytes, [name], and the
    [type] the browser reports (empty when it knows none). *)
Record File := mkFile {
  size : N;
  name : string;
  type : string
}.

Definition maxSize : N := 1024 * 1024.

Definition allowedTypes : list string := [".pdf"; ".doc"; ".docx"; ".txt"].

Definition two_digits (n : N) : string :=
  if (n <? 10)%N then "0" +:+ pretty n else pretty n.

(** [(size / 1024 / 1024).toFixed(2)].  Both divisions are exact in
    floating point for a size below 2^53, and [toFixed] rounds the exact
    value to the nearest hundredth, upwards on a tie. *)
Definition toFixed2_MiB (size : N) : string :=
  let hundredths := ((200 * size + 1048576) / 2097152)%N in
  pretty (hundredths / 100)%N +:+ "." +:+ two_digits (hundredths mod 100)%N.

(** ['.' + file.name.split('.').pop().toLowerCase()] *)
Definition fileExtension (file : File) : string :=
  "." +:+ JsMore.toLowerCase (JsMore.split_pop "." (name file)).

(** [allowedTypes.includes(fileExtension)] *)
Definition allowed (extension : string) : bool :=
  existsb (String.eqb extension) allowedTypes.

Definition validateAttachment (file : option File) : list string :=
  match file with
  | None => ["File is required"]
  | Some file =>
      (if (maxSize <? size file)%N
       then ["File size (" +:+ toFixed2_MiB (size file)
               +:+ "MB) exceeds limit (1MB)"]
       else [])
      ++ (if negb (allowed (fileExtension file))
          then ["File type " +:+ fileExtension file
                  +:+ " is not allowed. Allowed types: "
                  +:+ Js.join ", " allowedTypes]
          else [])
      ++ (if (100 <? String.length (name file))%nat
          then ["File name is too long (max 100 characters)"]
          else [])
  end.

(** The class of characters no file name may hold: the angle brackets,
    colon, double quote, slash, backslash, bar, question mark and
    asterisk. *)
Definition invalid_char (c : ascii) : bool :=
  match N_of_ascii c with
  | 60 | 62 | 58 | 34 | 47 | 92 | 124 | 63 | 42 => true
  | _ => false
  end%N.

(** The first [replace]: every such character becomes an underscore. *)
Fixpoint replace_invalid (s : string) : string :=
  match s with
  | "" => ""
  | String c s' =>
      String (if invalid_char c then "_"%char else c) (replace_invalid s')
  end.

Definition is_underscore (c : ascii) : bool := Ascii.eqb c "_".

(** A run of two or more underscores becomes one underscore, and a single
    underscore stays: [.replace(/_{2,}/g, '_')] collapses every run. *)
Definition sanitizeFileName (fileName : string) : string :=
  if negb (Js.truthy fileName) then "attachment"
  else
    Js.trim
      (JsMore.collapse_runs is_underscore false
         (JsMore.collapse_runs Js.is_space false
            (replace_invalid fileName))).

End ValidatorFiles.

(** ** file-handler.js *)

Module FileHandler.
Import ValidatorFiles.

(** What [getFileMimeType] returns: text, or, for the two extensions that
    name an inherited property of the object literal [mimeTypes]
    ([constructor] and [__proto__]), that property, which is not text. *)
Inductive MimeType :=
| MimeText (s : string)
| MimeInherited (property : string).

Definition mimeTypes : gmap string string :=
  <["pdf" := "application/pdf"]>
  (<["doc" := "application/msword"]>
  (<["docx" :=
       "application/vnd.openxmlformats-officedocument.wordprocessingml.document"]>
  (<["txt" := "text/plain"]>
  (<["jpg" := "image/jpeg"]>
  (<["jpeg" := "image/jpeg"]>
  (<["png" := "image/png"]>
  (<["gif" := "image/gif"]> ∅))))))).

Definition getFileMimeType (file : option File) : MimeType :=
  match file with
  | None => MimeText "application/octet-stream"
  | Some file =>
      if Js.truthy (type file) then MimeText (type file)
      else
        let extension :=
          JsMore.toLowerCase (JsMore.split_pop "." (name file)) in
        match mimeTypes !! extension with
        | Some m => MimeText m
        | None =>
            if String.eqb extension "constructor"
               || String.eqb extension "__proto__"
            then MimeInherited extension
            else MimeText "application/octet-stream"
        end
  end.

Record Validation := mkValidation {
  isValid : bool;
  errors : list string
}.

Definition validateFile (file : option File) : Validation :=
  let errors := validateAttachment file in
  {| isValid := (length errors =? 0)%nat; errors := errors |}.

End FileHandler.

(** ** error-handler.js: [handleError] *)

Module ErrorHandlerRetry.
Import ErrorHandler.

(** What [handleError] resolves to: [{success: true, result}], or an
    error response; [retriesExhausted] is the field the last failed retry
    adds to the response's context. *)
Inductive Handled (A : Type) :=
| Recovered (result : A)
| GaveUp (response : ErrorResponse) (retriesExhausted : bool).
Arguments Recovered {A} result.
Arguments GaveUp {A} response retriesExhausted.

Section Retry.
Context {A : Type}.

(** [logError] reads [error.message] unless the error is a string: on
    [null] that is a [TypeError]. *)
Definition logError (error : RawError) : M unit :=
  match error with
  | RNull => throw (Error "Cannot read properties of null")
  | _ => ret tt
  end.

Definition respond (error : RawError) (context : Context)
    (retriesExhausted : bool) : M (Handled A) :=
  match createErrorResponse error context with
  | Some r => ret (GaveUp r retriesExhausted)
  | None => throw (Error "Cannot read properties of null")
  end.

(** The [for] loop, by the number of iterations that are left:
    [remaining] is [maxRetries - attempt + 1]. *)
Fixpoint retry_loop (error : RawError) (strategy : RecoveryStrategy)
    (maxRetries : nat) (retryCallback : M A) (context : Context)
    (remaining attempt : nat) : M (Handled A) :=
  match remaining with
  | O => respond error context false
  | S remaining' =>
      try_catch
        ((if String.eqb (action strategy) "exponential_backoff"
          then modify (log_sleep (2 ^ Z.of_nat attempt * 1000)%Z)
          else ret tt) ;;
         result <- retryCallback ;;
         ret (Recovered result))
        (fun retryError =>
           if (attempt =? maxRetries)%nat
           then respond (RObject retryError) context true
           else retry_loop error strategy maxRetries retryCallback context
                  remaining' (S attempt))
  end.

(** [strategy.maxRetries || 1] *)
Definition retries_of (strategy : RecoveryStrategy) : nat :=
  match ErrorHandler.maxRetries strategy with
  | Some n => if (n =? 0)%nat then 1%nat else n
  | None => 1%nat
  end.

Definition handleError (error : RawError) (retryCallback : option (M A))
    (context : Context) : M (Handled A) :=
  let errorType := classifyError error in
  let strategy := RECOVERY_STRATEGIES !! errorType in
  logError error ;;
  match strategy, retryCallback with
  | Some strategy, Some retryCallback =>
      if autoRetry strategy then
        let maxRetries := retries_of strategy in
        retry_loop error strategy maxRetries retryCallback context
          maxRetries 1
      else respond error context false
  | _, _ => respond error context false
  end.

End Retry.
End ErrorHandlerRetry.

(** ** error-handler.js: [classifyError] on a message of any primitive type *)

(** The primitive values a property of an error object can hold.  Numbers
    are the integers; code and status stay numbers or absent, as above. *)
Inductive JsValue :=
| VUndefined
| VNull
| VBool (b : bool)
| VNumber (n : Z)
| VString (s : string).

(** What [classifyError] is handed when nothing is assumed of the message:
    a primitive value, or an object with its [message], [code] and
    [status]. *)
Inductive AnyError :=
| APrimitive (v : JsValue)
| AObject (message : JsValue) (code status : option Z).

Module ErrorHandlerAny.
Import ErrorHandler ErrorHandler.ERROR_TYPES.

(** The value is truthy. *)
Definition truthy (v : JsValue) : bool :=
  match v with
  | VUndefined | VNull => false
  | VBool b => b
  | VNumber n => negb (n =? 0)%Z
  | VString s => Js.truthy s
  end.

(** [!error] *)
Definition falsy (error : AnyError) : bool :=
  match error with
  | APrimitive v => negb (truthy v)
  | AObject _ _ _ => false
  end.

(** [typeof error === 'string' ? error : error.message || ''], for a truthy
    [error]; a property read on a boolean or a number gives [undefined]. *)
Definition errorMessage (error : AnyError) : JsValue :=
  match error with
  | APrimitive (VString s) => VString s
  | APrimitive _ => VString ""
  | AObject message _ _ => if truthy message then message else VString ""
  end.

(** [error.code || error.status || ''] *)
Definition errorCode (error : AnyError) : option Z :=
  match error with
  | APrimitive _ => None
  | AObject _ code status => num_or (num_or code status) None
  end.

(** [None] stands for the [TypeError] of the first test: a boolean and a
    number have no [includes] method. *)
Definition classifyError (error : AnyError) : option string :=
  if falsy error then Some "unknown" else
  let errorCode := errorCode error in
  match errorMessage error with
  | VString errorMessage =>
      Some
        (if Js.includes errorMessage "token"
            && Js.includes errorMessage "expired"
         then TOKEN_EXPIRED
         else if Js.includes errorMessage "invalid_grant"
                 || Js.includes errorMessage "unauthorized"
         then INVALID_CREDENTIALS
         else if Js.includes errorMessage "permission"
                 || code_is errorCode 403
         then PERMISSION_DENIED
         else if Js.includes errorMessage "verification"
                 || Js.includes errorMessage "not completed"
         then VERIFICATION_REQUIRED
         else if code_is errorCode 429
                 || Js.includes errorMessage "rate limit"
         then RATE_LIMIT
         else if code_ge errorCode 500
                 || Js.includes errorMessage "server error"
         then SERVER_ERROR
         else if Js.includes errorMessage "network"
                 || Js.includes errorMessage "fetch"
         then NETWORK_ERROR
         else if Js.includes errorMessage "email"
                 && Js.includes errorMessage "invalid"
         then INVALID_EMAIL
         else if Js.includes errorMessage "file"
                 && Js.includes errorMessage "large"
         then FILE_TOO_LARGE
         else if Js.includes errorMessage "required"
         then MISSING_REQUIRED_FIELD
         else if Js.includes errorMessage "quota"
                 || Js.includes errorMessage "QUOTA_BYTES"
         then QUOTA_EXCEEDED
         else "unknown")
  | _ => None
  end.

End ErrorHandlerAny.

(** ** storage.service.js: the template and its attachment *)

Definition set_stored_config (c : option Validator.EmailConfig) (w : World)
  : World :=
  mkWorld (currentToken w) (initialized w) (stored_token w) c
    (identityCalls w) (removedTokens w) (tokeninfoCalls w) (sendCalls w)
    (storageOps w) (sleeps w) (randomCalls w) (notifications w).

Module StorageServiceConfig.
Import Validator.

(** The object [saveAttachment] takes and [getAttachment] returns. *)
Record StoredAttachment := mkStoredAttachment {
  name : option string;
  data : option string;
  type : option string
}.

(** [!field] of an optional text field *)
Definition missing (field : option string) : bool :=
  negb (Js.truthy (default "" field)).

Definition validateConfig (config : option EmailConfig) : list string :=
  match config with
  | None => ["Configuration must be an object"]
  | Some config =>
      (if negb (Js.truthy (subject config))
          || negb (Js.truthy (Js.trim (subject config)))
       then ["Subject is required"] else [])
      ++ (if negb (Js.truthy (body config))
             || negb (Js.truthy (Js.trim (body config)))
          then ["Body is required"] else [])
      ++ (if negb (missing (attachmentData config)) then
            (if missing (attachmentName config)
             then ["Attachment name is required when attachment data is provided"]
             else [])
            ++ (if missing (attachmentType config)
                then ["Attachment type is required when attachment data is provided"]
                else [])
          else [])
  end.

Section WithEnv.
Variable env : Env.

Definition saveEmailConfig (config : option EmailConfig) : M bool :=
  try_catch
    (let validationErrors := validateConfig config in
     if (0 <? length validationErrors)%nat
     then throw (Error ("Invalid configuration: "
                          +:+ Js.join ", " validationErrors))
     else
       StorageService.chrome_storage_op env ;;
       modify (set_stored_config config) ;;
       ret true)
    (fun error => throw (Error "Failed to save email configuration")).

(** [{}], the configuration without any field *)
Definition empty_config : EmailConfig := mkEmailConfig "" "" None None None.

Definition saveAttachment (attachmentData : option StoredAttachment)
  : M bool :=
  try_catch
    (match attachmentData with
     | None => throw (Error "Invalid attachment data provided")
     | Some attachmentData =>
         stored <- StorageService.getEmailConfig env ;;
         let currentConfig := default empty_config stored in
         let updatedConfig :=
           {| subject := subject currentConfig;
              body := body currentConfig;
              attachmentName := name attachmentData;
              attachmentData := data attachmentData;
              attachmentType := type attachmentData |} in
         saveEmailConfig (Some updatedConfig)
     end)
    (fun error => throw (Error "Failed to save attachment")).

Definition getAttachment : M (option StoredAttachment) :=
  try_catch
    (config <- StorageService.getEmailConfig env ;;
     match config with
     | None => ret None
     | Some config =>
         if missing (attachmentData config) then ret None
         else ret (Some {| name := attachmentName config;
                           data := attachmentData config;
                           type := attachmentType config |})
     end)
    (fun error => throw (Error "Failed to retrieve attachment")).

Definition clearAttachment : M bool :=
  try_catch
    (currentConfig <- StorageService.getEmailConfig env ;;
     match currentConfig with
     | None => ret true
     | Some currentConfig =>
         let updatedConfig :=
           {| subject := subject currentConfig;
              body := body currentConfig;
              attachmentName := None;
              attachmentData := None;
              attachmentType := None |} in
         saveEmailConfig (Some updatedConfig)
     end)
    (fun error => throw (Error "Failed to clear attachment")).

End WithEnv.
End StorageServiceConfig.

(** ** auth.service.js: status and listeners *)

Module AuthServiceStatus.

Record AuthStatus := mkAuthStatus {
  isAuthenticated : bool;
  hasToken : bool;
  tokenValid : bool
}.

Section WithEnv.
Variable env : Env.

Definition getAuthStatus : M AuthStatus :=
  try_catch
    (token <- StorageService.getAuthToken env ;;
     let t := default "" token in
     isAuthenticated <- (if Js.truthy t then AuthService._validateToken env t
                         else ret false) ;;
     ret {| isAuthenticated := isAuthenticated;
            hasToken := Js.truthy t;
            tokenValid := isAuthenticated |})
    (fun error =>
       ret {| isAuthenticated := false; hasToken := false;
              tokenValid := false |}).

End WithEnv.

(** [this.authStateListeners], a list of functions; a function is known
    by its identity.  The argument of the two methods is any value: [None]
    is a value that is not a function. *)
Definition Listeners := list nat.

Definition onAuthStateChanged (callback : option nat)
    (authStateListeners : Listeners) : Listeners :=
  match callback with
  | Some f => authStateListeners ++ [f]
  | None => authStateListeners
  end.

(** [authStateListeners.indexOf(f)], [None] for [-1] *)
Fixpoint indexOf (f : nat) (l : Listeners) : option nat :=
  match l with
  | [] => None
  | g :: l' =>
      if (g =? f)%nat then Some 0%nat
      else match indexOf f l' with
           | Some i => Some (S i)
           | None => None
           end
  end.

(** A value that is not a function is never in the list. *)
Definition removeAuthStateListener (callback : option nat)
    (authStateListeners : Listeners) : Listeners :=
  match callback with
  | Some f =>
      match indexOf f authStateListeners with
      | Some index => delete index authStateListeners
      | None => authStateListeners
      end
  | None => authStateListeners
  end.

End AuthServiceStatus.

(** ** gmail-api.service.js: the self test *)

Module GmailApiServiceTest.
Import GmailApiService.

(** What [testEmailSending] resolves to. *)
Inductive TestResult :=
| TestPassed (message : string) (messageId : option string)
| TestFailed (message : string) (error : JsError).

Section WithEnv.
Variable env : Env.

(** [result.messageId] of whatever [sendEmail] resolved to: an error
    response has no such field. *)
Definition messageId_of (result : SendResult) : option string :=
  match result with
  | SendOk messageId _ => Some messageId
  | SendFailed _ => None
  end.

Definition testEmailSending (fuel : nat) (to : string) : M TestResult :=
  let testEmailData :=
    {| to := to;
       subject := "Test Email from Gmail API Extension";
       body := "This is a test email to verify the Gmail API integration is working correctly." |} in
  try_catch
    (result <- sendEmail env fuel testEmailData [] ;;
     ret (TestPassed "Test email sent successfully" (messageId_of result)))
    (fun error =>
       m <- AuthService.getUserMessage error ;;
       ret (TestFailed ("Test email failed: " +:+ m) error)).

End WithEnv.
End GmailApiServiceTest.

(** ** Vocabulary of the further properties *)

(** A character of the URL-safe base64 alphabet. *)
Definition url_safe_char (c : ascii) : bool :=
  let n := N_of_ascii c in
  ((65 <=? n) && (n <=? 90) || (97 <=? n) && (n <=? 122)
   || (48 <=? n) && (n <=? 57) || (n =? 45) || (n =? 95))%N.

(** A character that [sanitizeFileName] leaves in a name. *)
Definition clean_char (c : ascii) : bool :=
  negb (ValidatorFiles.invalid_char c) && negb (Js.is_space c).

(** No two underscores in a row. *)
Fixpoint no_double_underscore (s : string) : bool :=
  match s with
  | "" => true
  | String c s' =>
      match s' with
      | String d _ =>
          negb (ValidatorFiles.is_underscore c
                && ValidatorFiles.is_underscore d)
      | "" => true
      end && no_double_underscore s'
  end.

(** [s] is not blank: it holds a character that is not white space. *)
Definition nonblank (s : string) : bool := Js.truthy (Js.trim s).

(** Every character of [s] is white space. *)
Definition blank (s : string) : bool := JsMore.all_chars Js.is_space s.

(** The number of retries the table grants an error kind: none for a kind
    without a strategy or with one that does not retry. *)
Definition retry_budget (kind : string) : nat :=
  match ErrorHandler.RECOVERY_STRATEGIES !! kind with
  | Some strategy =>
      if ErrorHandler.autoRetry strategy
      then ErrorHandlerRetry.retries_of strategy
      else 0%nat
  | None => 0%nat
  end.

(** The first character of [s], if any, is not an underscore. *)
Definition head_not_underscore (s : string) : bool :=
  match s with
  | String c _ => negb (ValidatorFiles.is_underscore c)
  | "" => true
  end.

(** The three replacements of [sanitizeFileName], before the final trim. *)
Definition replaced (s : string) : string :=
  JsMore.collapse_runs ValidatorFiles.is_underscore false
    (JsMore.collapse_runs Js.is_space false
       (ValidatorFiles.replace_invalid s)).

(** The extensions of [allowedTypes], without the dot. *)
Definition allowed_extensions : list string := ["pdf"; "doc"; "docx"; "txt"].

(** A character that none of the replacements touches and that is not the
    dot. *)
Definition plain_char (c : ascii) : bool :=
  clean_char c && negb (ValidatorFiles.is_underscore c)
  && negb (Ascii.eqb c ".").

(** The stored template, if there is one, passes [validateConfig]. *)
Definition valid_stored (w : World) : Prop :=
  match stored_config w with
  | Some c => StorageServiceConfig.validateConfig (Some c) = []
  | None => True
  end.

(** The world after [clearTokens] has removed the in-memory token, if there
    is one, from the cache of the identity provider. *)
Definition uncached (w : World) : World :=
  match currentToken w with
  | Some t => if Js.truthy t then log_removedToken t w else w
  | None => w
  end.

(** The messages an error response can carry: the four of the recovery
    table and the three fallbacks of [getUserMessage]. *)
Definition fixed_messages : list string :=
  [ "Session expired. Refreshing authentication...";
    "Rate limit reached. Retrying in a moment...";
    "File is too large. Please select a smaller file.";
    "Network error. Retrying...";
    "Network connection error. Please check your internet connection.";
    "File processing error. Please try with a different file.";
    "An unexpected error occurred. Please try again." ].

(** [m] makes no POST to the mail endpoint. *)
Definition keeps_posts {A : Type} (m : M A) : Prop :=
  forall w, sendCalls (snd (m w)) = sendCalls w.

(** What a [sendEmail emailData attachments] started in [w] may settle to:
    the log of POSTs grows by the POSTs [posts] of the call; success only
    with the identifiers that the endpoint returned for the last of them,
    whose body is the encoded message built from [emailData] and
    [attachments]; a failure response with one of the fixed messages; and
    never a thrown error. *)
Definition settled_send (env : Env) (emailData : GmailApiService.EmailData)
    (attachments : list GmailApiService.Attachment) (w : World)
    (r : Outcome GmailApiService.SendResult * World) : Prop :=
  exists posts,
    sendCalls (snd r) = sendCalls w ++ posts
    /\ match fst r with
       | Return (GmailApiService.SendOk id threadId) =>
           exists earlier token boundary,
             let raw :=
               GmailApiService.encodeMessage
                 (GmailApiService._buildEmailMessage boundary emailData
                    attachments) in
             posts = earlier ++ [(token, raw)]
             /\ send_reply env (length (sendCalls w ++ earlier)) token raw
                = HttpOk id threadId
       | Return (GmailApiService.SendFailed response) =>
           ErrorHandler.success response = false
           /\ In (ErrorHandler.message response) fixed_messages
           /\ ErrorHandler.isRetryable response
              = ErrorHandler.isRetryableError
                  (ErrorHandler.errorType response)
       | Throw _ => False
       | OutOfFuel => True
       end.



(** The calls [refreshToken] makes to the identity provider, each with its
    [interactive] flag, by what the environment answers: none without a
    client id; the interactive call of the outer [catch] alone when the
    storage operation of [clearTokens] rejects; the silent call alone when
    it is granted a non-empty token and the storage operation that saves the
    token succeeds; the silent call and then the interactive one
    otherwise. *)
Definition refresh_prompts (env : Env) (w : World) : list bool :=
  if negb (Js.truthy (clientId env)) then []
  else if storage_fails env (storageOps w) then [true]
  else
    match getAuthToken_reply env (length (identityCalls w)) false with
    | inl token =>
        if Js.truthy token && negb (storage_fails env (S (storageOps w)))
        then [false] else [false; true]
    | inr _ => [false; true]
    end.

Module MoreExamples.

(** The endpoint answers every POST with 429. *)
Definition throttled : Env :=
  mkEnv "client-id" (fun _ _ => inl "tok") (fun _ _ => true)
    (fun _ _ _ => HttpError 429 (Some "Too many requests") (Some 7%Z))
    (fun _ => false) (fun _ => "0.4fzyo82mvyr").

(** The endpoint answers every POST with 400. *)
Definition rejecting : Env :=
  mkEnv "client-id" (fun _ _ => inl "tok") (fun _ _ => true)
    (fun _ _ _ => HttpError 400 (Some "Bad request") None)
    (fun _ => false) (fun _ => "0.4fzyo82mvyr").

(** As [Examples.online], but every storage operation rejects. *)
Definition storage_down : Env :=
  mkEnv "client-id" (fun _ _ => inl "tok") (fun _ _ => true)
    (fun _ _ _ => HttpOk "m1" "t1") (fun _ => true)
    (fun _ => "0.4fzyo82mvyr").

(** A curriculum vitae to attach. *)
Definition cv : StorageServiceConfig.StoredAttachment :=
  StorageServiceConfig.mkStoredAttachment (Some "cv.pdf") (Some "Zm9v")
    (Some "application/pdf").

End MoreExamples.

(** * Properties *)

(** ** Tactics for the monadic code *)

(** Compute, leaving the classifier, string operations and the recursive
    [sendEmail] folded. *)
Ltac step_m :=
  cbn -[ErrorHandler.classifyError ErrorHandler.getUserMessage
        ErrorHandler.createErrorResponse String.eqb String.append
        GmailApiService.sendEmail Validator.isValidEmail
        Validator.validateEmailConfig].

Ltac step_all :=
  cbn -[ErrorHandler.classifyError ErrorHandler.getUserMessage
        ErrorHandler.createErrorResponse String.eqb String.append
        GmailApiService.sendEmail Validator.isValidEmail
        Validator.validateEmailConfig] in *.

(** Case analysis on the innermost scrutinee of the goal. *)
Ltac split_match :=
  match goal with
  | |- context [match ?x with _ => _ end] =>
      lazymatch x with
      | context [match _ with _ => _ end] => fail
      | _ => destruct x eqn:?
      end
  end.

Ltac split_hyps :=
  repeat match goal with
         | H : _ && _ = true |- _ => apply andb_true_iff in H as [? ?]
         | H : _ && _ = false |- _ => apply andb_false_iff in H as [?|?]
         end.

(** Follow every path of a method; the hypotheses close the paths that are
    not taken. *)
Ltac paths := repeat (split_match; step_all; try congruence).

(** ** Strings *)

Lemma append_nil_l (s : string) : "" +:+ s = s.
Proof. reflexivity. Qed.

Lemma append_cons (a : ascii) (s t : string) :
  String a s +:+ t = String a (s +:+ t).
Proof. reflexivity. Qed.

Lemma append_nil_r (s : string) : s +:+ "" = s.
Proof. induction s as [|a s IH]; [reflexivity|]. now rewrite append_cons, IH. Qed.

Lemma append_assoc (s t u : string) : (s +:+ t) +:+ u = s +:+ t +:+ u.
Proof.
  induction s as [|a s IH]; [reflexivity|]. now rewrite !append_cons, IH.
Qed.

(** Push [+:+] inside the constructors of its left operand. *)
Ltac sapp := repeat (rewrite append_nil_l || rewrite append_cons).
Ltac sapp_in H :=
  repeat (rewrite append_nil_l in H || rewrite append_cons in H).

Lemma prefix_spec (sub s : string) :
  String.prefix sub s = true <-> exists post, s = sub +:+ post.
Proof.
  revert s; induction sub as [|a sub IH]; intros s.
  - destruct s; simpl; split; eauto.
  - destruct s as [|b s]; simpl.
    + split; [discriminate | intros [post H]; discriminate].
    + destruct (ascii_dec a b) as [->|Hab].
      * rewrite IH. split; intros [post H]; exists post.
        -- sapp. now rewrite H.
        -- sapp_in H. now injection H.
      * split; [discriminate|].
        intros [post H]. sapp_in H. injection H; congruence.
Qed.

Lemma includes_spec (s sub : string) :
  Js.includes s sub = true <-> contains s sub.
Proof.
  unfold contains. induction s as [|a s IH]; cbn [Js.includes].
  - rewrite orb_false_r, prefix_spec. split.
    + intros [post H]. now exists "", post.
    + intros (pre & post & H).
      destruct pre; sapp_in H; [eauto | discriminate].
  - rewrite orb_true_iff, prefix_spec, IH. split.
    + intros [[post H] | (pre & post & H)].
      * now exists "", post.
      * exists (String a pre), post. sapp. now rewrite H.
    + intros (pre & post & H). destruct pre as [|b pre]; sapp_in H.
      * left; eauto.
      * right. injection H as _ H. eauto.
Qed.

Lemma includes_false (s sub : string) :
  ~ contains s sub -> Js.includes s sub = false.
Proof.
  intros H. destruct (Js.includes s sub) eqn:E; [|reflexivity].
  now apply includes_spec in E.
Qed.

Lemma includes_both_false (s a b : string) :
  ~ (contains s a /\ contains s b) ->
  Js.includes s a && Js.includes s b = false.
Proof.
  intros H. destruct (Js.includes s a) eqn:Ea, (Js.includes s b) eqn:Eb;
    try reflexivity.
  exfalso. apply H. split; now apply includes_spec.
Qed.

(** ** The error classifier *)

Section Classifier.
Import ErrorHandler ErrorHandler.ERROR_TYPES.

(** An error with text in its message is truthy. *)
Lemma contains_truthy (error : RawError) (sub : string) :
  sub <> "" -> contains (errorMessage error) sub -> falsy error = false.
Proof.
  intros Hsub (pre & post & H).
  assert (Hne : errorMessage error <> "").
  { rewrite H. destruct pre; [destruct sub|]; sapp; congruence. }
  destruct error as [|s|e]; simpl in *; [congruence| |reflexivity].
  destruct s; [congruence|reflexivity].
Qed.

(** The chain of [if]s is a first-match search in [priority_rules]. *)
Lemma classifyError_first_match (error : RawError) :
  falsy error = false ->
  classifyError error
  = first_match priority_rules (errorMessage error) (errorCode error).
Proof.
  intros H. unfold classifyError, first_match, priority_rules. rewrite H.
  cbn [find fst snd].
  repeat match goal with
         | |- context [if ?b then _ else _] => destruct b; [reflexivity|]
         end.
  reflexivity.
Qed.

(** C3. A raw error whose message contains both "token" and "expired" is
    classified [auth.token_expired], and the recovery policy recorded for
    that kind retries automatically, once. *)
Theorem C3_token_expired_policy (error : RawError) :
  contains (errorMessage error) "token" ->
  contains (errorMessage error) "expired" ->
  classifyError error = "auth.token_expired"
  /\ exists policy,
       RECOVERY_STRATEGIES !! "auth.token_expired" = Some policy
       /\ autoRetry policy = true
       /\ maxRetries policy = Some 1.
Proof.
  intros Htoken Hexpired. split.
  - unfold classifyError.
    rewrite (contains_truthy error "token") by (discriminate || assumption).
    apply includes_spec in Htoken, Hexpired.
    cbv zeta. now rewrite Htoken, Hexpired.
  - eexists. split; [reflexivity|]. split; reflexivity.
Qed.

Lemma C3_token_expired_policy_witness :
  classifyError (RObject (Error "Access token has expired"))
  = "auth.token_expired"
  /\ exists policy,
       RECOVERY_STRATEGIES !! "auth.token_expired" = Some policy
       /\ autoRetry policy = true
       /\ maxRetries policy = Some 1.
Proof.
  apply (C3_token_expired_policy (RObject (Error "Access token has expired"))).
  - now exists "Access ", " has expired".
  - now exists "Access token has ", "".
Defined.

(** C4, as the claim states it, fails: this message contains "permission"
    and "network", and the first rule of the list matches it as well. *)
Lemma C4_counterexample :
  let error := RObject (Error "token expired: permission check needs network") in
  contains (errorMessage error) "permission"
  /\ contains (errorMessage error) "network"
  /\ classifyError error = "auth.token_expired"
  /\ classifyError error <> "auth.permission_denied".
Proof.
  cbv zeta. repeat split.
  - now exists "token expired: ", " check needs network".
  - now exists "token expired: permission check needs ", "".
  - discriminate.
Qed.

(** C4, amended. The classifier is a first-match search through the rules in
    their fixed order.  A raw error whose message contains both "permission"
    and "network" is never classified [api.network_error]; it is classified
    [auth.permission_denied] unless one of the two rules that come before
    (token and expired; invalid_grant or unauthorized) matches. *)
Theorem C4_permission_outranks_network (error : RawError) :
  contains (errorMessage error) "permission" ->
  contains (errorMessage error) "network" ->
  classifyError error
  = first_match priority_rules (errorMessage error) (errorCode error)
  /\ classifyError error <> "api.network_error"
  /\ (~ (contains (errorMessage error) "token"
         /\ contains (errorMessage error) "expired") ->
      ~ contains (errorMessage error) "invalid_grant" ->
      ~ contains (errorMessage error) "unauthorized" ->
      classifyError error = "auth.permission_denied").
Proof.
  intros Hperm Hnet.
  assert (Hf : falsy error = false)
    by (apply (contains_truthy error "permission"); [discriminate|assumption]).
  apply includes_spec in Hperm.
  split; [now apply classifyError_first_match|].
  unfold classifyError. rewrite Hf. cbv zeta. rewrite Hperm. split.
  - destruct (_ && _); [discriminate|].
    destruct (_ || _); [discriminate|]. discriminate.
  - intros H1 H2 H3.
    now rewrite (includes_both_false _ _ _ H1), (includes_false _ _ H2),
      (includes_false _ _ H3).
Qed.

Lemma C4_permission_outranks_network_witness :
  let error := RObject (Error "permission denied by network policy") in
  classifyError error
  = first_match priority_rules (errorMessage error) (errorCode error)
  /\ classifyError error <> "api.network_error"
  /\ (~ (contains (errorMessage error) "token"
         /\ contains (errorMessage error) "expired") ->
      ~ contains (errorMessage error) "invalid_grant" ->
      ~ contains (errorMessage error) "unauthorized" ->
      classifyError error = "auth.permission_denied").
Proof.
  apply (C4_permission_outranks_network
           (RObject (Error "permission denied by network policy"))).
  - now exists "", " denied by network policy".
  - now exists "permission denied by ", " policy".
Defined.

Lemma code_is_false (c : option Z) (n : Z) :
  c <> Some n -> code_is c n = false.
Proof.
  destruct c as [m|]; simpl; [|reflexivity].
  intros H. apply Z.eqb_neq. congruence.
Qed.

Lemma code_ge_500_false (c : option Z) :
  (forall n, c = Some n -> (n < 500)%Z) -> code_ge c 500 = false.
Proof.
  destruct c as [m|]; simpl; [|reflexivity].
  intros H. apply Z.leb_gt. now apply H.
Qed.

(** On a raw error whose message, when there is one, is text,
    [classifyError] answers ['unknown'] for a falsy raw error and for an
    error that none of its tests matches, and ['unknown'] is not
    retryable. *)
Theorem classifyError_unknown_fallback :
  (forall error, falsy error = true -> classifyError error = "unknown")
  /\ (forall error, matches_no_pattern error -> classifyError error = "unknown")
  /\ isRetryableError "unknown" = false.
Proof.
  split; [|split].
  - intros error H. unfold classifyError. now rewrite H.
  - intros error H. unfold classifyError.
    destruct (falsy error); [reflexivity|].
    destruct H as (H1 & H2 & H3 & H4 & H5 & H6 & H7 & H8 & H9 & H10 & H11
                   & H12 & H13 & H14 & H15 & H16 & H17 & H18).
    cbv zeta.
    rewrite (includes_both_false _ _ _ H1), (includes_false _ _ H2),
      (includes_false _ _ H3), (includes_false _ _ H4),
      (code_is_false _ _ H5), (includes_false _ _ H6),
      (includes_false _ _ H7), (code_is_false _ _ H8),
      (includes_false _ _ H9), (code_ge_500_false _ H10),
      (includes_false _ _ H11), (includes_false _ _ H12),
      (includes_false _ _ H13), (includes_both_false _ _ _ H14),
      (includes_both_false _ _ _ H15), (includes_false _ _ H16),
      (includes_false _ _ H17), (includes_false _ _ H18).
    reflexivity.
  - reflexivity.
Qed.

Lemma classifyError_unknown_fallback_example :
  classifyError RNull = "unknown"
  /\ classifyError (RString "") = "unknown"
  /\ classifyError (RObject (Error "Maximum retry attempts exceeded"))
     = "unknown"
  /\ isRetryableError "unknown" = false.
Proof.
  destruct classifyError_unknown_fallback as (Hfalsy & Hnone & Hretry).
  split; [apply Hfalsy; reflexivity|].
  split; [apply Hfalsy; reflexivity|].
  split; [|exact Hretry].
  apply Hnone. unfold matches_no_pattern. cbn [errorMessage errorCode].
  repeat split;
    try (intros [H1 H2]; apply includes_spec in H1; discriminate H1);
    try (intros H; apply includes_spec in H; discriminate H);
    discriminate.
Defined.




End Classifier.

(** ** The recipient pattern *)

Section EmailPattern.
Import Validator.

Lemma re_tld_spec (s : string) :
  re_tld s = true <-> s <> "" /\ no_space_at s = true.
Proof.
  induction s as [|c s IH]; simpl.
  - split; [discriminate | intros [H _]; congruence].
  - destruct s as [|d s].
    + simpl. rewrite andb_true_r. split; [intros H; split; congruence | tauto].
    + rewrite andb_true_iff, IH. split.
      * intros [H1 [_ H2]]. split; [discriminate|].
        now rewrite H1.
      * intros [_ H]. apply andb_true_iff in H as [H1 H2].
        split; [assumption|]. split; [discriminate|assumption].
Qed.

Lemma re_domain_rest_spec (s : string) :
  re_domain_rest s = true <->
  exists b c, s = b +:+ "." +:+ c /\ c <> ""
              /\ no_space_at b = true /\ no_space_at c = true.
Proof.
  induction s as [|x s IH]; simpl.
  - split; [discriminate|].
    intros (b & c & H & _). destruct b; sapp_in H; discriminate.
  - rewrite orb_true_iff, !andb_true_iff, Ascii.eqb_eq, re_tld_spec, IH. split.
    + intros [[-> [H1 H2]] | [Hx (b & c & -> & H1 & H2 & H3)]].
      * now exists "", s.
      * exists (String x b), c. sapp. simpl. rewrite Hx, H2. auto.
    + intros (b & c & H & H1 & H2 & H3). destruct b as [|y b]; sapp_in H.
      * injection H as -> ->. left. auto.
      * injection H as -> ->. simpl in H2.
        apply andb_true_iff in H2 as [H2 H2']. right. split; [assumption|].
        now exists b, c.
Qed.

Lemma re_domain_spec (s : string) :
  re_domain s = true <->
  exists b c, s = b +:+ "." +:+ c /\ b <> "" /\ c <> ""
              /\ no_space_at b = true /\ no_space_at c = true.
Proof.
  destruct s as [|x s]; simpl.
  - split; [discriminate|].
    intros (b & c & H & _). destruct b; sapp_in H; discriminate.
  - rewrite andb_true_iff, re_domain_rest_spec. split.
    + intros [Hx (b & c & -> & H1 & H2 & H3)].
      exists (String x b), c. sapp. simpl. rewrite Hx, H2.
      repeat split; auto; discriminate.
    + intros (b & c & H & H0 & H1 & H2 & H3).
      destruct b as [|y b]; [congruence|]. sapp_in H. injection H as -> ->.
      simpl in H2. apply andb_true_iff in H2 as [H2 H2'].
      split; [assumption|]. now exists b, c.
Qed.

Lemma at_is_not_in_class : not_space_at "@" = false.
Proof. reflexivity. Qed.

Lemma re_local_rest_spec (s : string) :
  re_local_rest s = true <->
  exists a b c, s = a +:+ "@" +:+ b +:+ "." +:+ c /\ b <> "" /\ c <> ""
                /\ no_space_at a = true /\ no_space_at b = true
                /\ no_space_at c = true.
Proof.
  induction s as [|x s IH]; simpl.
  - split; [discriminate|].
    intros (a & b & c & H & _). destruct a; sapp_in H; discriminate.
  - rewrite orb_true_iff, !andb_true_iff, Ascii.eqb_eq, re_domain_spec, IH.
    split.
    + intros [[-> (b & c & -> & H)] | [Hx (a & b & c & -> & H1 & H2 & H3 & H4)]].
      * exists "", b, c. sapp. tauto.
      * exists (String x a), b, c. sapp. simpl. rewrite Hx, H3. tauto.
    + intros (a & b & c & H & H1 & H2 & H3 & H4 & H5).
      destruct a as [|y a]; sapp_in H; injection H as -> ->.
      * left. split; [reflexivity|]. exists b, c. tauto.
      * simpl in H3. apply andb_true_iff in H3 as [H3 H3'].
        right. split; [assumption|]. exists a, b, c. tauto.
Qed.

(** The matcher accepts exactly the strings of the shape the pattern
    describes. *)
Lemma emailRegex_test_spec (s : string) :
  emailRegex_test s = true <-> email_shape s.
Proof.
  unfold email_shape. destruct s as [|x s]; simpl.
  - split; [discriminate|].
    intros (a & b & c & H & Ha & _). destruct a; [congruence|].
    sapp_in H. discriminate.
  - rewrite andb_true_iff, re_local_rest_spec. split.
    + intros [Hx (a & b & c & -> & H1 & H2 & H3 & H4 & H5)].
      exists (String x a), b, c. sapp. simpl. rewrite Hx, H3.
      repeat split; auto; discriminate.
    + intros (a & b & c & H & H0 & H1 & H2 & H3 & H4 & H5).
      destruct a as [|y a]; [congruence|]. sapp_in H. injection H as -> ->.
      simpl in H3. apply andb_true_iff in H3 as [H3 H3'].
      split; [assumption|]. exists a, b, c. tauto.
Qed.

Lemma trim_empty : Js.trim "" = "".
Proof. reflexivity. Qed.

(** [isValidEmail] accepts a recipient exactly when the recipient, with the
    white space around it removed, has the shape of the pattern. *)
Lemma isValidEmail_spec (recipient : string) :
  isValidEmail recipient = true <-> email_shape (Js.trim recipient).
Proof.
  unfold isValidEmail. destruct recipient as [|x s].
  - simpl. rewrite <- emailRegex_test_spec. simpl. tauto.
  - cbn [Js.truthy negb]. apply emailRegex_test_spec.
Qed.

End EmailPattern.

(** ** The message builder *)

Section Builder.
Import GmailApiService.

(** C8. Without attachments the envelope is the four headers [To],
    [Subject], [MIME-Version: 1.0] and
    [Content-Type: text/plain; charset=UTF-8], an empty line, and the body,
    every line ended by CR LF. *)
Theorem C8_plain_envelope (boundary : string) (emailData : EmailData) :
  _buildEmailMessage boundary emailData []
  = "To: " +:+ to emailData +:+ Js.CRLF
    +:+ "Subject: " +:+ subject emailData +:+ Js.CRLF
    +:+ "MIME-Version: 1.0" +:+ Js.CRLF
    +:+ "Content-Type: text/plain; charset=UTF-8" +:+ Js.CRLF
    +:+ Js.CRLF
    +:+ body emailData.
Proof.
  unfold _buildEmailMessage. cbn [length Nat.ltb Nat.leb app Js.join].
  now rewrite !append_assoc.
Qed.

Lemma split_crlf_step (c1 c2 : ascii) (s : string) :
  Mime.split_crlf (String c1 (String c2 s))
  = if Ascii.eqb c1 Js.CR && Ascii.eqb c2 Js.LF
    then "" :: Mime.split_crlf s
    else Mime.cons_head c1 (Mime.split_crlf (String c2 s)).
Proof. reflexivity. Qed.

Lemma cons_head_nonempty (c : ascii) (l : list string) :
  Mime.cons_head c l <> [].
Proof. destruct l; discriminate. Qed.

Lemma split_crlf_nonempty (s : string) : Mime.split_crlf s <> [].
Proof.
  destruct s as [|c1 [|c2 s]]; try discriminate.
  rewrite split_crlf_step.
  destruct (_ && _); [discriminate|apply cons_head_nonempty].
Qed.

Lemma cons_head_app (c : ascii) (l1 l2 : list string) :
  l1 <> [] -> Mime.cons_head c (l1 ++ l2) = Mime.cons_head c l1 ++ l2.
Proof. destruct l1; [congruence|reflexivity]. Qed.

(** Splitting at an inserted separator: no CR LF pair can straddle it. *)
Lemma split_crlf_app (s t : string) :
  Mime.split_crlf (s +:+ Js.CRLF +:+ t)
  = Mime.split_crlf s ++ Mime.split_crlf t.
Proof.
  remember (String.length s) as n eqn:Hn.
  revert s Hn. induction n as [n IH] using lt_wf_ind. intros s Hn.
  destruct s as [|c1 [|c2 s]].
  - reflexivity.
  - unfold Js.CRLF. sapp. rewrite split_crlf_step.
    replace (Ascii.eqb Js.CR Js.LF) with false by reflexivity.
    rewrite andb_false_r. rewrite split_crlf_step.
    reflexivity.
  - rewrite !append_cons, !split_crlf_step.
    destruct (Ascii.eqb c1 Js.CR && Ascii.eqb c2 Js.LF).
    + rewrite (IH (String.length s)) by (subst n; simpl; lia || reflexivity).
      reflexivity.
    + rewrite <- append_cons.
      rewrite (IH (String.length (String c2 s)))
        by (subst n; simpl; lia || reflexivity).
      apply cons_head_app, split_crlf_nonempty.
Qed.

Lemma split_crlf_single (s : string) :
  Mime.no_CR s = true -> Mime.split_crlf s = [s].
Proof.
  induction s as [|c1 s IH]; [reflexivity|].
  cbn [Mime.no_CR]. intros H. apply andb_true_iff in H as [H1 H2].
  destruct s as [|c2 s]; [reflexivity|].
  rewrite split_crlf_step.
  apply negb_true_iff in H1. rewrite H1. cbn [andb].
  now rewrite (IH H2).
Qed.

Lemma join_app (sep : string) (l1 l2 : list string) :
  l1 <> [] -> l2 <> [] ->
  Js.join sep (l1 ++ l2) = Js.join sep l1 +:+ sep +:+ Js.join sep l2.
Proof.
  intros H1 H2. induction l1 as [|x l1 IH]; [congruence|].
  destruct l1 as [|y l1].
  - destruct l2; [congruence|reflexivity].
  - change (Js.join sep ((x :: y :: l1) ++ l2))
      with (x +:+ sep +:+ Js.join sep ((y :: l1) ++ l2)).
    rewrite IH by discriminate.
    change (Js.join sep (x :: y :: l1))
      with (x +:+ sep +:+ Js.join sep (y :: l1)).
    now rewrite !append_assoc.
Qed.

Lemma after_last_app (P : string -> bool) (l1 l2 r : list string) :
  Mime.after_last P l2 = Some r -> Mime.after_last P (l1 ++ l2) = Some r.
Proof.
  intros H. induction l1 as [|x l1 IH]; [assumption|].
  simpl. now rewrite IH.
Qed.

Lemma base64_no_CR (s : string) : Mime.is_base64 s = true -> Mime.no_CR s = true.
Proof.
  induction s as [|c s IH]; [reflexivity|].
  cbn [Mime.is_base64 Mime.no_CR]. intros H.
  apply andb_true_iff in H as [H1 H2]. rewrite (IH H2), andb_true_r.
  destruct (Ascii.eqb_spec c Js.CR) as [->|]; [discriminate|reflexivity].
Qed.

Lemma base64_not_header (s : string) :
  Mime.is_base64 s = true ->
  String.eqb "Content-Transfer-Encoding: base64" s = false.
Proof.
  intros H. destruct (String.eqb_spec "Content-Transfer-Encoding: base64" s)
    as [<-|]; [discriminate|reflexivity].
Qed.

Lemma base64_not_marker (s rest : string) :
  Mime.is_base64 s = true -> String.prefix (String "-" rest) s = false.
Proof.
  destruct s as [|c s]; [reflexivity|].
  cbn [Mime.is_base64 String.prefix]. intros H.
  apply andb_true_iff in H as [H1 _].
  destruct (ascii_dec "-" c) as [<-|]; [discriminate|reflexivity].
Qed.

(** The lines of an envelope whose last attachment is [a]: whatever comes
    first, then the end of [a]'s header block, its data, and the closing
    marker. *)
Lemma build_last_attachment (boundary : string) (emailData : EmailData)
    (before : list Attachment) (a : Attachment) :
  exists first,
    first <> []
    /\ _buildEmailMessage boundary emailData (before ++ [a])
       = Js.join Js.CRLF
           (first ++ [ "Content-Transfer-Encoding: base64"; "";
                       data a; ""; "--" +:+ boundary +:+ "--" ]).
Proof.
  unfold _buildEmailMessage.
  replace (0 <? length (before ++ [a]))%nat with true
    by (rewrite length_app; simpl; symmetry; apply Nat.ltb_lt; lia).
  rewrite fold_left_app. cbn [fold_left].
  match goal with
  | |- context [fold_left ?f before ?init] => set (lines := fold_left f before init)
  end.
  eexists (lines ++ [_; _; _]). split.
  - destruct lines; discriminate.
  - rewrite <- !app_assoc. reflexivity.
Qed.

(** C9. Round trip: an attachment whose data is base64 text, built into an
    envelope as its last attachment (with a boundary that is a single line,
    as the generated ones are), is read back from the envelope unchanged. *)
Theorem C9_attachment_round_trip (boundary : string) (emailData : EmailData)
    (before : list Attachment) (a : Attachment) :
  Mime.is_base64 (data a) = true ->
  Mime.no_CR boundary = true ->
  Mime.extractAttachmentData boundary
    (_buildEmailMessage boundary emailData (before ++ [a]))
  = Some (data a).
Proof.
  intros Hdata Hboundary.
  destruct (build_last_attachment boundary emailData before a)
    as (first & Hfirst & ->).
  assert (Hclosing : Mime.no_CR ("--" +:+ boundary +:+ "--") = true).
  { sapp. cbn [Mime.no_CR]. cbn.
    clear -Hboundary. induction boundary as [|c b IH]; [reflexivity|].
    sapp. cbn [Mime.no_CR] in *.
    apply andb_true_iff in Hboundary as [-> H]. now rewrite IH. }
  unfold Mime.extractAttachmentData.
  rewrite join_app by (assumption || discriminate).
  rewrite split_crlf_app.
  cbn [Js.join]. rewrite !split_crlf_app.
  rewrite (split_crlf_single (data a)) by now apply base64_no_CR.
  rewrite (split_crlf_single _ Hclosing).
  change (Mime.split_crlf "Content-Transfer-Encoding: base64")
    with ["Content-Transfer-Encoding: base64"].
  change (Mime.split_crlf "") with [""].
  rewrite (after_last_app _ _ _
             [""; data a; ""; "--" +:+ boundary +:+ "--"]).
  - assert (Hd : String.prefix ("--" +:+ boundary) (data a) = false)
      by apply (base64_not_marker _ _ Hdata).
    assert (He : String.prefix ("--" +:+ boundary) "" = false) by reflexivity.
    assert (Hp : String.prefix ("--" +:+ boundary)
                   ("--" +:+ boundary +:+ "--") = true).
    { apply prefix_spec. exists "--". now rewrite append_assoc. }
    cbn [Mime.after_first_blank String.eqb Mime.until_boundary].
    rewrite Hd, He, Hp. cbn [String.concat].
    now rewrite append_nil_l, append_nil_r.
  - cbn [Mime.after_last app]. sapp.
    rewrite (base64_not_header _ Hdata). reflexivity.
Qed.

Lemma C9_attachment_round_trip_witness :
  Mime.extractAttachmentData "boundary_4fzyo82mv"
    (_buildEmailMessage "boundary_4fzyo82mv" Examples.hello
       ([] ++ [Examples.cv]))
  = Some "JVBERi0xLjQK".
Proof.
  apply (C9_attachment_round_trip "boundary_4fzyo82mv" Examples.hello []
           Examples.cv); reflexivity.
Defined.

End Builder.

(** ** The credential manager *)

Section Credentials.
Import ErrorHandler AuthService.

Ltac unfold_auth :=
  unfold getValidToken, authenticate, _validateToken, _getAuthToken,
    _notifyAuthStateChange, AuthService.getUserMessage,
    StorageService.getAuthToken, StorageService.saveAuthToken,
    StorageService.chrome_storage_op,
    try_catch, bind, ret, throw, get, modify in *.

(** The only [getAuthToken] call [getValidToken] can make is interactive. *)
Lemma getValidToken_interactive_only (env : Env) (w : World) :
  identityCalls (snd (getValidToken env w)) = identityCalls w
  \/ identityCalls (snd (getValidToken env w)) = identityCalls w ++ [true].
Proof.
  unfold_auth. destruct w; step_m.
  repeat (split_match; step_m; auto).
Qed.

(** A live in-memory credential is returned after one introspection call. *)
Lemma getValidToken_memory (env : Env) (w : World) :
  memory_live env w = true ->
  getValidToken env w
  = (Return (default "" (currentToken w)),
     log_tokeninfoCall (default "" (currentToken w)) w).
Proof.
  unfold memory_live. intros H.
  unfold_auth. destruct w. step_all. split_hyps. paths.
Qed.

(** Otherwise a live persisted credential is adopted and returned. *)
Lemma getValidToken_stored (env : Env) (w : World) :
  memory_live env w = false ->
  storage_fails env (storageOps w) = false ->
  stored_live env w = true ->
  getValidToken env w
  = (Return (default "" (stored_token w)),
     set_currentToken (Some (default "" (stored_token w)))
       (log_tokeninfoCall (default "" (stored_token w))
          (after_memory_check w))).
Proof.
  unfold memory_live, stored_live, after_memory_check.
  intros H1 H2 H3.
  unfold_auth. destruct w. step_all. split_hyps; paths.
Qed.

(** Otherwise the credential is acquired afresh, interactively. *)
Lemma getValidToken_fresh (env : Env) (w : World) :
  memory_live env w = false ->
  storage_fails env (storageOps w) = false ->
  stored_live env w = false ->
  Js.truthy (clientId env) = true ->
  identityCalls (snd (getValidToken env w)) = identityCalls w ++ [true]
  /\ forall token,
       getAuthToken_reply env (length (identityCalls w)) true = inl token ->
       Js.truthy token = true ->
       storage_fails env (S (storageOps w)) = false ->
       fst (getValidToken env w) = Return token
       /\ currentToken (snd (getValidToken env w)) = Some token
       /\ stored_token (snd (getValidToken env w)) = Some token.
Proof.
  unfold memory_live, stored_live, after_memory_check.
  intros H1 H2 H3 H4. split; [|intros token Hreply Htoken Hsave].
  all: unfold_auth; rewrite H4; destruct w; step_all; split_hyps; paths;
    try (repeat split; congruence).
Qed.

(** C5, as the claim states it, fails: with no credential in memory or in
    storage, and an identity provider that would grant a token without
    interaction, [getValidToken] makes one call to the provider, and it is
    interactive. *)
Lemma C5_counterexample :
  memory_live Examples.online Examples.fresh = false
  /\ stored_live Examples.online Examples.fresh = false
  /\ getAuthToken_reply Examples.online 0 false = inl "tok"
  /\ identityCalls (snd (getValidToken Examples.online Examples.fresh))
     = [true].
Proof. repeat split. Qed.

(** C5, amended. [getValidToken] returns the in-memory credential if it
    verifies live; otherwise it reads the persisted credential and, if that
    verifies live, adopts and returns it; otherwise it performs one fresh
    interactive acquisition.  It never performs a non-interactive one. *)
Theorem C5_getValidToken_path (env : Env) (w : World) :
  (memory_live env w = true ->
   getValidToken env w
   = (Return (default "" (currentToken w)),
      log_tokeninfoCall (default "" (currentToken w)) w))
  /\ (memory_live env w = false ->
      storage_fails env (storageOps w) = false ->
      stored_live env w = true ->
      getValidToken env w
      = (Return (default "" (stored_token w)),
         set_currentToken (Some (default "" (stored_token w)))
           (log_tokeninfoCall (default "" (stored_token w))
              (after_memory_check w))))
  /\ (memory_live env w = false ->
      storage_fails env (storageOps w) = false ->
      stored_live env w = false ->
      Js.truthy (clientId env) = true ->
      identityCalls (snd (getValidToken env w)) = identityCalls w ++ [true]
      /\ forall token,
           getAuthToken_reply env (length (identityCalls w)) true
           = inl token ->
           Js.truthy token = true ->
           storage_fails env (S (storageOps w)) = false ->
           fst (getValidToken env w) = Return token
           /\ currentToken (snd (getValidToken env w)) = Some token
           /\ stored_token (snd (getValidToken env w)) = Some token)
  /\ (identityCalls (snd (getValidToken env w)) = identityCalls w
      \/ identityCalls (snd (getValidToken env w))
         = identityCalls w ++ [true]).
Proof.
  split; [apply getValidToken_memory|].
  split; [apply getValidToken_stored|].
  split; [apply getValidToken_fresh|].
  apply getValidToken_interactive_only.
Qed.

Lemma C5_getValidToken_path_witness :
  getValidToken Examples.online Examples.ready
  = (Return "tok", log_tokeninfoCall "tok" Examples.ready)
  /\ identityCalls (snd (getValidToken Examples.online Examples.fresh))
     = [] ++ [true]
  /\ fst (getValidToken Examples.online Examples.fresh) = Return "tok".
Proof.
  split; [|split].
  - apply (C5_getValidToken_path Examples.online Examples.ready).
    reflexivity.
  - apply (C5_getValidToken_path Examples.online Examples.fresh);
      reflexivity.
  - apply (C5_getValidToken_path Examples.online Examples.fresh);
      reflexivity.
Defined.

End Credentials.

(** ** The send transport *)

Section Transport.
Import ErrorHandler ErrorHandler.ERROR_TYPES GmailApiService.

Lemma classifyError_cases (error : RawError) :
  In (classifyError error)
    [ "unknown"; TOKEN_EXPIRED; INVALID_CREDENTIALS; PERMISSION_DENIED;
      VERIFICATION_REQUIRED; RATE_LIMIT; SERVER_ERROR; NETWORK_ERROR;
      INVALID_EMAIL; FILE_TOO_LARGE; MISSING_REQUIRED_FIELD; QUOTA_EXCEEDED ].
Proof.
  unfold classifyError.
  repeat match goal with
         | |- context [if ?b then _ else _] => destruct b
         end; simpl; tauto.
Qed.

(** The response built from a caught error object is a failure response
    with every field of the classified error filled in. *)
Lemma createErrorResponse_object (e : JsError) (ctx : Context) :
  exists r,
    ErrorHandler.createErrorResponse (RObject e) ctx = Some r
    /\ success r = false
    /\ errorType r = classifyError (RObject e)
    /\ errorType r <> ""
    /\ message r <> ""
    /\ actionableMessage r <> ""
    /\ isRetryable r = isRetryableError (errorType r)
    /\ context r = ctx.
Proof.
  unfold ErrorHandler.createErrorResponse, ErrorHandler.getUserMessage,
    getActionableMessage.
  pose proof (classifyError_cases (RObject e)) as H.
  set (k := classifyError (RObject e)) in *.
  simpl in H.
  repeat (destruct H as [<-|H]); try contradiction.
  all: try (vm_compute; eexists; repeat split; easy).
  all: destruct (Js.includes (errorMessage (RObject e)) "network"),
         (Js.includes (errorMessage (RObject e)) "file");
    vm_compute; eexists; repeat split; easy.
Qed.

Lemma createErrorResponse_returns (e : JsError) (ctx : Context)
    (w : World) :
  exists r,
    GmailApiService.createErrorResponse e ctx w = (Return r, w)
    /\ success r = false
    /\ errorType r <> "" /\ message r <> "" /\ actionableMessage r <> ""
    /\ isRetryable r = isRetryableError (errorType r)
    /\ context r = ctx.
Proof.
  destruct (createErrorResponse_object e ctx)
    as (r & H & H1 & _ & H2 & H3 & H4 & H5 & H6).
  exists r. unfold GmailApiService.createErrorResponse. rewrite H.
  repeat split; assumption.
Qed.

Lemma makeApiRequest_world (env : Env) (token emailMessage : string)
    (w : World) :
  snd (_makeApiRequest env token emailMessage w)
  = log_sendCall token (encodeMessage emailMessage) w.
Proof.
  unfold _makeApiRequest. now destruct (send_reply env _ _ _).
Qed.

(** The defect behind C1 and C7.  When every POST fails with a network
    error, [sendEmail] catches the error and calls [_retryWithBackoff] with
    attempt 1, which calls [sendEmail], which catches the next error and
    calls [_retryWithBackoff] with attempt 1 again: the attempt counter never
    grows, and no call returns.  With [fuel] nested calls allowed, [fuel]
    POSTs have been made and none of the calls has returned. *)
Lemma sendEmail_retries_forever (env : Env) (emailData : EmailData)
    (attachments : list Attachment) (t : string) :
  endpoint_always_fails_with env NETWORK_ERROR ->
  Js.truthy t = true ->
  (forall n, tokeninfo_ok env n t = true) ->
  forall fuel w,
    currentToken w = Some t ->
    exists w',
      sendEmail env fuel emailData attachments w = (OutOfFuel, w')
      /\ length (sendCalls w') = length (sendCalls w) + fuel
      /\ currentToken w' = Some t.
Proof.
  intros Hnet Ht Hlive. induction fuel as [|fuel IH]; intros w Hcur.
  - exists w. cbn. split; [reflexivity|]. split; [lia|assumption].
  - cbn [sendEmail]. unfold try_catch at 1. unfold bind at 1.
    rewrite getValidToken_memory
      by (unfold memory_live; rewrite Hcur; cbn; now rewrite Ht, Hlive).
    rewrite Hcur. cbn [from_option id].
    unfold bind at 1. unfold _generateBoundary.
    unfold bind at 1.
    match goal with
    | |- context [_makeApiRequest env t ?m ?w2] =>
        destruct (Hnet t m w2) as (e & He & Hkind);
        pose proof (makeApiRequest_world env t m w2) as Hw;
        destruct (_makeApiRequest env t m w2) as [r w3]
    end.
    cbn [fst snd] in He, Hw. subst r.
    unfold _handleApiError. rewrite Hkind.
    change (String.eqb NETWORK_ERROR TOKEN_EXPIRED) with false.
    change (String.eqb NETWORK_ERROR RATE_LIMIT) with false.
    change (String.eqb NETWORK_ERROR NETWORK_ERROR) with true.
    cbv iota.
    assert (Hlen : length (sendCalls w3) = length (sendCalls w) + 1)
      by (subst w3; cbn; rewrite length_app; reflexivity).
    assert (Hcur3 : currentToken w3 = Some t) by (subst w3; exact Hcur).
    destruct fuel as [|fuel].
    + exists w3. cbn. split; [reflexivity|]. split; [lia|assumption].
    + cbn [_retryWithBackoff].
      change (maxRetries <? 1)%nat with false. cbv iota.
      unfold try_catch at 1. unfold bind at 1. unfold sleep, modify.
      destruct (IH (log_sleep (2 ^ Z.of_nat 1 * 1000) w3) Hcur3)
        as (w' & Hsend & Hlen' & Hcur').
      rewrite Hsend. exists w'. split; [reflexivity|].
      split; [|assumption]. cbn in Hlen'. lia.
Qed.

(** C1. The claim is right and the code does not do it: when the endpoint
    fails with [api.network_error] on every attempt (and the in-memory
    token is live, so that every attempt reaches the endpoint), [sendEmail]
    does not stop after [1 + maxRetries] attempts.  Whatever number [fuel]
    of nested calls is allowed, it has made [fuel] POSTs and has returned
    nothing, in particular no terminal error. *)
Theorem C1_retries_are_not_bounded (env : Env) (emailData : EmailData)
    (attachments : list Attachment) (t : string) (w : World) :
  endpoint_always_fails_with env NETWORK_ERROR ->
  currentToken w = Some t ->
  Js.truthy t = true ->
  (forall n, tokeninfo_ok env n t = true) ->
  forall fuel,
  exists w',
    sendEmail env fuel emailData attachments w = (OutOfFuel, w')
    /\ length (sendCalls w') = length (sendCalls w) + fuel.
Proof.
  intros Hnet Hcur Ht Hlive fuel.
  destruct (sendEmail_retries_forever env emailData attachments t
              Hnet Ht Hlive fuel w Hcur) as (w' & H1 & H2 & _).
  eauto.
Qed.

Lemma offline_always_fails :
  endpoint_always_fails_with Examples.offline NETWORK_ERROR.
Proof.
  intros token emailMessage w. exists (Error "Failed to fetch").
  split; reflexivity.
Qed.

Lemma C1_retries_are_not_bounded_witness :
  exists w',
    sendEmail Examples.offline 10 Examples.hello [] Examples.ready
    = (OutOfFuel, w')
    /\ length (sendCalls w') = length (sendCalls Examples.ready) + 10.
Proof.
  apply (C1_retries_are_not_bounded Examples.offline Examples.hello []
           "tok" Examples.ready).
  - exact offline_always_fails.
  - reflexivity.
  - reflexivity.
  - reflexivity.
Defined.

(** The bound is exceeded by calls that do return as well: after five
    network failures the sixth POST succeeds, and [sendEmail] reports
    success, having made six POSTs where [1 + maxRetries] is four. *)
Example sendEmail_sixth_attempt :
  exists w',
    sendEmail Examples.flaky 10 Examples.hello [] Examples.ready
    = (Return (SendOk "m1" "t1"), w')
    /\ length (sendCalls w') = 6
    /\ 1 + maxRetries = 4.
Proof. eexists. split; [vm_compute; reflexivity|]. split; reflexivity. Qed.

(** The cause, whatever the endpoint does: [sendEmail] turns every error
    into a returned response, so the [catch] of [_retryWithBackoff], the only
    place where the attempt counter grows, is never entered. *)
Lemma retryWithBackoff_never_throws
    (send : EmailData -> list Attachment -> M SendResult) :
  (forall emailData attachments w e,
     fst (send emailData attachments w) <> Throw e) ->
  forall fuel emailData attachments attempt w e,
    fst (_retryWithBackoff send fuel emailData attachments attempt w)
    <> Throw e.
Proof.
  intros Hsend.
  assert (Hexceeded : forall attempt w e,
             fst (bind (GmailApiService.createErrorResponse
                          (Error "Maximum retry attempts exceeded")
                          (mkContext None (Some attempt) None))
                    (fun r => ret (SendFailed r)) w) <> Throw e).
  { intros attempt w e. unfold bind.
    destruct (createErrorResponse_returns
                (Error "Maximum retry attempts exceeded")
                (mkContext None (Some attempt) None) w) as (r & -> & _).
    discriminate. }
  induction fuel as [|fuel IH]; intros emailData attachments attempt w e;
    cbn [_retryWithBackoff]; destruct (maxRetries <? attempt)%nat;
    try apply Hexceeded.
  - discriminate.
  - unfold try_catch, bind, sleep, modify.
    destruct (send emailData attachments _) as [[r|e'|] w'] eqn:Hs.
    + discriminate.
    + apply IH.
    + discriminate.
Qed.

Lemma sendEmail_never_throws (env : Env) :
  forall fuel emailData attachments w e,
    fst (sendEmail env fuel emailData attachments w) <> Throw e.
Proof.
  induction fuel as [|fuel IH]; intros emailData attachments w e.
  - discriminate.
  - cbn [sendEmail]. unfold try_catch at 1.
    match goal with
    | |- context [match ?body w with _ => _ end] =>
        destruct (body w) as [[r|e'|] w']
    end; try discriminate.
    unfold _handleApiError.
    destruct (String.eqb _ TOKEN_EXPIRED).
    { unfold try_catch.
      match goal with
      | |- context [match ?body w' with _ => _ end] =>
          destruct (body w') as [[r|e''|] w'']
      end; try discriminate.
      unfold bind.
      destruct (createErrorResponse_returns e'' noContext w'')
        as (r & -> & _).
      discriminate. }
    destruct (String.eqb _ RATE_LIMIT).
    { unfold _handleRateLimit, bind, sleep, modify.
      now apply retryWithBackoff_never_throws. }
    destruct (String.eqb _ NETWORK_ERROR).
    { now apply retryWithBackoff_never_throws. }
    unfold bind.
    destruct (createErrorResponse_returns e' noContext w') as (r & -> & _).
    discriminate.
Qed.

End Transport.

(** ** The send orchestrator *)

Section Orchestrator.
Import ErrorHandler ErrorHandler.ERROR_TYPES EmailService.

Ltac unfold_service :=
  unfold sendEmailWithAttachment, initialize, AuthService.initialize,
    AuthService._validateToken, AuthService._notifyAuthStateChange,
    StorageService.getAuthToken, StorageService.clearAuthToken,
    StorageService.getEmailConfig, StorageService.chrome_storage_op,
    GmailApiService.createErrorResponse,
    try_catch, bind, ret, throw, get, modify in *.

(** Lazy initialisation always completes; it may introspect a stored token,
    and it neither posts to the mail endpoint nor calls the identity
    provider. *)
Lemma initialize_total (env : Env) (w : World) :
  exists b w',
    initialize env w = (Return b, w')
    /\ sendCalls w' = sendCalls w
    /\ identityCalls w' = identityCalls w.
Proof.
  unfold_service. destruct w. step_all. paths; eauto.
Qed.

(** C2, as the claim states it, fails: this recipient does not match the
    pattern (it starts with a space), [isValidEmail] trims it before the
    test, and the message is posted. *)
Lemma C2_counterexample :
  ~ email_shape " user@example.com"
  /\ exists s w',
       sendEmailWithAttachment Examples.online 1 " user@example.com"
         Examples.configured
       = (Return (ResultSent s), w')
       /\ sent_success s = true
       /\ length (sendCalls w') = 1.
Proof.
  split.
  - intros H. apply emailRegex_test_spec in H. discriminate H.
  - eexists. eexists. split; [vm_compute; reflexivity|]. split; reflexivity.
Qed.

(** C2, amended. For every recipient that, once the white space around it
    is removed, does not have the shape of the pattern,
    [sendEmailWithAttachment] returns a failure result for that recipient
    and makes no call to the mail endpoint and none to the identity
    provider; lazy initialisation, which runs first, may introspect a stored
    token. *)
Theorem C2_invalid_recipient_fails_fast (env : Env) (fuel : nat)
    (recipient : string) (w : World) :
  ~ email_shape (Js.trim recipient) ->
  exists r w',
    sendEmailWithAttachment env fuel recipient w = (Return (ResultError r), w')
    /\ success r = false
    /\ ctx_recipient (context r) = Some recipient
    /\ sendCalls w' = sendCalls w
    /\ identityCalls w' = identityCalls w.
Proof.
  intros Hshape.
  assert (Hinvalid : Validator.isValidEmail recipient = false).
  { destruct (Validator.isValidEmail recipient) eqn:E; [|reflexivity].
    now apply isValidEmail_spec in E. }
  unfold sendEmailWithAttachment. unfold try_catch at 1. unfold bind at 1.
  unfold get at 1. unfold bind at 1.
  assert (Hinit : exists b w',
             (if negb (initialized w) then initialize env else ret true) w
             = (Return b, w')
             /\ sendCalls w' = sendCalls w
             /\ identityCalls w' = identityCalls w).
  { destruct (initialized w); cbn [negb];
      [now exists true, w|apply initialize_total]. }
  destruct Hinit as (b & w1 & -> & Hs & Hi).
  rewrite Hinvalid. cbn [negb]. unfold throw at 1.
  destruct (createErrorResponse_returns
              (Error "Invalid recipient email address")
              (mkContext (Some recipient) None None) w1)
    as (r & Hr & H1 & _ & _ & _ & _ & H6).
  unfold bind. rewrite Hr. exists r, w1. unfold ret.
  rewrite H6. auto.
Qed.

Lemma C2_invalid_recipient_fails_fast_witness :
  exists r w',
    sendEmailWithAttachment Examples.online 1 "bad-address" Examples.configured
    = (Return (ResultError r), w')
    /\ success r = false
    /\ ctx_recipient (context r) = Some "bad-address"
    /\ sendCalls w' = sendCalls Examples.configured
    /\ identityCalls w' = identityCalls Examples.configured.
Proof.
  apply (C2_invalid_recipient_fails_fast Examples.online 1 "bad-address"
           Examples.configured).
  intros H. apply emailRegex_test_spec in H. discriminate H.
Defined.

(** The kind of the failure result is not the one the classifier has for
    this case: the message thrown for an invalid recipient starts with a
    capital letter, and the test for [validation.invalid_email] looks for
    "invalid". *)
Example invalid_recipient_is_unknown :
  exists r w',
    sendEmailWithAttachment Examples.online 1 "bad-address" Examples.configured
    = (Return (ResultError r), w')
    /\ errorType r = "unknown"
    /\ Js.includes "Invalid recipient email address" "invalid" = false.
Proof.
  eexists. eexists. split; [vm_compute; reflexivity|]. split; reflexivity.
Qed.

Lemma bind_return_inv {A B} (m : M A) (k : A -> M B) (w w' : World) (b : B) :
  bind m k w = (Return b, w') ->
  exists a w1, m w = (Return a, w1) /\ k a w1 = (Return b, w').
Proof.
  unfold bind. destruct (m w) as [[a|e|] w1]; [eauto|discriminate..].
Qed.

(** X29. What holds of C7: no error leaves [sendEmailWithAttachment].  A call
    that returns, returns the success object or a failure response with
    every field of the classified error filled in. *)
Lemma sendEmailWithAttachment_never_throws (env : Env) (fuel : nat)
    (recipient : string) (w : World) :
  match fst (sendEmailWithAttachment env fuel recipient w) with
  | Throw _ => False
  | Return (ResultError r) =>
      success r = false
      /\ errorType r <> "" /\ message r <> "" /\ actionableMessage r <> ""
      /\ isRetryable r = isRetryableError (errorType r)
  | Return (ResultSent s) =>
      sent_success s = true /\ sent_recipient s = recipient
  | OutOfFuel => True
  end.
Proof.
  unfold sendEmailWithAttachment, try_catch.
  match goal with
  | |- context [match ?body w with _ => _ end] =>
      destruct (body w) as [[r|e|] w'] eqn:Hbody
  end; cbn [fst].
  - apply bind_return_inv in Hbody as (isInit & w1 & _ & Hbody).
    apply bind_return_inv in Hbody as (b & w2 & _ & Hbody).
    destruct (negb (Validator.isValidEmail recipient)); [discriminate|].
    apply bind_return_inv in Hbody as (config & w3 & _ & Hbody).
    destruct config as [config|]; [|discriminate].
    destruct (0 <? _)%nat; [discriminate|].
    apply bind_return_inv in Hbody as (result & w4 & _ & Hbody).
    destruct result as [messageId threadId|response]; [|discriminate].
    injection Hbody as <- _. split; reflexivity.
  - destruct (createErrorResponse_returns e
                (mkContext (Some recipient) None None) w')
      as (r & Hr & H1 & H2 & H3 & H4 & H5 & _).
    unfold bind. rewrite Hr. cbn. auto.
  - exact I.
Qed.

(** C7. The claim is right and the code does not do it in one case: the
    defect of C1.  A well-formed request, made while every POST fails with a
    network error, never gets its result object: whatever number of nested
    calls is allowed, [sendEmailWithAttachment] has not returned. *)
Theorem C7_no_result_while_offline (env : Env) (recipient : string)
    (config : Validator.EmailConfig) (t : string) (w : World) :
  endpoint_always_fails_with env NETWORK_ERROR ->
  initialized w = true ->
  Validator.isValidEmail recipient = true ->
  storage_fails env (storageOps w) = false ->
  stored_config w = Some config ->
  Validator.validateEmailConfig (Some config) = [] ->
  currentToken w = Some t ->
  Js.truthy t = true ->
  (forall n, tokeninfo_ok env n t = true) ->
  forall fuel,
    fst (sendEmailWithAttachment env fuel recipient w) = OutOfFuel.
Proof.
  intros Hnet Hinit Hvalid Hstorage Hconfig Hcheck Hcur Ht Hlive fuel.
  unfold sendEmailWithAttachment, StorageService.getEmailConfig,
    StorageService.chrome_storage_op, try_catch, bind, get, ret.
  rewrite Hinit. cbn [negb]. rewrite Hvalid. cbn [negb].
  rewrite Hstorage.
  replace (stored_config (log_storageOp w)) with (Some config)
    by (symmetry; exact Hconfig).
  rewrite Hcheck. cbn [length Nat.ltb Nat.leb].
  destruct (sendEmail_retries_forever env
              (_prepareEmailData recipient config)
              (_prepareAttachments config) t Hnet Ht Hlive fuel
              (log_storageOp w) Hcur) as (w' & -> & _).
  reflexivity.
Qed.

Lemma C7_no_result_while_offline_witness :
  fst (sendEmailWithAttachment Examples.offline 10 "user@example.com"
         Examples.ready) = OutOfFuel.
Proof.
  apply (C7_no_result_while_offline Examples.offline "user@example.com"
           Examples.template "tok" Examples.ready);
    try reflexivity.
  exact offline_always_fails.
Defined.

End Orchestrator.

(** ** Concurrent calls of [getValidToken] *)

Section Concurrency.
Import ErrorHandler AuthService Concurrent.

(** The scrutinee that blocks the computation of [t]. *)
Ltac scrut t :=
  lazymatch t with
  | match ?x with _ => _ end =>
      lazymatch x with
      | match _ with _ => _ end => scrut x
      | (match _ with _ => _ end) _ => scrut x
      | _ => constr:(x)
      end
  | (match ?x with _ => _ end) _ =>
      lazymatch x with
      | match _ with _ => _ end => scrut x
      | (match _ with _ => _ end) _ => scrut x
      | _ => constr:(x)
      end
  end.

Ltac drive_side t :=
  let x := scrut t in
  first [ match goal with H : x = _ |- _ => rewrite H end
        | destruct x eqn:? ].

Ltac step_c :=
  cbn -[classifyError ErrorHandler.getUserMessage String.eqb String.append
        authenticate start_authenticate solo].

Lemma solo_unfold (env : Env) (n : nat) (t : Task) (w : World) :
  solo env (S n) t w
  = match step_task env t w with
    | Some (t', w') => solo env n t' w'
    | None => (t, w)
    end.
Proof. reflexivity. Qed.

Lemma solo_resolved (env : Env) (n : nat) (token : option string)
    (w : World) :
  solo env n (Resolved token) w = (Resolved token, w).
Proof. now destruct n. Qed.

Lemma solo_rejected (env : Env) (n : nat) (e : JsError) (w : World) :
  solo env n (Rejected e) w = (Rejected e, w).
Proof. now destruct n. Qed.

(** The last stage: [authenticate(true)] inside the [try] of
    [getValidToken]. *)
Lemma authenticate_stage (env : Env) (n : nat) (w : World) :
  (let (t, w0) := start_authenticate env w in solo env (S (S n)) t w0)
  = let (r, w') :=
      try_catch (authenticate env true)
        (fun error =>
           bind (AuthService.getUserMessage error)
             (fun m => throw (Error ("Failed to get valid token: " +:+ m))))
        w in
    (settled r, w').
Proof.
  unfold authenticate, _getAuthToken, _notifyAuthStateChange,
    AuthService.getUserMessage, StorageService.saveAuthToken,
    StorageService.chrome_storage_op, try_catch, bind, ret, throw, get,
    modify, start_authenticate, reject_authenticate, reject_getValidToken.
  destruct w.
  repeat (step_c; rewrite ?solo_resolved, ?solo_rejected, ?solo_unfold;
          unfold step_task, reject_authenticate, reject_getValidToken;
          step_c; try congruence;
          match goal with
          | |- ?l = ?r => first [drive_side l | drive_side r]
          end).
Qed.

(** The task machine, run for one call alone, is the sequential
    [getValidToken]: same result, same world. *)
Lemma solo_is_getValidToken (env : Env) (w : World) :
  solo env 6 Called w
  = let (r, w') := getValidToken env w in (settled r, w').
Proof.
  unfold getValidToken, _validateToken,
    StorageService.getAuthToken, StorageService.chrome_storage_op,
    try_catch, bind, ret, throw, get, modify.
  destruct w as [cur ? stored ? ? ? ? ? ? ? ? ?].
  destruct cur as [cur|], stored as [stored|].
  all: repeat (step_c; rewrite ?solo_resolved, ?solo_rejected, ?solo_unfold;
          unfold step_task, reject_getValidToken, start_getAuthToken,
            start_validateStored, AuthService.getUserMessage;
          step_c; try congruence;
          first
            [ rewrite authenticate_stage; unfold try_catch, bind, throw,
                AuthService.getUserMessage
            | match goal with
              | |- ?l = ?r => first [drive_side l | drive_side r]
              end ]).
Qed.

Lemma reject_getValidToken_rejected (e : JsError) :
  exists e', reject_getValidToken e = Rejected e'.
Proof.
  unfold reject_getValidToken.
  destruct (ErrorHandler.getUserMessage _); eauto.
Qed.

Lemma reject_authenticate_rejected (e : JsError) :
  exists e', reject_authenticate e = Rejected e'.
Proof.
  unfold reject_authenticate.
  destruct (String.eqb _ _); [|destruct (ErrorHandler.getUserMessage _)];
    apply reject_getValidToken_rejected.
Qed.

(** A step that leaves a task waiting for the identity provider has called
    the provider, interactively. *)
Lemma step_task_acquires (env : Env) (t : Task) (w w' : World) (m : nat) :
  step_task env t w = Some (AwaitIdentity m, w') ->
  w' = log_identityCall true w /\ m = length (identityCalls w).
Proof.
  intros H.
  assert (Hauth : forall w0, start_authenticate env w0 = (AwaitIdentity m, w')
                             -> w' = log_identityCall true w0
                                /\ m = length (identityCalls w0)).
  { intros w0. unfold start_authenticate.
    destruct (negb _).
    - destruct (reject_authenticate_rejected
                  (Error "Google Client ID not configured")) as [e' ->].
      discriminate.
    - intros [= -> ->]. auto. }
  destruct t; cbn [step_task] in H;
    unfold start_getAuthToken, start_validateStored in H;
    repeat match type of H with
           | context [match ?x with _ => _ end] => destruct x eqn:?
           end;
    try discriminate;
    try (injection H as H; now apply Hauth).
  all: injection H as H _;
       match type of H with
       | reject_authenticate ?e = _ =>
           destruct (reject_authenticate_rejected e) as [e' He]; congruence
       | reject_getValidToken ?e = _ =>
           destruct (reject_getValidToken_rejected e) as [e' He]; congruence
       end.
Qed.

(** C6, as the claim states it, fails: two calls made in the same turn with
    no credential, answered in the order of their requests, are both
    waiting for the identity provider after two steps each, and have made
    two interactive invocations when both have resolved. *)
Lemma C6_counterexample :
  exists final,
    run Examples.online [0; 1; 0] Examples.two_calls
    = Some Examples.one_acquiring
    /\ run Examples.online [0; 1; 0; 1] Examples.two_calls
       = Some Examples.both_acquiring
    /\ run Examples.online [0; 1; 0; 1] Examples.both_acquiring = Some final
    /\ tasks final = [Resolved (Some "tok"); Resolved (Some "tok")]
    /\ identityCalls (world final) = [true; true]
    /\ interactive_invocations (identityCalls (world final)) = 2.
Proof.
  eexists. split; [reflexivity|]. split; [reflexivity|].
  split; [vm_compute; reflexivity|].
  repeat split.
Qed.

(** The orders in which two calls can take two steps each. *)
Lemma each_twice (schedule : list nat) :
  Permutation schedule [0; 0; 1; 1]%nat ->
  In schedule [ [0; 0; 1; 1]; [0; 1; 0; 1]; [0; 1; 1; 0];
                [1; 0; 0; 1]; [1; 0; 1; 0]; [1; 1; 0; 0] ]%nat.
Proof.
  intros H.
  assert (Hlen : length schedule = 4%nat) by (now rewrite H).
  assert (H0 : count_occ Nat.eq_dec schedule 0%nat = 2%nat)
    by (now rewrite (Permutation_count_occ Nat.eq_dec) in H; rewrite H).
  assert (H1 : count_occ Nat.eq_dec schedule 1%nat = 2%nat)
    by (now rewrite (Permutation_count_occ Nat.eq_dec) in H; rewrite H).
  clear H.
  destruct schedule as [|a [|b [|c [|d [|? ?]]]]]; try discriminate.
  destruct a as [|[|a]], b as [|[|b]], c as [|[|c]], d as [|[|d]];
    cbn in H0, H1; try discriminate; cbn; tauto.
Qed.

(** C6, amended. Calls of [getValidToken] do not join.  Two calls made
    with no credential in memory or in storage, the client id configured and
    the two storage reads answered, each make an interactive invocation of
    their own, in whatever order the first two steps of the one and of the
    other are taken: in particular when the second call starts only after
    the acquisition of the first is in flight.  Both acquisitions are then
    in flight, waiting for two different requests, and the identity provider
    has been invoked interactively twice. *)
Theorem C6_calls_do_not_join (env : Env) (w : World) (schedule : list nat) :
  Js.truthy (clientId env) = true ->
  Js.truthy (default "" (currentToken w)) = false ->
  Js.truthy (default "" (stored_token w)) = false ->
  storage_fails env (storageOps w) = false ->
  storage_fails env (S (storageOps w)) = false ->
  Permutation schedule [0; 0; 1; 1]%nat ->
  exists c n m,
    run env schedule (mkConfig w [Called; Called]) = Some c
    /\ tasks c = [AwaitIdentity n; AwaitIdentity m]
    /\ n <> m
    /\ identityCalls (world c) = identityCalls w ++ [true; true]
    /\ interactive_invocations (identityCalls (world c))
       = (interactive_invocations (identityCalls w) + 2)%nat.
Proof.
  intros Hid Hcur Hst Hs0 Hs1 Hperm.
  assert (Hinv : forall l : list bool,
             interactive_invocations (l ++ [true; true])
             = (interactive_invocations l + 2)%nat).
  { intros l. unfold interactive_invocations.
    rewrite filter_app, length_app. reflexivity. }
  apply each_twice in Hperm. cbn [In] in Hperm.
  destruct w as [cur ini st cfg ic rt tc sc so sl rc nt].
  cbn [currentToken stored_token storageOps identityCalls] in *.
  destruct Hperm as [<- | [<- | [<- | [<- | [<- | [<- | [] ] ] ] ] ] ].
  all: repeat (unfold start_authenticate;
               rewrite ?Hcur, ?Hst, ?Hs0, ?Hs1, ?Hid;
               cbn [run step tasks world lookup list_lookup step_task
                    currentToken insert list_insert start_getAuthToken
                    storageOps log_storageOp stored_token start_authenticate
                    identityCalls log_identityCall negb]).
  all: do 3 eexists; split; [reflexivity|]; split; [reflexivity|].
  all: cbn -[interactive_invocations]; rewrite ?length_app; cbn [length].
  all: rewrite <- ?app_assoc; cbn [app].
  all: split; [lia|]; split; [reflexivity|apply Hinv].
Qed.

Lemma C6_calls_do_not_join_witness :
  exists c n m,
    run Examples.online [0; 0; 1; 1]%nat
      (mkConfig Examples.fresh [Called; Called]) = Some c
    /\ tasks c = [AwaitIdentity n; AwaitIdentity m]
    /\ n <> m
    /\ identityCalls (world c) = identityCalls Examples.fresh ++ [true; true]
    /\ interactive_invocations (identityCalls (world c))
       = (interactive_invocations (identityCalls Examples.fresh) + 2)%nat.
Proof.
  apply (C6_calls_do_not_join Examples.online Examples.fresh);
    reflexivity.
Defined.

End Concurrency.

(** * Further properties

    Properties of the functions around the ones the claims cite, read off
    the source. *)

(** ** The error table and the retry loop of [handleError] *)

Section ErrorTable.
Import ErrorHandler ErrorHandler.ERROR_TYPES ErrorHandlerRetry.

(** The recovery table has exactly four entries. *)
Lemma strategy_lookup (k : string) (s : RecoveryStrategy) :
  RECOVERY_STRATEGIES !! k = Some s ->
  (k = TOKEN_EXPIRED
   /\ s = mkStrategy "refresh_token"
            "Session expired. Refreshing authentication..." true
            (Some 1%nat))
  \/ (k = RATE_LIMIT
      /\ s = mkStrategy "exponential_backoff"
               "Rate limit reached. Retrying in a moment..." true
               (Some 3%nat))
  \/ (k = FILE_TOO_LARGE
      /\ s = mkStrategy "user_action_required"
               "File is too large. Please select a smaller file." false None)
  \/ (k = NETWORK_ERROR
      /\ s = mkStrategy "retry" "Network error. Retrying..." true
               (Some 2%nat)).
Proof.
  unfold RECOVERY_STRATEGIES.
  rewrite !lookup_insert_Some, lookup_empty.
  intuition (subst; auto; try discriminate).
Qed.

(** X1. Four of the kinds that [ERROR_TYPES] declares are never the result
    of [classifyError], whatever the error: [validation.invalid_file_type],
    [api.timeout], [storage.corruption] and [storage.access_denied]. *)
Theorem classifyError_unused_kinds (error : RawError) :
  Forall (fun kind => classifyError error <> kind)
    [ INVALID_FILE_TYPE; TIMEOUT; CORRUPTION; ACCESS_DENIED ].
Proof.
  pose proof (classifyError_cases error) as H.
  repeat constructor; intros E; rewrite E in H; simpl in H;
    intuition discriminate.
Qed.

(** X2. The message of an error response is one of seven fixed texts: the
    text of the error itself never reaches the response. *)
Theorem createErrorResponse_fixed_messages (error : RawError)
    (ctx : Context) (r : ErrorResponse) :
  ErrorHandler.createErrorResponse error ctx = Some r ->
  In (message r) fixed_messages.
Proof.
  unfold ErrorHandler.createErrorResponse, ErrorHandler.getUserMessage.
  destruct (RECOVERY_STRATEGIES !! classifyError error) as [s|] eqn:Hs.
  - intros [= <-]. cbn [message]. apply strategy_lookup in Hs.
    destruct Hs as [ [_ ->] | [ [_ ->] | [ [_ ->] | [_ ->] ] ] ];
      cbn; tauto.
  - destruct error as [|m|e]; [discriminate| |].
    all: repeat match goal with
                | |- context [if ?b then _ else _] => destruct b
                end; intros [= <-]; cbn; tauto.
Qed.

Lemma createErrorResponse_fixed_messages_witness :
  In (message
        {| success := false;
           errorType := "unknown";
           message := "An unexpected error occurred. Please try again.";
           actionableMessage :=
             "Please try again or contact support if the problem persists.";
           isRetryable := false;
           context := noContext |})
     fixed_messages.
Proof.
  apply (createErrorResponse_fixed_messages
           (RString "No email configuration found") noContext).
  reflexivity.
Defined.

(** The same, for the response [sendEmail] builds from a caught error. *)
Lemma createErrorResponse_message (e : JsError) (ctx : Context)
    (r : ErrorResponse) :
  ErrorHandler.createErrorResponse (RObject e) ctx = Some r ->
  In (message r) fixed_messages.
Proof.
  unfold ErrorHandler.createErrorResponse, ErrorHandler.getUserMessage.
  destruct (RECOVERY_STRATEGIES !! classifyError (RObject e)) as [s|] eqn:Hs.
  - intros [= <-]. cbn [message]. apply strategy_lookup in Hs.
    destruct Hs as [ [_ ->] | [ [_ ->] | [ [_ ->] | [_ ->] ] ] ];
      cbn; tauto.
  - repeat match goal with
           | |- context [if ?b then _ else _] => destruct b
           end; intros [= <-]; cbn; tauto.
Qed.

Lemma respond_world {A} (error : RawError) (ctx : Context) (b : bool)
    (w : World) :
  snd (respond (A:=A) error ctx b w) = w.
Proof.
  unfold respond. destruct (createErrorResponse error ctx); reflexivity.
Qed.

Lemma respond_returns {A} (error : RawError) (ctx : Context) (b : bool)
    (w : World) :
  error <> RNull ->
  exists r, createErrorResponse error ctx = Some r
            /\ respond (A:=A) error ctx b w = (Return (GaveUp r b), w).
Proof.
  intros H. unfold respond.
  destruct (createErrorResponse error ctx) as [r|] eqn:E.
  - eauto.
  - exfalso. apply H. destruct error as [|s|e]; [reflexivity| |].
    + revert E. unfold createErrorResponse, ErrorHandler.getUserMessage.
      destruct (RECOVERY_STRATEGIES !! _); [discriminate|].
      repeat match goal with
             | |- context [if ?b then _ else _] => destruct b
             end; discriminate.
    + destruct (createErrorResponse_object e ctx) as (r & E' & _).
      congruence.
Qed.

Lemma retry_budget_le (kind : string) : (retry_budget kind <= 3)%nat.
Proof.
  unfold retry_budget.
  destruct (RECOVERY_STRATEGIES !! kind) as [s|] eqn:H; [|lia].
  apply strategy_lookup in H.
  destruct H as [ [-> ->] | [ [-> ->] | [ [-> ->] | [-> ->] ] ] ];
    vm_compute; lia.
Qed.

Lemma retry_loop_S {A} (error : RawError) (strategy : RecoveryStrategy)
    (maxRetries : nat) (cb : M A) (ctx : Context) (remaining attempt : nat) :
  retry_loop error strategy maxRetries cb ctx (S remaining) attempt
  = try_catch
      ((if String.eqb (action strategy) "exponential_backoff"
        then modify (log_sleep (2 ^ Z.of_nat attempt * 1000)%Z)
        else ret tt) ;;
       result <- cb ;;
       ret (Recovered result))
      (fun retryError =>
         if (attempt =? maxRetries)%nat
         then respond (RObject retryError) ctx true
         else retry_loop error strategy maxRetries cb ctx remaining
                (S attempt)).
Proof. reflexivity. Qed.

(** The delay before an attempt changes the sleep log only. *)
Lemma backoff_step (strategy : RecoveryStrategy) (attempt : nat)
    (w : World) :
  exists w1,
    (if String.eqb (action strategy) "exponential_backoff"
     then modify (log_sleep (2 ^ Z.of_nat attempt * 1000)%Z)
     else ret tt) w = (Return tt, w1)
    /\ forall cost : World -> nat,
         (forall ms w, cost (log_sleep ms w) = cost w) -> cost w1 = cost w.
Proof.
  destruct (String.eqb _ _); eexists; (split; [reflexivity|]); auto.
Qed.

Lemma retry_loop_cost {A} (cost : World -> nat) (error : RawError)
    (strategy : RecoveryStrategy) (maxRetries : nat) (cb : M A)
    (ctx : Context) :
  (forall ms w, cost (log_sleep ms w) = cost w) ->
  (forall w, (cost (snd (cb w)) <= cost w + 1)%nat) ->
  forall remaining attempt w,
    (cost (snd (retry_loop error strategy maxRetries cb ctx remaining
                  attempt w))
     <= cost w + remaining)%nat.
Proof.
  intros Hsleep Hcb.
  induction remaining as [|remaining IH]; intros attempt w.
  - cbn [retry_loop]. rewrite respond_world. lia.
  - rewrite retry_loop_S. unfold try_catch, bind.
    destruct (backoff_step strategy attempt w) as (w1 & -> & Hc1).
    specialize (Hc1 cost Hsleep).
    pose proof (Hcb w1) as Hc.
    destruct (cb w1) as [[a|e|] w2]; cbn in *; try lia.
    destruct (attempt =? maxRetries)%nat.
    + rewrite respond_world. lia.
    + specialize (IH (S attempt) w2). lia.
Qed.

(** X3. [handleError] retries within the budget of the table.  However
    the invocations of the callback are counted (any measure of the world
    that a delay leaves alone and an invocation raises by at most one), the
    count grows by at most the [maxRetries] of the error's kind, which is
    at most three. *)
Theorem handleError_bounded {A} (cost : World -> nat) (error : RawError)
    (retryCallback : M A) (ctx : Context) (w : World) :
  (forall ms w, cost (log_sleep ms w) = cost w) ->
  (forall w, (cost (snd (retryCallback w)) <= cost w + 1)%nat) ->
  (cost (snd (handleError error (Some retryCallback) ctx w))
   <= cost w + retry_budget (classifyError error))%nat
  /\ (retry_budget (classifyError error) <= 3)%nat.
Proof.
  intros Hsleep Hcb. split; [|apply retry_budget_le].
  unfold handleError, retry_budget, bind, logError.
  destruct error as [|s|e]; cbn [throw ret snd]; try lia.
  all: destruct (RECOVERY_STRATEGIES !! _) as [st|];
    [destruct (autoRetry st)|]; rewrite ?respond_world; try lia.
  all: apply retry_loop_cost; assumption.
Qed.

Lemma makeApiRequest_posts_once (env : Env) (token msg : string)
    (w : World) :
  length (sendCalls (snd (GmailApiService._makeApiRequest env token msg w)))
  = (length (sendCalls w) + 1)%nat.
Proof.
  unfold GmailApiService._makeApiRequest.
  destruct (send_reply _ _ _ _); cbn; rewrite length_app; reflexivity.
Qed.

Lemma handleError_bounded_witness :
  (length (sendCalls (snd (handleError
             (RObject (Error "network down"))
             (Some (GmailApiService._makeApiRequest Examples.offline "t" "m"))
             noContext Examples.fresh)))
   <= length (sendCalls Examples.fresh)
      + retry_budget (classifyError (RObject (Error "network down"))))%nat
  /\ (retry_budget (classifyError (RObject (Error "network down"))) <= 3)%nat.
Proof.
  apply (handleError_bounded (fun w => length (sendCalls w))).
  - reflexivity.
  - intros w. rewrite makeApiRequest_posts_once. lia.
Defined.

Lemma retry_loop_exhausted {A} (cost : World -> nat) (error : RawError)
    (strategy : RecoveryStrategy) (maxRetries : nat) (cb : M A)
    (ctx : Context) :
  (forall w, exists e, fst (cb w) = Throw e) ->
  (forall ms w, cost (log_sleep ms w) = cost w) ->
  (forall w, cost (snd (cb w)) = cost w + 1)%nat ->
  forall remaining attempt w,
    (attempt + remaining = maxRetries)%nat ->
    exists e w0 r w',
      retry_loop error strategy maxRetries cb ctx (S remaining) attempt w
      = (Return (GaveUp r true), w')
      /\ fst (cb w0) = Throw e
      /\ createErrorResponse (RObject e) ctx = Some r
      /\ (cost w' = cost w + S remaining)%nat.
Proof.
  intros Hthrow Hsleep Hcb.
  induction remaining as [|remaining IH]; intros attempt w Hn;
    rewrite retry_loop_S; unfold try_catch, bind.
  all: destruct (backoff_step strategy attempt w) as (w1 & -> & Hc1).
  all: specialize (Hc1 cost Hsleep).
  all: destruct (Hthrow w1) as [e He]; pose proof (Hcb w1) as Hc.
  all: destruct (cb w1) as [o w2] eqn:Hcbw; cbn in He, Hc; subst o.
  - replace (attempt =? maxRetries)%nat with true
      by (symmetry; apply Nat.eqb_eq; lia).
    destruct (respond_returns (A:=A) (RObject e) ctx true w2)
      as (r & Hr & ->); [discriminate|].
    exists e, w1, r, w2. rewrite Hcbw. repeat split; auto. lia.
  - replace (attempt =? maxRetries)%nat with false
      by (symmetry; apply Nat.eqb_neq; lia).
    destruct (IH (S attempt) w2) as (e' & w0 & r & w' & -> & H2 & H3 & H4);
      [lia|].
    exists e', w0, r, w'. repeat split; auto. lia.
Qed.

(** X4. When the error's kind is one the table retries and the callback
    fails every time, [handleError] invokes it exactly [maxRetries] times
    and returns a failure response marked [retriesExhausted]; the response
    is built from an error the callback threw, not from the error that was
    handed in. *)
Theorem handleError_exhausted {A} (cost : World -> nat) (error : RawError)
    (retryCallback : M A) (ctx : Context) (w : World) :
  isRetryableError (classifyError error) = true ->
  (forall w, exists e, fst (retryCallback w) = Throw e) ->
  (forall ms w, cost (log_sleep ms w) = cost w) ->
  (forall w, cost (snd (retryCallback w)) = cost w + 1)%nat ->
  exists e w0 r w',
    handleError error (Some retryCallback) ctx w
    = (Return (GaveUp r true), w')
    /\ fst (retryCallback w0) = Throw e
    /\ createErrorResponse (RObject e) ctx = Some r
    /\ (cost w' = cost w + retry_budget (classifyError error))%nat.
Proof.
  intros Hk Hthrow Hsleep Hcb.
  assert (Hnn : error <> RNull) by (intros ->; discriminate).
  assert (Hlog : logError error w = (Return tt, w))
    by (destruct error; [congruence|reflexivity..]).
  unfold handleError, retry_budget, bind. rewrite Hlog.
  unfold isRetryableError in Hk.
  destruct (RECOVERY_STRATEGIES !! classifyError error) as [st|] eqn:Hst;
    [|discriminate].
  rewrite Hk.
  assert (Hpos : (1 <= retries_of st)%nat)
    by (unfold retries_of; destruct (maxRetries st) as [[|n]|]; cbn; lia).
  destruct (retries_of st) as [|m] eqn:Hm; [lia|].
  destruct (retry_loop_exhausted cost error st (S m) retryCallback ctx
              Hthrow Hsleep Hcb m 1%nat w eq_refl)
    as (e' & w0 & r & w' & H1 & H2 & H3 & H4).
  exists e', w0, r, w'; repeat split; assumption.
Qed.

Lemma offline_request_throws (token msg : string) (w : World) :
  exists e,
    fst (GmailApiService._makeApiRequest Examples.offline token msg w)
    = Throw e.
Proof. eexists. reflexivity. Qed.

Lemma handleError_exhausted_witness :
  exists e w0 r w',
    handleError (RObject (Error "network down"))
      (Some (GmailApiService._makeApiRequest Examples.offline "t" "m"))
      noContext Examples.fresh
    = (Return (GaveUp r true), w')
    /\ fst (GmailApiService._makeApiRequest Examples.offline "t" "m" w0)
       = Throw e
    /\ createErrorResponse (RObject e) noContext = Some r
    /\ (length (sendCalls w')
        = length (sendCalls Examples.fresh)
          + retry_budget (classifyError (RObject (Error "network down"))))%nat.
Proof.
  apply (handleError_exhausted (fun w => length (sendCalls w))).
  - reflexivity.
  - intros w. apply offline_request_throws.
  - reflexivity.
  - intros w. apply makeApiRequest_posts_once.
Defined.

(** X5. For a rate-limit error and a callback that fails every time
    without sleeping itself, [handleError] waits 2, 4 and 8 seconds: the
    delay doubles with each attempt. *)
Theorem handleError_rate_limit_delays {A} (error : RawError)
    (retryCallback : M A) (ctx : Context) (w : World) :
  classifyError error = RATE_LIMIT ->
  (forall w, exists e, fst (retryCallback w) = Throw e) ->
  (forall w, sleeps (snd (retryCallback w)) = sleeps w) ->
  sleeps (snd (handleError error (Some retryCallback) ctx w))
  = sleeps w ++ [2000; 4000; 8000]%Z.
Proof.
  intros Hk Hthrow Hquiet.
  assert (Hnn : error <> RNull) by (intros ->; discriminate).
  assert (Hlog : logError error w = (Return tt, w))
    by (destruct error; [congruence|reflexivity..]).
  unfold handleError, bind. rewrite Hlog, Hk.
  change (RECOVERY_STRATEGIES !! RATE_LIMIT)
    with (Some (mkStrategy "exponential_backoff"
                  "Rate limit reached. Retrying in a moment..." true
                  (Some 3%nat))).
  cbn [autoRetry]. change (retries_of _) with 3%nat.
  rewrite !retry_loop_S. unfold try_catch, bind.
  cbn [action String.eqb Ascii.eqb Bool.eqb modify Nat.eqb].
  repeat match goal with
         | |- context [retryCallback ?w0] =>
             let e := fresh "e" in
             let He := fresh "He" in
             let Hs := fresh "Hs" in
             let o := fresh "o" in
             let w1 := fresh "w" in
             destruct (Hthrow w0) as [e He]; pose proof (Hquiet w0) as Hs;
             destruct (retryCallback w0) as [o w1]; cbn in He, Hs; subst o
         end.
  rewrite respond_world.
  cbn in *. rewrite Hs1, Hs0, Hs, <- !app_assoc. reflexivity.
Qed.

Lemma handleError_rate_limit_delays_witness :
  sleeps (snd (handleError (A:=unit) (RString "rate limit hit")
                 (Some (throw (Error "rate limit hit"))) noContext
                 Examples.fresh))
  = sleeps Examples.fresh ++ [2000; 4000; 8000]%Z.
Proof.
  apply handleError_rate_limit_delays.
  - reflexivity.
  - intros w. eexists. reflexivity.
  - reflexivity.
Defined.

End ErrorTable.

(** ** White space, recipients and file names *)

Section Text.

Lemma trim_truthy (s : string) :
  Js.truthy (Js.trim s) = true -> Js.truthy s = true.
Proof. destruct s; [discriminate|reflexivity]. Qed.

Lemma blank_trimStart (l s : string) :
  blank l = true -> Js.trimStart (l +:+ s) = Js.trimStart s.
Proof.
  induction l as [|c l IH]; intros H; sapp; [reflexivity|].
  cbn in H. apply andb_true_iff in H as [Hc Hl].
  cbn [Js.trimStart]. rewrite Hc. auto.
Qed.

Lemma blank_trimEnd_nil (t : string) :
  blank t = true -> Js.trimEnd t = "".
Proof.
  induction t as [|c t IH]; intros H; [reflexivity|].
  cbn in H. apply andb_true_iff in H as [Hc Ht].
  cbn [Js.trimEnd]. rewrite (IH Ht), Hc. reflexivity.
Qed.

Lemma blank_trimEnd (s t : string) :
  blank t = true -> Js.trimEnd (s +:+ t) = Js.trimEnd s.
Proof.
  intros Ht. induction s as [|c s IH]; sapp.
  - now apply blank_trimEnd_nil.
  - cbn [Js.trimEnd]. now rewrite IH.
Qed.

Lemma trimStart_app (s t : string) :
  blank t = true ->
  Js.trimEnd (Js.trimStart (s +:+ t)) = Js.trimEnd (Js.trimStart s).
Proof.
  intros Ht. induction s as [|c s IH]; sapp.
  - cbn [Js.trimStart Js.trimEnd].
    rewrite <- (append_nil_r t), blank_trimStart by assumption. reflexivity.
  - cbn [Js.trimStart]. destruct (Js.is_space c); [assumption|].
    rewrite <- append_cons. now apply blank_trimEnd.
Qed.

Lemma trim_surrounded (l s t : string) :
  blank l = true -> blank t = true -> Js.trim (l +:+ s +:+ t) = Js.trim s.
Proof.
  intros Hl Ht. unfold Js.trim.
  rewrite blank_trimStart by assumption. now apply trimStart_app.
Qed.

Lemma count_char_app (c : ascii) (s t : string) :
  JsMore.count_char c (s +:+ t)
  = (JsMore.count_char c s + JsMore.count_char c t)%nat.
Proof.
  induction s as [|d s IH]; sapp; [reflexivity|].
  cbn [JsMore.count_char]. rewrite IH. lia.
Qed.

Lemma all_chars_app (p : ascii -> bool) (s t : string) :
  JsMore.all_chars p (s +:+ t)
  = JsMore.all_chars p s && JsMore.all_chars p t.
Proof.
  induction s as [|d s IH]; sapp; [reflexivity|].
  cbn [JsMore.all_chars]. rewrite IH, andb_assoc. reflexivity.
Qed.

Lemma all_chars_impl (p q : ascii -> bool) (s : string) :
  (forall c, p c = true -> q c = true) ->
  JsMore.all_chars p s = true -> JsMore.all_chars q s = true.
Proof.
  intros Hpq. induction s as [|c s IH]; [reflexivity|].
  cbn [JsMore.all_chars]. rewrite !andb_true_iff. intros [H1 H2]. auto.
Qed.

Lemma string_length_app (s t : string) :
  String.length (s +:+ t) = (String.length s + String.length t)%nat.
Proof.
  induction s as [|d s IH]; sapp; [reflexivity|].
  cbn [String.length]. now rewrite IH.
Qed.

Lemma trimStart_id (s : string) :
  JsMore.all_chars (fun c => negb (Js.is_space c)) s = true ->
  Js.trimStart s = s.
Proof.
  destruct s as [|c s]; [reflexivity|]. cbn. rewrite andb_true_iff.
  intros [H _]. apply negb_true_iff in H. now rewrite H.
Qed.

Lemma trimEnd_id (s : string) :
  JsMore.all_chars (fun c => negb (Js.is_space c)) s = true ->
  Js.trimEnd s = s.
Proof.
  induction s as [|c s IH]; [reflexivity|].
  cbn [JsMore.all_chars Js.trimEnd]. rewrite andb_true_iff. intros [H Hs].
  apply negb_true_iff in H. rewrite (IH Hs), H. destruct s; reflexivity.
Qed.

Lemma trim_id (s : string) :
  JsMore.all_chars (fun c => negb (Js.is_space c)) s = true ->
  Js.trim s = s.
Proof.
  intros H. unfold Js.trim. rewrite (trimStart_id s H). now apply trimEnd_id.
Qed.

End Text.

Section Recipients.
Import Validator.

(** X6. White space around a recipient never changes the verdict of
    [isValidEmail]. *)
Theorem isValidEmail_ignores_surrounding_space (l recipient t : string) :
  blank l = true -> blank t = true ->
  isValidEmail (l +:+ recipient +:+ t) = isValidEmail recipient.
Proof.
  intros Hl Ht.
  assert (H : forall s, isValidEmail s = emailRegex_test (Js.trim s))
    by (intros [|c s]; reflexivity).
  rewrite !H, trim_surrounded by assumption. reflexivity.
Qed.

Lemma isValidEmail_ignores_surrounding_space_witness :
  isValidEmail ("  " +:+ "a@b.c" +:+ " ") = isValidEmail "a@b.c".
Proof.
  apply isValidEmail_ignores_surrounding_space; reflexivity.
Defined.

Lemma no_space_at_count (s : string) :
  no_space_at s = true ->
  JsMore.count_char "@" s = 0%nat
  /\ JsMore.all_chars (fun c => negb (Js.is_space c)) s = true.
Proof.
  induction s as [|c s IH]; [auto|].
  cbn [no_space_at JsMore.count_char JsMore.all_chars].
  unfold not_space_at. rewrite !andb_true_iff, !negb_true_iff.
  intros [[Hs Ha] H]. destruct (IH H) as [-> ->]. rewrite Ha, Hs. auto.
Qed.

(** X7. A recipient that [isValidEmail] accepts holds, once trimmed,
    exactly one [@], no white space, and at least five characters. *)
Theorem isValidEmail_one_at (recipient : string) :
  isValidEmail recipient = true ->
  JsMore.count_char "@" (Js.trim recipient) = 1%nat
  /\ JsMore.all_chars (fun c => negb (Js.is_space c)) (Js.trim recipient)
     = true
  /\ (5 <= String.length (Js.trim recipient))%nat.
Proof.
  intros H. apply isValidEmail_spec in H.
  destruct H as (a & b & c & -> & Ha & Hb & Hc & Ha' & Hb' & Hc').
  apply no_space_at_count in Ha' as [Ha1 Ha2].
  apply no_space_at_count in Hb' as [Hb1 Hb2].
  apply no_space_at_count in Hc' as [Hc1 Hc2].
  rewrite !count_char_app, !all_chars_app, Ha1, Hb1, Hc1, Ha2, Hb2, Hc2.
  repeat split; try reflexivity.
  rewrite !string_length_app.
  destruct a; [congruence|]. destruct b; [congruence|].
  destruct c; [congruence|]. cbn. lia.
Qed.

Lemma isValidEmail_one_at_witness :
  JsMore.count_char "@" (Js.trim " a@b.c ") = 1%nat
  /\ JsMore.all_chars (fun c => negb (Js.is_space c)) (Js.trim " a@b.c ")
     = true
  /\ (5 <= String.length (Js.trim " a@b.c "))%nat.
Proof. apply isValidEmail_one_at. reflexivity. Defined.

End Recipients.

Section FileNames.
Import ValidatorFiles.

Lemma after_last_sep_none (sep : ascii) (s : string) :
  JsMore.after_last_sep sep s = None <-> JsMore.count_char sep s = 0%nat.
Proof.
  induction s as [|c s IH]; [easy|].
  cbn [JsMore.after_last_sep JsMore.count_char].
  destruct (JsMore.after_last_sep sep s) as [r|].
  - split; [discriminate|]. intros H.
    assert (H0 : JsMore.count_char sep s = 0%nat) by lia.
    apply IH in H0. discriminate.
  - destruct (Ascii.eqb c sep); split; try discriminate; try reflexivity.
    intros _. cbn. now apply IH.
Qed.

Lemma after_last_sep_some (sep : ascii) (s r : string) :
  JsMore.after_last_sep sep s = Some r <->
  exists stem, s = stem +:+ String sep r /\ JsMore.count_char sep r = 0%nat.
Proof.
  revert r. induction s as [|c s IH]; intros r.
  - split; [discriminate|]. intros (stem & H & _).
    destruct stem; sapp_in H; discriminate.
  - cbn [JsMore.after_last_sep].
    destruct (JsMore.after_last_sep sep s) as [r'|] eqn:E.
    + split.
      * intros [= <-]. destruct (proj1 (IH r') eq_refl) as (stem & -> & H).
        exists (String c stem). now sapp.
      * intros (stem & H & H0). destruct stem as [|d stem]; sapp_in H.
        -- injection H as -> ->. apply after_last_sep_none in H0. congruence.
        -- injection H as -> ->. apply IH. eauto.
    + apply after_last_sep_none in E.
      destruct (Ascii.eqb_spec c sep) as [->|Hne].
      * split.
        -- intros [= <-]. exists "". now sapp.
        -- intros (stem & H & H0). destruct stem as [|d stem]; sapp_in H.
           ++ now injection H as ->.
           ++ injection H as -> ->. rewrite count_char_app in E.
              cbn in E. rewrite Ascii.eqb_refl in E. lia.
      * split; [discriminate|].
        intros (stem & H & H0). destruct stem as [|d stem]; sapp_in H.
        -- now injection H as -> ->.
        -- injection H as -> ->. rewrite count_char_app in E.
           cbn in E. rewrite Ascii.eqb_refl in E. lia.
Qed.

Lemma allowed_spec (x : string) :
  allowed ("." +:+ x) = true <-> In x allowed_extensions.
Proof.
  unfold allowed, allowedTypes, allowed_extensions. sapp.
  cbn [existsb String.eqb Ascii.eqb Bool.eqb andb In].
  rewrite !orb_true_iff, !String.eqb_eq. intuition congruence.
Qed.

Lemma toLowerCase_count_dot (s : string) :
  JsMore.count_char "." (JsMore.toLowerCase s) = JsMore.count_char "." s.
Proof.
  induction s as [|c s IH]; [reflexivity|].
  cbn [JsMore.toLowerCase JsMore.count_char]. rewrite IH. f_equal.
  destruct c as [[] [] [] [] [] [] [] []]; reflexivity.
Qed.

Lemma allowed_extension_no_dot (x : string) :
  In (JsMore.toLowerCase x) allowed_extensions ->
  JsMore.count_char "." x = 0%nat.
Proof.
  intros H. rewrite <- toLowerCase_count_dot.
  unfold allowed_extensions in H. cbn [In] in H.
  destruct H as [<- | [<- | [<- | [<- | [] ] ] ] ]; reflexivity.
Qed.

(** [validateAttachment] in terms of the name's shape. *)
Lemma validateAttachment_spec (file : File) :
  validateAttachment (Some file) = []
  <-> (size file <= maxSize)%N
      /\ (String.length (name file) <= 100)%nat
      /\ exists ext,
           In (JsMore.toLowerCase ext) allowed_extensions
           /\ (name file = ext
               \/ exists stem, name file = stem +:+ "." +:+ ext).
Proof.
  unfold validateAttachment, fileExtension, JsMore.split_pop.
  assert (Hext : In (JsMore.toLowerCase
                       (default (name file)
                          (JsMore.after_last_sep "." (name file))))
                   allowed_extensions
                 <-> exists ext,
                   In (JsMore.toLowerCase ext) allowed_extensions
                   /\ (name file = ext
                       \/ exists stem, name file = stem +:+ "." +:+ ext)).
  { destruct (JsMore.after_last_sep "." (name file)) as [r|] eqn:E;
      cbn [from_option id].
    - apply after_last_sep_some in E as (stem & E & H0). split.
      + intros H. exists r. split; [assumption|]. right. now exists stem.
      + intros (ext & H & [Hn | (stem' & Hn)]).
        * apply allowed_extension_no_dot in H. rewrite <- Hn, E in H.
          rewrite count_char_app in H. cbn in H. lia.
        * assert (JsMore.after_last_sep "." (name file) = Some ext) as E'
            by (apply after_last_sep_some; exists stem'; split;
                [assumption | now apply allowed_extension_no_dot]).
          assert (JsMore.after_last_sep "." (name file) = Some r) as E''
            by (apply after_last_sep_some; eauto).
          congruence.
    - apply after_last_sep_none in E. split.
      + intros H. exists (name file). auto.
      + intros (ext & H & [Hn | (stem' & Hn)]); [congruence|].
        rewrite Hn, count_char_app in E. sapp_in E. cbn in E. lia. }
  rewrite <- Hext, <- allowed_spec.
  destruct (N.ltb_spec maxSize (size file)).
  { split; [discriminate|]. intros [? _]. exfalso. lia. }
  destruct (allowed _); cbn [negb app].
  2:{ split; [discriminate|]. intros (_ & _ & ?). discriminate. }
  destruct (Nat.ltb_spec 100 (String.length (name file))).
  { split; [discriminate|]. intros (_ & ? & _). exfalso. lia. }
  split; auto.
Qed.

(** X8. [validateAttachment] accepts a file exactly when it has at most
    1 MiB, a name of at most 100 characters, and a name whose text after
    the last dot, or whose whole text when it has no dot, is [pdf], [doc],
    [docx] or [txt] in any mix of cases.  An empty file passes, and so does
    a file named just [pdf]. *)
Theorem validateAttachment_accepts (file : File) :
  (validateAttachment (Some file) = []
   <-> (size file <= maxSize)%N
       /\ (String.length (name file) <= 100)%nat
       /\ exists ext,
            In (JsMore.toLowerCase ext) allowed_extensions
            /\ (name file = ext
                \/ exists stem, name file = stem +:+ "." +:+ ext))
  /\ validateAttachment (Some (mkFile 0 "pdf" "")) = [].
Proof. split; [apply validateAttachment_spec | reflexivity]. Qed.

Lemma replace_invalid_valid (s : string) :
  JsMore.all_chars (fun c => negb (invalid_char c)) (replace_invalid s) = true.
Proof.
  induction s as [|c s IH]; [reflexivity|].
  cbn [replace_invalid JsMore.all_chars]. rewrite IH, andb_true_r.
  destruct (invalid_char c) eqn:H; [reflexivity|]. now rewrite H.
Qed.

(** Collapsing the runs of a class that the underscore is not in removes
    the class. *)
Lemma collapse_runs_removes (p q : ascii -> bool) (b : bool) (s : string) :
  p "_"%char = false -> q "_"%char = true ->
  JsMore.all_chars q s = true ->
  JsMore.all_chars (fun c => q c && negb (p c)) (JsMore.collapse_runs p b s)
  = true.
Proof.
  intros Hp Hq. revert b. induction s as [|c s IH]; intros b; [reflexivity|].
  cbn [JsMore.collapse_runs JsMore.all_chars]. rewrite andb_true_iff.
  intros [Hc Hs]. destruct (p c) eqn:Hpc.
  - destruct b; [auto|]. cbn [JsMore.all_chars]. rewrite Hq, Hp, IH; auto.
  - cbn [JsMore.all_chars]. rewrite Hc, Hpc, IH; auto.
Qed.

Lemma collapse_runs_keeps (p q : ascii -> bool) (b : bool) (s : string) :
  q "_"%char = true ->
  JsMore.all_chars q s = true ->
  JsMore.all_chars q (JsMore.collapse_runs p b s) = true.
Proof.
  intros Hq. revert b. induction s as [|c s IH]; intros b; [reflexivity|].
  cbn [JsMore.collapse_runs JsMore.all_chars]. rewrite andb_true_iff.
  intros [Hc Hs]. destruct (p c).
  - destruct b; [auto|]. cbn [JsMore.all_chars]. rewrite Hq, IH; auto.
  - cbn [JsMore.all_chars]. rewrite Hc, IH; auto.
Qed.

Lemma collapse_underscores_single (b : bool) (s : string) :
  no_double_underscore (JsMore.collapse_runs is_underscore b s) = true
  /\ (b = true ->
      head_not_underscore (JsMore.collapse_runs is_underscore b s) = true).
Proof.
  revert b. induction s as [|c s IH]; intros b; [auto|].
  cbn [JsMore.collapse_runs]. destruct (is_underscore c) eqn:Hc.
  - destruct b.
    + apply IH.
    + destruct (IH true) as [H1 H2]. split; [|discriminate].
      cbn [no_double_underscore]. rewrite H1, andb_true_r.
      specialize (H2 eq_refl).
      destruct (JsMore.collapse_runs is_underscore true s); [reflexivity|].
      cbn in H2. apply negb_true_iff in H2. rewrite H2, andb_false_r.
      reflexivity.
  - destruct (IH false) as [H1 _]. split.
    + cbn [no_double_underscore]. rewrite H1, Hc, andb_true_r.
      destruct (JsMore.collapse_runs is_underscore false s); reflexivity.
    + intros _. cbn. now rewrite Hc.
Qed.

Lemma replaced_clean (s : string) :
  JsMore.all_chars clean_char (replaced s) = true.
Proof.
  unfold replaced. apply collapse_runs_keeps; [reflexivity|].
  apply (collapse_runs_removes Js.is_space
           (fun c => negb (invalid_char c))); try reflexivity.
  apply replace_invalid_valid.
Qed.

Lemma clean_no_space (s : string) :
  JsMore.all_chars clean_char s = true ->
  JsMore.all_chars (fun c => negb (Js.is_space c)) s = true.
Proof.
  apply all_chars_impl. intros c H. unfold clean_char in H.
  now apply andb_true_iff in H as [_ H].
Qed.

(** The final [trim] of [sanitizeFileName] removes nothing: the second
    replacement has left no white space. *)
Lemma sanitizeFileName_replaced (c : ascii) (s : string) :
  sanitizeFileName (String c s) = replaced (String c s).
Proof.
  unfold sanitizeFileName. cbn [Js.truthy negb].
  apply trim_id, clean_no_space, replaced_clean.
Qed.

Lemma collapse_runs_nonempty (p : ascii -> bool) (c : ascii) (s : string) :
  JsMore.collapse_runs p false (String c s) <> "".
Proof. cbn. destruct (p c); discriminate. Qed.

Lemma sanitizeFileName_shape (fileName : string) :
  JsMore.all_chars clean_char (sanitizeFileName fileName) = true
  /\ no_double_underscore (sanitizeFileName fileName) = true
  /\ sanitizeFileName fileName <> "".
Proof.
  destruct fileName as [|c s].
  - repeat split. discriminate.
  - rewrite sanitizeFileName_replaced. split; [apply replaced_clean|].
    split; [apply collapse_underscores_single|].
    unfold replaced. cbn [replace_invalid].
    destruct (JsMore.collapse_runs Js.is_space false _) eqn:H.
    + now apply collapse_runs_nonempty in H.
    + apply collapse_runs_nonempty.
Qed.

(** X9. A sanitised file name is never empty and holds none of the
    characters the first replacement removes (the double quote among
    them), no white space (so no line break either), and no two
    underscores in a row. *)
Theorem sanitizeFileName_clean (fileName : string) :
  JsMore.all_chars clean_char (sanitizeFileName fileName) = true
  /\ no_double_underscore (sanitizeFileName fileName) = true
  /\ Js.truthy (sanitizeFileName fileName) = true
  /\ JsMore.count_char Js.DQUOTE (sanitizeFileName fileName) = 0%nat.
Proof.
  destruct (sanitizeFileName_shape fileName) as (H1 & H2 & H3).
  repeat split; try assumption.
  - destruct (sanitizeFileName fileName); [congruence|reflexivity].
  - clear H2 H3. induction (sanitizeFileName fileName) as [|c s IH];
      [reflexivity|].
    cbn [JsMore.all_chars JsMore.count_char] in *.
    apply andb_true_iff in H1 as [Hc Hs]. rewrite (IH Hs).
    destruct (Ascii.eqb_spec c Js.DQUOTE) as [->|]; [discriminate|].
    reflexivity.
Qed.

Lemma replace_invalid_id (s : string) :
  JsMore.all_chars (fun c => negb (invalid_char c)) s = true ->
  replace_invalid s = s.
Proof.
  induction s as [|c s IH]; [reflexivity|].
  cbn [JsMore.all_chars replace_invalid]. rewrite andb_true_iff.
  intros [H Hs]. apply negb_true_iff in H. now rewrite H, IH.
Qed.

Lemma collapse_runs_id (p : ascii -> bool) (b : bool) (s : string) :
  JsMore.all_chars (fun c => negb (p c)) s = true ->
  JsMore.collapse_runs p b s = s.
Proof.
  revert b. induction s as [|c s IH]; intros b; [reflexivity|].
  cbn [JsMore.all_chars JsMore.collapse_runs]. rewrite andb_true_iff.
  intros [H Hs]. apply negb_true_iff in H. now rewrite H, IH.
Qed.

Lemma collapse_underscores_id (s : string) :
  no_double_underscore s = true ->
  JsMore.collapse_runs is_underscore false s = s
  /\ (head_not_underscore s = true ->
      JsMore.collapse_runs is_underscore true s = s).
Proof.
  induction s as [|c s IH]; [auto|].
  cbn [no_double_underscore]. rewrite andb_true_iff. intros [H Hs].
  destruct (IH Hs) as [IH1 IH2].
  cbn [JsMore.collapse_runs head_not_underscore].
  destruct (is_underscore c) eqn:Hc.
  - split; [|discriminate].
    assert (c = "_"%char) as -> by now apply Ascii.eqb_eq.
    rewrite IH2; [reflexivity|].
    destruct s as [|d s]; [reflexivity|]. exact H.
  - rewrite IH1. auto.
Qed.

(** X10. [sanitizeFileName] is idempotent: sanitising a sanitised name
    changes nothing. *)
Theorem sanitizeFileName_idempotent (fileName : string) :
  sanitizeFileName (sanitizeFileName fileName) = sanitizeFileName fileName.
Proof.
  destruct (sanitizeFileName_shape fileName) as (H1 & H2 & H3).
  destruct (sanitizeFileName fileName) as [|c s] eqn:E; [congruence|].
  rewrite sanitizeFileName_replaced. unfold replaced.
  rewrite replace_invalid_id.
  2:{ revert H1. apply all_chars_impl. intros x H. unfold clean_char in H.
      now apply andb_true_iff in H as [H _]. }
  rewrite (collapse_runs_id Js.is_space) by now apply clean_no_space.
  now apply collapse_underscores_id.
Qed.

Lemma lower_char_plain (c : ascii) :
  plain_char (JsMore.lower_char c) = true -> plain_char c = true.
Proof. destruct c as [[] [] [] [] [] [] [] []]; vm_compute; auto. Qed.

Lemma toLowerCase_plain (s : string) :
  JsMore.all_chars plain_char (JsMore.toLowerCase s) = true ->
  JsMore.all_chars plain_char s = true.
Proof.
  induction s as [|c s IH]; [reflexivity|].
  cbn [JsMore.toLowerCase JsMore.all_chars]. rewrite !andb_true_iff.
  intros [H Hs]. split; [now apply lower_char_plain | auto].
Qed.

Lemma allowed_extension_plain (x : string) :
  In (JsMore.toLowerCase x) allowed_extensions ->
  JsMore.all_chars plain_char x = true /\ x <> "".
Proof.
  intros H. split.
  - apply toLowerCase_plain.
    unfold allowed_extensions in H. cbn [In] in H.
    destruct H as [<- | [<- | [<- | [<- | [] ] ] ] ]; reflexivity.
  - intros ->. cbn in H. intuition discriminate.
Qed.

Lemma replace_invalid_app (s t : string) :
  replace_invalid (s +:+ t) = replace_invalid s +:+ replace_invalid t.
Proof.
  induction s as [|c s IH]; sapp; [reflexivity|].
  cbn [replace_invalid]. sapp. now rewrite IH.
Qed.

Lemma collapse_runs_app (p : ascii -> bool) (b : bool) (s : string)
    (c : ascii) (t : string) :
  p c = false ->
  JsMore.collapse_runs p b (s +:+ String c t)
  = JsMore.collapse_runs p b s +:+ String c (JsMore.collapse_runs p false t).
Proof.
  intros Hc. revert b. induction s as [|d s IH]; intros b; sapp.
  - cbn [JsMore.collapse_runs]. now rewrite Hc.
  - cbn [JsMore.collapse_runs]. destruct (p d); [destruct b|]; sapp;
      now rewrite IH.
Qed.

Lemma plain_fixed (ext : string) :
  JsMore.all_chars plain_char ext = true ->
  replace_invalid ext = ext
  /\ JsMore.collapse_runs Js.is_space false ext = ext
  /\ JsMore.collapse_runs is_underscore false ext = ext.
Proof.
  intros H. split; [|split].
  - apply replace_invalid_id. revert H. apply all_chars_impl.
    intros c. unfold plain_char, clean_char. rewrite !andb_true_iff. tauto.
  - apply collapse_runs_id. revert H. apply all_chars_impl.
    intros c. unfold plain_char, clean_char. rewrite !andb_true_iff. tauto.
  - apply collapse_runs_id. revert H. apply all_chars_impl.
    intros c. unfold plain_char, clean_char. rewrite !andb_true_iff. tauto.
Qed.

Lemma replaced_extension (stem ext : string) :
  JsMore.all_chars plain_char ext = true ->
  replaced (stem +:+ "." +:+ ext) = replaced stem +:+ "." +:+ ext.
Proof.
  intros H. destruct (plain_fixed ext H) as (H1 & H2 & H3).
  unfold replaced. rewrite replace_invalid_app. sapp.
  cbn [replace_invalid].
  change (if invalid_char "." then _ else _) with "."%char.
  rewrite H1, collapse_runs_app, H2, collapse_runs_app, H3 by reflexivity.
  reflexivity.
Qed.

Lemma replace_invalid_length (s : string) :
  String.length (replace_invalid s) = String.length s.
Proof. induction s as [|c s IH]; [reflexivity|]. cbn. now rewrite IH. Qed.

Lemma collapse_runs_length (p : ascii -> bool) (b : bool) (s : string) :
  (String.length (JsMore.collapse_runs p b s) <= String.length s)%nat.
Proof.
  revert b. induction s as [|c s IH]; intros b; [reflexivity|].
  pose proof (IH true). pose proof (IH false).
  cbn [JsMore.collapse_runs]. destruct (p c); [destruct b|]; cbn; lia.
Qed.

Lemma replaced_length (s : string) :
  (String.length (replaced s) <= String.length s)%nat.
Proof.
  unfold replaced.
  etransitivity; [apply collapse_runs_length|].
  etransitivity; [apply collapse_runs_length|].
  now rewrite replace_invalid_length.
Qed.

(** X11. Sanitising keeps a file acceptable: the settings page validates
    the file as chosen and stores it under its sanitised name, and a file
    that [validateAttachment] accepts is still accepted under that name
    (the extension survives, the name does not grow). *)
Theorem sanitizeFileName_keeps_accepted (file : File) :
  validateAttachment (Some file) = [] ->
  validateAttachment
    (Some {| size := size file;
             name := sanitizeFileName (name file);
             type := type file |}) = [].
Proof.
  rewrite !validateAttachment_spec. cbn [size name type].
  intros (Hsize & Hlen & ext & Hext & Hname).
  destruct (allowed_extension_plain ext Hext) as [Hplain Hne].
  destruct (plain_fixed ext Hplain) as (H1 & H2 & H3).
  assert (Hs : sanitizeFileName (name file) = replaced (name file)).
  { destruct (name file) as [|c s] eqn:E.
    - destruct Hname as [<- | (stem & Hn)]; [congruence|].
      destruct stem; sapp_in Hn; discriminate.
    - apply sanitizeFileName_replaced. }
  rewrite Hs. split; [assumption|]. split.
  - etransitivity; [apply replaced_length | assumption].
  - exists ext. split; [assumption|].
    destruct Hname as [-> | (stem & ->)].
    + left. unfold replaced. now rewrite H1, H2, H3.
    + right. exists (replaced stem). now apply replaced_extension.
Qed.

Lemma sanitizeFileName_keeps_accepted_witness :
  validateAttachment
    (Some {| size := 2048;
             name := sanitizeFileName "my cv: final.PDF";
             type := "" |}) = [].
Proof.
  apply (sanitizeFileName_keeps_accepted (mkFile 2048 "my cv: final.PDF" "")).
  reflexivity.
Defined.

End FileNames.

Section MimeTypes.
Import ValidatorFiles FileHandler.

(** X12. For a file that [validateFile] accepts and for which the browser
    reports no type, [getFileMimeType] finds one of the four document
    types: never the fallback [application/octet-stream], an image type, or
    an inherited property of the lookup table. *)
Theorem getFileMimeType_of_accepted (file : File) :
  isValid (validateFile (Some file)) = true ->
  type file = "" ->
  exists m,
    getFileMimeType (Some file) = MimeText m
    /\ In m [ "application/pdf"; "application/msword";
              "application/vnd.openxmlformats-officedocument.wordprocessingml.document";
              "text/plain" ].
Proof.
  intros Hv Ht. unfold getFileMimeType. rewrite Ht. cbn [Js.truthy].
  unfold validateFile, validateAttachment, fileExtension in Hv.
  cbn [isValid] in Hv.
  destruct (allowed _) eqn:Ha.
  2:{ destruct (_ <? _)%N; discriminate. }
  apply allowed_spec in Ha. unfold allowed_extensions in Ha. cbn [In] in Ha.
  destruct Ha as [<- | [<- | [<- | [<- | [] ] ] ] ];
    vm_compute; eexists; (split; [reflexivity|tauto]).
Qed.

Lemma getFileMimeType_of_accepted_witness :
  exists m,
    getFileMimeType (Some (mkFile 10 "notes.TXT" "")) = MimeText m
    /\ In m [ "application/pdf"; "application/msword";
              "application/vnd.openxmlformats-officedocument.wordprocessingml.document";
              "text/plain" ].
Proof. apply getFileMimeType_of_accepted; reflexivity. Defined.

End MimeTypes.

(** ** The stored template and its attachment *)

Section Storage.
Import Validator StorageServiceConfig.

Ltac unfold_storage :=
  unfold saveAttachment, clearAttachment, getAttachment, saveEmailConfig,
    StorageService.getEmailConfig, StorageService.getAuthToken,
    StorageService.saveAuthToken, StorageService.clearAuthToken,
    StorageService.chrome_storage_op,
    try_catch, bind, ret, throw, get, modify.

(** X13. [saveEmailConfig] stores all or nothing: either the configuration
    passes [validateConfig], the storage operation succeeds and the stored
    template is the configuration; or the call throws the one message
    ['Failed to save email configuration'] and the stored template is what
    it was.  An invalid configuration does not even reach the storage. *)
Theorem saveEmailConfig_all_or_nothing (env : Env)
    (config : option EmailConfig) (w : World) :
  (validateConfig config = []
   /\ storage_fails env (storageOps w) = false
   /\ saveEmailConfig env config w
      = (Return true, set_stored_config config (log_storageOp w)))
  \/ (exists w',
        saveEmailConfig env config w
        = (Throw (Error "Failed to save email configuration"), w')
        /\ stored_config w' = stored_config w
        /\ (validateConfig config <> [] -> w' = w)).
Proof.
  unfold_storage.
  destruct (validateConfig config) as [|e l] eqn:Hv;
    cbn [length Nat.ltb Nat.leb].
  - destruct (storage_fails env (storageOps w)) eqn:Hf.
    + right. eexists. split; [reflexivity|]. split; [reflexivity|].
      congruence.
    + left. auto.
  - right. exists w. auto.
Qed.

(** X14. An attachment cannot be saved before a template: with nothing
    stored, [saveAttachment] fails whatever it is given, and nothing is
    stored. *)
Theorem saveAttachment_needs_template (env : Env)
    (attachment : option StoredAttachment) (w : World) :
  stored_config w = None ->
  exists w',
    saveAttachment env attachment w
    = (Throw (Error "Failed to save attachment"), w')
    /\ stored_config w' = None.
Proof.
  intros Hc. unfold_storage. destruct attachment as [a|].
  - destruct (storage_fails env (storageOps w)); cbn; rewrite ?Hc; cbn;
      eexists; (split; [reflexivity|assumption]).
  - eauto.
Qed.

Lemma saveAttachment_needs_template_witness :
  exists w',
    saveAttachment Examples.online (Some MoreExamples.cv) Examples.fresh
    = (Throw (Error "Failed to save attachment"), w')
    /\ stored_config w' = None.
Proof. apply saveAttachment_needs_template. reflexivity. Defined.

Lemma saveEmailConfig_keeps_valid (env : Env) (config : option EmailConfig)
    (w : World) :
  valid_stored w -> valid_stored (snd (saveEmailConfig env config w)).
Proof.
  intros Hw. unfold_storage.
  destruct (validateConfig config) as [|e l] eqn:Hv;
    cbn [length Nat.ltb Nat.leb]; [|exact Hw].
  destruct (storage_fails env (storageOps w)); [exact Hw|].
  unfold valid_stored. cbn. destruct config; [assumption|exact I].
Qed.

(** X15. The stored template stays valid: if it passes [validateConfig]
    (or nothing is stored), it still does after [saveEmailConfig],
    [saveAttachment] and [clearAttachment], whatever they are given and
    whether they succeed or fail. *)
Theorem stored_config_stays_valid (env : Env)
    (config : option EmailConfig) (attachment : option StoredAttachment)
    (w : World) :
  valid_stored w ->
  valid_stored (snd (saveEmailConfig env config w))
  /\ valid_stored (snd (saveAttachment env attachment w))
  /\ valid_stored (snd (clearAttachment env w)).
Proof.
  intros Hw.
  assert (Hlog : valid_stored (log_storageOp w)) by exact Hw.
  split; [now apply saveEmailConfig_keeps_valid|]. split.
  - unfold saveAttachment, try_catch.
    destruct attachment as [a|]; [|exact Hw].
    unfold bind at 1. unfold StorageService.getEmailConfig, try_catch, bind,
      StorageService.chrome_storage_op.
    destruct (storage_fails env (storageOps w)); [exact Hw|].
    cbn [get throw].
    match goal with
    | |- valid_stored
           (snd (match saveEmailConfig env ?c ?w0 with _ => _ end)) =>
        pose proof (saveEmailConfig_keeps_valid env c w0 Hlog) as H;
        destruct (saveEmailConfig env c w0) as [[b|e|] w1]; exact H
    end.
  - unfold clearAttachment, try_catch.
    unfold bind at 1. unfold StorageService.getEmailConfig, try_catch, bind,
      StorageService.chrome_storage_op.
    destruct (storage_fails env (storageOps w)); [exact Hw|].
    cbn [get throw].
    change (stored_config (log_storageOp w)) with (stored_config w).
    destruct (stored_config w) as [c|]; [|exact Hw].
    match goal with
    | |- valid_stored
           (snd (match saveEmailConfig env ?c ?w0 with _ => _ end)) =>
        pose proof (saveEmailConfig_keeps_valid env c w0 Hlog) as H;
        destruct (saveEmailConfig env c w0) as [[b|e|] w1]; exact H
    end.
Qed.

Lemma stored_config_stays_valid_witness :
  valid_stored
    (snd (saveEmailConfig Examples.online None Examples.configured))
  /\ valid_stored
       (snd (saveAttachment Examples.online (Some MoreExamples.cv)
               Examples.configured))
  /\ valid_stored (snd (clearAttachment Examples.online Examples.configured)).
Proof. apply stored_config_stays_valid. reflexivity. Defined.

Lemma validateConfig_accepts (config : EmailConfig) :
  validateConfig (Some config) = []
  <-> nonblank (subject config) = true
      /\ nonblank (body config) = true
      /\ (missing (attachmentData config) = false ->
          missing (attachmentName config) = false
          /\ missing (attachmentType config) = false).
Proof.
  unfold validateConfig, nonblank.
  destruct (Js.truthy (Js.trim (subject config))) eqn:Hs.
  2:{ rewrite orb_true_r. split; [discriminate|]. intros [? _]; discriminate. }
  destruct (Js.truthy (Js.trim (body config))) eqn:Hb.
  2:{ rewrite orb_true_r. split.
      - destruct (_ || _); discriminate.
      - intros (_ & ? & _); discriminate. }
  rewrite (trim_truthy _ Hs), (trim_truthy _ Hb). cbn [negb orb andb app].
  destruct (missing (attachmentData config)); cbn [negb].
  - split; [|reflexivity]. intros _. repeat split; discriminate.
  - destruct (missing (attachmentName config)).
    { split; [discriminate|]. intros (_ & _ & H).
      destruct (H eq_refl); discriminate. }
    destruct (missing (attachmentType config)).
    { split; [discriminate|]. intros (_ & _ & H).
      destruct (H eq_refl); discriminate. }
    split; auto.
Qed.

(** The next three storage operations succeed. *)
Lemma three_operations (env : Env) (w : World) :
  (forall n, (n < 3)%nat -> storage_fails env (storageOps w + n) = false) ->
  storage_fails env (storageOps w) = false
  /\ storage_fails env (S (storageOps w)) = false
  /\ storage_fails env (S (S (storageOps w))) = false.
Proof.
  intros Hok.
  pose proof (Hok 0%nat ltac:(lia)) as H0. rewrite Nat.add_0_r in H0.
  pose proof (Hok 1%nat ltac:(lia)) as H1. rewrite Nat.add_1_r in H1.
  pose proof (Hok 2%nat ltac:(lia)) as H2.
  replace (storageOps w + 2)%nat with (S (S (storageOps w))) in H2 by lia.
  auto.
Qed.

(** X16. Round trip of the attachment: over a stored template with a
    subject and a body, a complete attachment (name, data and type all
    non-empty) that [saveAttachment] stores is what [getAttachment] returns
    next, and the template's subject and body are kept; the three storage
    operations involved are assumed to succeed. *)
Theorem saveAttachment_round_trip (env : Env) (attachment : StoredAttachment)
    (template : EmailConfig) (w : World) :
  stored_config w = Some template ->
  nonblank (subject template) = true ->
  nonblank (body template) = true ->
  missing (name attachment) = false ->
  missing (data attachment) = false ->
  missing (type attachment) = false ->
  (forall n, (n < 3)%nat -> storage_fails env (storageOps w + n) = false) ->
  exists w',
    (saveAttachment env (Some attachment) ;; getAttachment env) w
    = (Return (Some attachment), w')
    /\ stored_config w'
       = Some {| subject := subject template;
                 body := body template;
                 attachmentName := name attachment;
                 attachmentData := data attachment;
                 attachmentType := type attachment |}.
Proof.
  intros Hc Hs Hb Hn Hd Ht Hok.
  destruct (three_operations env w Hok) as (H0 & H1 & H2).
  set (updated := {| subject := subject template;
                     body := body template;
                     attachmentName := name attachment;
                     attachmentData := data attachment;
                     attachmentType := type attachment |}).
  assert (Hv : validateConfig (Some updated) = [])
    by (apply validateConfig_accepts; cbn; auto).
  unfold_storage.
  rewrite H0. cbn [stored_config log_storageOp from_option id].
  rewrite Hc. cbn [from_option id]. fold updated. rewrite Hv.
  cbn [length Nat.ltb Nat.leb storageOps log_storageOp]. rewrite H1.
  cbn [storageOps set_stored_config log_storageOp]. rewrite H2.
  cbn [stored_config set_stored_config log_storageOp attachmentData updated].
  rewrite Hd. subst updated.
  cbn [attachmentName attachmentData attachmentType].
  replace {| name := name attachment; data := data attachment;
             type := type attachment |} with attachment
    by (destruct attachment; reflexivity).
  eexists. split; reflexivity.
Qed.

Lemma saveAttachment_round_trip_witness :
  exists w',
    (saveAttachment Examples.online (Some MoreExamples.cv) ;;
     getAttachment Examples.online) Examples.configured
    = (Return (Some MoreExamples.cv), w')
    /\ stored_config w'
       = Some {| subject := subject Examples.template;
                 body := body Examples.template;
                 attachmentName := name MoreExamples.cv;
                 attachmentData := data MoreExamples.cv;
                 attachmentType := type MoreExamples.cv |}.
Proof.
  apply (saveAttachment_round_trip Examples.online MoreExamples.cv
           Examples.template);
    reflexivity.
Defined.

(** X17. After [clearAttachment], over a stored template with a subject
    and a body, [getAttachment] returns [null], the subject and the body
    are kept, and the next send goes out with no attachment; the three
    storage operations involved are assumed to succeed. *)
Theorem clearAttachment_clears (env : Env) (template : EmailConfig)
    (w : World) :
  stored_config w = Some template ->
  nonblank (subject template) = true ->
  nonblank (body template) = true ->
  (forall n, (n < 3)%nat -> storage_fails env (storageOps w + n) = false) ->
  exists w',
    (clearAttachment env ;; getAttachment env) w = (Return None, w')
    /\ stored_config w'
       = Some {| subject := subject template;
                 body := body template;
                 attachmentName := None;
                 attachmentData := None;
                 attachmentType := None |}
    /\ forall c, stored_config w' = Some c ->
                 EmailService._prepareAttachments c = [].
Proof.
  intros Hc Hs Hb Hok.
  destruct (three_operations env w Hok) as (H0 & H1 & H2).
  set (updated := {| subject := subject template;
                     body := body template;
                     attachmentName := None;
                     attachmentData := None;
                     attachmentType := None |}).
  assert (Hv : validateConfig (Some updated) = [])
    by (apply validateConfig_accepts; cbn; repeat split; auto; discriminate).
  unfold_storage.
  rewrite H0. cbn [stored_config log_storageOp].
  rewrite Hc. fold updated. rewrite Hv.
  cbn [length Nat.ltb Nat.leb storageOps log_storageOp]. rewrite H1.
  cbn [storageOps set_stored_config log_storageOp]. rewrite H2.
  cbn [stored_config set_stored_config log_storageOp attachmentData updated
       missing from_option id Js.truthy negb].
  eexists. split; [reflexivity|]. split; [reflexivity|].
  intros c [= <-]. reflexivity.
Qed.

Lemma clearAttachment_clears_witness :
  exists w',
    (clearAttachment Examples.online ;; getAttachment Examples.online)
      Examples.configured = (Return None, w')
    /\ stored_config w'
       = Some {| subject := subject Examples.template;
                 body := body Examples.template;
                 attachmentName := None;
                 attachmentData := None;
                 attachmentType := None |}
    /\ forall c, stored_config w' = Some c ->
                 EmailService._prepareAttachments c = [].
Proof.
  apply (clearAttachment_clears Examples.online Examples.template);
    reflexivity.
Defined.

(** X18. The two validators of the template agree up to the attachment: a
    configuration that [Validator.validateEmailConfig] accepts (the check
    of the send path and of the settings page) is accepted by
    [StorageService.validateConfig] exactly when its attachment, if it has
    data, also has a name and a type. *)
Theorem validators_agree (config : EmailConfig) :
  validateEmailConfig (Some config) = [] ->
  (validateConfig (Some config) = []
   <-> (missing (attachmentData config) = false ->
        missing (attachmentName config) = false
        /\ missing (attachmentType config) = false)).
Proof.
  intros H. rewrite validateConfig_accepts.
  assert (nonblank (subject config) = true /\ nonblank (body config) = true)
    as [Hs Hb].
  { revert H. unfold validateEmailConfig, nonblank.
    destruct (Js.truthy (Js.trim (subject config)));
      [|rewrite orb_true_r; discriminate].
    destruct (Js.truthy (Js.trim (body config))); [auto|].
    rewrite orb_true_r. destruct (_ || _); discriminate. }
  tauto.
Qed.

Lemma validators_agree_witness :
  validateConfig (Some Examples.template) = []
  <-> (missing (attachmentData Examples.template) = false ->
       missing (attachmentName Examples.template) = false
       /\ missing (attachmentType Examples.template) = false).
Proof. apply validators_agree. reflexivity. Defined.

End Storage.

(** ** Credentials: acquisition, refresh, status and listeners *)

Section Sessions.
Import ErrorHandler ErrorHandler.ERROR_TYPES AuthService AuthServiceStatus.

Lemma getUserMessage_returns (e : JsError) (w : World) :
  exists m, AuthService.getUserMessage e w = (Return m, w).
Proof.
  destruct (createErrorResponse_object e noContext) as (r & H & _).
  unfold ErrorHandler.createErrorResponse in H.
  unfold AuthService.getUserMessage.
  destruct (ErrorHandler.getUserMessage (RObject e)); [eauto|discriminate].
Qed.

(** The [catch] block of [authenticate] throws and leaves the world as it
    is. *)
Lemma authenticate_handler (e : JsError) (w : World) :
  exists e',
    (let errorType := classifyError (RObject e) in
     if String.eqb errorType VERIFICATION_REQUIRED
     then throw (Error "App verification required. Please add yourself as a test user in Google Cloud Console.")
     else
       m <- AuthService.getUserMessage e ;;
       throw (Error ("Authentication failed: " +:+ m))) w
    = (Throw e' : Outcome string, w).
Proof.
  cbv zeta. destruct (String.eqb _ _); [eexists; reflexivity|].
  unfold bind. destruct (getUserMessage_returns e w) as [m ->].
  eexists. reflexivity.
Qed.

Ltac unfold_authenticate :=
  unfold _getAuthToken, _notifyAuthStateChange,
    StorageService.saveAuthToken, StorageService.chrome_storage_op,
    try_catch, bind, ret, throw, get, modify.

(** Every way [authenticate] can end. *)
Lemma authenticate_outcome (env : Env) (interactive : bool) (w : World) :
  match authenticate env interactive w with
  | (Return token, w') =>
      token <> ""
      /\ getAuthToken_reply env (length (identityCalls w)) interactive
         = inl token
      /\ currentToken w' = Some token
      /\ stored_token w' = Some token
      /\ identityCalls w' = identityCalls w ++ [interactive]
      /\ notifications w' = notifications w ++ [(true, Some token)]
      /\ Js.truthy (clientId env) = true
  | (Throw _, w') =>
      stored_token w' = stored_token w
      /\ notifications w' = notifications w
      /\ identityCalls w'
         = (if Js.truthy (clientId env)
            then identityCalls w ++ [interactive] else identityCalls w)
      /\ (currentToken w' = currentToken w
          \/ exists token,
               getAuthToken_reply env (length (identityCalls w)) interactive
               = inl token
               /\ storage_fails env (storageOps w) = true
               /\ currentToken w' = Some token)
  | (OutOfFuel, _) => False
  end.
Proof.
  unfold authenticate. unfold try_catch at 1.
  match goal with
  | |- context [match ?body w with _ => _ end] =>
      destruct (body w) as [[token|e|] w1] eqn:Hbody
  end.
  - revert Hbody. unfold_authenticate.
    destruct (Js.truthy (clientId env)); [|discriminate]. cbn [negb].
    destruct (getAuthToken_reply env _ interactive) as [t|err];
      [|discriminate].
    destruct (Js.truthy t) eqn:Ht; [|discriminate]. cbn [negb].
    destruct (storage_fails env _); [discriminate|].
    intros [= <- <-]. cbn. repeat split; auto. now destruct t.
  - destruct (authenticate_handler e w1) as [e' He]. cbv zeta in He.
    rewrite He. clear He. revert Hbody. unfold_authenticate.
    destruct (Js.truthy (clientId env)); cbn [negb];
      [|intros [= <- <-]; auto].
    destruct (getAuthToken_reply env _ interactive) as [t|err];
      [|intros [= <- <-]; cbn; auto].
    destruct (Js.truthy t) eqn:Ht; [|intros [= <- <-]; cbn; auto].
    cbn [negb storageOps set_currentToken].
    destruct (storage_fails env _) eqn:Hf; intros [= <- <-]; cbn.
    repeat split; auto. right. exists t. auto.
  - exfalso. revert Hbody. unfold_authenticate.
    destruct (Js.truthy (clientId env)); [|discriminate]. cbn [negb].
    destruct (getAuthToken_reply env _ interactive) as [t|err];
      [|discriminate].
    destruct (Js.truthy t) eqn:Ht; [|discriminate]. cbn [negb].
    destruct (storage_fails env _); discriminate.
Qed.

(** X19. When [authenticate] returns a token, the token is not empty, it
    is the one the identity provider granted in the one call that was
    made, it is both in memory and in storage, and the listeners were told
    so. *)
Theorem authenticate_success (env : Env) (interactive : bool)
    (w w' : World) (token : string) :
  authenticate env interactive w = (Return token, w') ->
  token <> ""
  /\ getAuthToken_reply env (length (identityCalls w)) interactive = inl token
  /\ currentToken w' = Some token
  /\ stored_token w' = Some token
  /\ identityCalls w' = identityCalls w ++ [interactive]
  /\ notifications w' = notifications w ++ [(true, Some token)].
Proof.
  intros H. pose proof (authenticate_outcome env interactive w) as Ho.
  rewrite H in Ho. tauto.
Qed.

Lemma authenticate_success_witness :
  "tok" <> ""
  /\ getAuthToken_reply Examples.online
       (length (identityCalls Examples.fresh)) true = inl "tok"
  /\ currentToken (snd (authenticate Examples.online true Examples.fresh))
     = Some "tok"
  /\ stored_token (snd (authenticate Examples.online true Examples.fresh))
     = Some "tok"
  /\ identityCalls (snd (authenticate Examples.online true Examples.fresh))
     = identityCalls Examples.fresh ++ [true]
  /\ notifications (snd (authenticate Examples.online true Examples.fresh))
     = notifications Examples.fresh ++ [(true, Some "tok")].
Proof.
  apply (authenticate_success Examples.online true Examples.fresh).
  reflexivity.
Defined.

(** X20. When the identity provider grants a token and saving it fails,
    [authenticate] throws, and yet the token is already the in-memory
    credential: the field is written before the save.  Storage and
    listeners know nothing of it. *)
Theorem authenticate_save_failure (env : Env) (interactive : bool)
    (w : World) (token : string) :
  Js.truthy (clientId env) = true ->
  getAuthToken_reply env (length (identityCalls w)) interactive = inl token ->
  Js.truthy token = true ->
  storage_fails env (storageOps w) = true ->
  exists w',
    authenticate env interactive w
    = (Throw (Error "Authentication failed: An unexpected error occurred. Please try again."),
       w')
    /\ currentToken w' = Some token
    /\ stored_token w' = stored_token w
    /\ notifications w' = notifications w.
Proof.
  intros Hc Hr Ht Hf.
  unfold authenticate. unfold_authenticate.
  rewrite Hc. cbn [negb]. rewrite Hr, Ht.
  cbn [negb storageOps set_currentToken log_identityCall].
  rewrite Hf. eexists. split; [reflexivity|]. cbn. auto.
Qed.

Lemma authenticate_save_failure_witness :
  exists w',
    authenticate MoreExamples.storage_down true Examples.fresh
    = (Throw (Error "Authentication failed: An unexpected error occurred. Please try again."),
       w')
    /\ currentToken w' = Some "tok"
    /\ stored_token w' = stored_token Examples.fresh
    /\ notifications w' = notifications Examples.fresh.
Proof. apply authenticate_save_failure; reflexivity. Defined.

(** Follow a method whose calls of [authenticate] and [getUserMessage] are
    left folded. *)
Ltac walk :=
  repeat (split_match;
          cbn -[authenticate clearTokens AuthService.getUserMessage
                String.append ErrorHandler.classifyError String.eqb] in *;
          try congruence).

Ltac user_message :=
  repeat match goal with
         | H : AuthService.getUserMessage ?e ?w = _ |- _ =>
             let m := fresh "m" in
             let Hm := fresh "Hm" in
             destruct (getUserMessage_returns e w) as [m Hm];
             rewrite Hm in H; clear Hm; inversion H; subst; clear H
         end.

Ltac authenticated :=
  repeat match goal with
         | H : authenticate ?env ?i ?w = _ |- _ =>
             let Ho := fresh "Ho" in
             pose proof (authenticate_outcome env i w) as Ho;
             rewrite H in Ho; clear H;
             cbn -[String.append] in Ho
         end.

(** Every way [getValidToken] can end. *)
Lemma getValidToken_outcome (env : Env) (w : World) :
  match getValidToken env w with
  | (Return token, w') => token <> "" /\ currentToken w' = Some token
  | (Throw e, w') =>
      exists m, e = Error ("Failed to get valid token: " +:+ m)
  | (OutOfFuel, _) => False
  end.
Proof.
  unfold getValidToken, _validateToken, StorageService.getAuthToken,
    StorageService.chrome_storage_op, try_catch, bind, ret, throw, get,
    modify.
  destruct w as [cur ini st cfg ic rt tc sc so sl rc nt].
  cbn -[authenticate AuthService.getUserMessage String.append].
  walk; user_message; authenticated; eauto.
  all: try (destruct Ho as (? & _ & ? & _); now auto).
  all: try (destruct cur as [[|c cur]|]; cbn in *; try discriminate;
            split; [discriminate|reflexivity]).
  all: split; [intros ->; discriminate | reflexivity].
Qed.

(** X21. However [getValidToken] found the token it returns (in memory,
    in storage, or from the identity provider), the token is not empty and
    it is the in-memory credential afterwards. *)
Theorem getValidToken_success (env : Env) (w w' : World) (token : string) :
  getValidToken env w = (Return token, w') ->
  token <> "" /\ currentToken w' = Some token.
Proof.
  intros H. pose proof (getValidToken_outcome env w) as Ho.
  now rewrite H in Ho.
Qed.

Lemma getValidToken_success_witness :
  "tok" <> ""
  /\ currentToken (snd (getValidToken Examples.online Examples.configured))
     = Some "tok".
Proof.
  apply (getValidToken_success Examples.online Examples.configured).
  reflexivity.
Defined.

(** [clearTokens], by whether its storage operation fails. *)
Lemma clearTokens_unfold (env : Env) (w : World) :
  clearTokens env w
  = if storage_fails env (storageOps w)
    then (Throw (Error "Failed to clear tokens"),
          log_storageOp (uncached w))
    else (Return true,
          log_notification false None
            (set_currentToken None
               (set_stored_token None (log_storageOp (uncached w))))).
Proof.
  unfold clearTokens, uncached, _notifyAuthStateChange,
    StorageService.clearAuthToken, StorageService.chrome_storage_op,
    try_catch, bind, ret, throw, get, modify.
  destruct (currentToken w) as [t|]; [destruct (Js.truthy t)|];
    cbn [storageOps log_removedToken];
    destruct (storage_fails env (storageOps w)); reflexivity.
Qed.

(** X22. A failed [clearTokens] is a partial one: when the storage
    operation fails, the call throws after it has removed the in-memory
    token from the cache of the identity provider, and the token is still
    the in-memory credential and still in storage. *)
Theorem clearTokens_failure_is_partial (env : Env) (w : World) (t : string) :
  storage_fails env (storageOps w) = true ->
  currentToken w = Some t -> t <> "" ->
  exists w',
    clearTokens env w = (Throw (Error "Failed to clear tokens"), w')
    /\ removedTokens w' = removedTokens w ++ [t]
    /\ currentToken w' = Some t
    /\ stored_token w' = stored_token w
    /\ notifications w' = notifications w.
Proof.
  intros Hf Hc Ht. rewrite clearTokens_unfold, Hf. eexists.
  split; [reflexivity|]. unfold uncached. rewrite Hc.
  destruct t; [congruence|]. cbn. auto.
Qed.

Lemma clearTokens_failure_is_partial_witness :
  exists w',
    clearTokens MoreExamples.storage_down Examples.ready
    = (Throw (Error "Failed to clear tokens"), w')
    /\ removedTokens w' = removedTokens Examples.ready ++ ["tok"]
    /\ currentToken w' = Some "tok"
    /\ stored_token w' = stored_token Examples.ready
    /\ notifications w' = notifications Examples.ready.
Proof.
  apply clearTokens_failure_is_partial; [reflexivity|reflexivity|discriminate].
Defined.

Lemma uncached_identityCalls (w : World) :
  identityCalls (uncached w) = identityCalls w.
Proof.
  unfold uncached.
  destruct (currentToken w) as [t|]; [destruct (Js.truthy t)|]; reflexivity.
Qed.

(** [authenticate], by what the environment answers. *)
Lemma authenticate_unfold (env : Env) (interactive : bool) (w : World) :
  exists e,
    authenticate env interactive w
    = if negb (Js.truthy (clientId env)) then (Throw e, w)
      else
        match getAuthToken_reply env (length (identityCalls w)) interactive
        with
        | inl token =>
            if Js.truthy token then
              if storage_fails env (storageOps w)
              then (Throw e,
                    log_storageOp
                      (set_currentToken (Some token)
                         (log_identityCall interactive w)))
              else (Return token,
                    log_notification true (Some token)
                      (set_stored_token (Some token)
                         (log_storageOp
                            (set_currentToken (Some token)
                               (log_identityCall interactive w)))))
            else (Throw e, log_identityCall interactive w)
        | inr _ => (Throw e, log_identityCall interactive w)
        end.
Proof.
  unfold authenticate. unfold try_catch at 1.
  match goal with
  | |- context [match ?body w with _ => _ end] =>
      destruct (body w) as [[token|e|] w1] eqn:Hbody
  end.
  - exists (Error ""). revert Hbody. unfold_authenticate.
    destruct (Js.truthy (clientId env)); [|discriminate]. cbn [negb].
    destruct (getAuthToken_reply env _ interactive) as [t|err];
      [|discriminate].
    destruct (Js.truthy t) eqn:Ht; [|discriminate]. cbn [negb].
    cbn [storageOps set_currentToken log_identityCall].
    destruct (storage_fails env _); [discriminate|].
    intros [= <- <-]. reflexivity.
  - destruct (authenticate_handler e w1) as [e' He]. cbv zeta in He.
    rewrite He. clear He. exists e'. revert Hbody. unfold_authenticate.
    destruct (Js.truthy (clientId env)); cbn [negb];
      [|intros [= <- <-]; auto].
    destruct (getAuthToken_reply env _ interactive) as [t|err];
      [|intros [= <- <-]; cbn; auto].
    destruct (Js.truthy t) eqn:Ht; [|intros [= <- <-]; cbn; auto].
    cbn [negb storageOps set_currentToken log_identityCall].
    destruct (storage_fails env _) eqn:Hf; intros [= <- <-]; reflexivity.
  - exfalso. revert Hbody. unfold_authenticate.
    destruct (Js.truthy (clientId env)); [|discriminate]. cbn [negb].
    destruct (getAuthToken_reply env _ interactive) as [t|err];
      [|discriminate].
    destruct (Js.truthy t) eqn:Ht; [|discriminate]. cbn [negb].
    destruct (storage_fails env _); discriminate.
Qed.


Ltac refresh_step :=
  first
    [ match goal with
      | |- context [authenticate ?env ?i ?w0] =>
          let e := fresh "e" in
          destruct (authenticate_unfold env i w0) as [e ->]
      end
    | match goal with
      | |- context [AuthService.getUserMessage ?e ?w0] =>
          let m := fresh "m" in
          destruct (getUserMessage_returns e w0) as [m ->]
      end
    | match goal with
      | H : ?x = _ |- context [match ?x with _ => _ end] => rewrite H
      | H : ?x = _ |- context [if ?x then _ else _] => rewrite H
      end
    | split_match ];
  cbn -[authenticate AuthService.getUserMessage String.append
        refresh_prompts] in *.

(** X23. The calls [refreshToken] makes to the identity provider are
    decided by the environment, and are those of [refresh_prompts]: none
    when no client id is configured; an interactive call alone when clearing
    the tokens has failed; one silent call when the silent attempt is
    granted a token and the token is saved; the silent call followed by one
    interactive call otherwise.  A token it returns is the one granted by
    the last of these calls, and it returns one whenever the silent call
    alone is made.  It never prompts twice. *)
Theorem refreshToken_prompts (env : Env) (w : World) :
  identityCalls (snd (refreshToken env w))
  = identityCalls w ++ refresh_prompts env w
  /\ match fst (refreshToken env w) with
     | Return token =>
         (refresh_prompts env w = [false]
          /\ getAuthToken_reply env (length (identityCalls w)) false
             = inl token)
         \/ (refresh_prompts env w = [true]
             /\ getAuthToken_reply env (length (identityCalls w)) true
                = inl token)
         \/ (refresh_prompts env w = [false; true]
             /\ getAuthToken_reply env (S (length (identityCalls w))) true
                = inl token)
     | Throw _ => refresh_prompts env w <> [false]
     | OutOfFuel => False
     end.
Proof.
  unfold refreshToken, try_catch, bind, ret, throw.
  rewrite !clearTokens_unfold. unfold uncached.
  destruct w as [cur ini st cfg ic rt tc sc so sl rc nt].
  cbn -[authenticate AuthService.getUserMessage String.append
        refresh_prompts].
  destruct cur as [t|]; [destruct (Js.truthy t)|].
  all: cbn -[authenticate AuthService.getUserMessage String.append
             refresh_prompts].
  all: repeat refresh_step.
  all: unfold refresh_prompts;
    cbn [identityCalls storageOps length];
    repeat match goal with
      | H : ?x = _ |- context [?x] => rewrite H
      end;
    cbn [negb andb];
    rewrite <- ?app_assoc, ?app_nil_r; cbn [app].
  all: (split; [reflexivity|]).
  all: try discriminate.
  all: repeat match goal with
         | H : context [length (_ ++ _)] |- _ =>
             rewrite length_app, Nat.add_1_r in H
         end.
  all: first
         [ left; split; [reflexivity|congruence]
         | right; left; split; [reflexivity|congruence]
         | right; right; split; [reflexivity|congruence] ].
Qed.

(** X24. [getAuthStatus] always returns a status and never throws; it
    reports on the stored token and not on the in-memory one (the answer is
    the same whatever credential is in memory); [tokenValid] repeats
    [isAuthenticated], which implies [hasToken]; and the call changes no
    credential and makes no call to the identity provider. *)
Theorem getAuthStatus_reads_storage (env : Env) (w : World)
    (memory : option string) :
  exists status w',
    getAuthStatus env w = (Return status, w')
    /\ tokenValid status = isAuthenticated status
    /\ (isAuthenticated status = true -> hasToken status = true)
    /\ currentToken w' = currentToken w
    /\ stored_token w' = stored_token w
    /\ identityCalls w' = identityCalls w
    /\ fst (getAuthStatus env (set_currentToken memory w)) = Return status.
Proof.
  unfold getAuthStatus, _validateToken, StorageService.getAuthToken,
    StorageService.chrome_storage_op, try_catch, bind, ret, throw, get,
    modify.
  destruct w as [cur ini st cfg ic rt tc sc so sl rc nt].
  cbn [storageOps set_currentToken stored_token log_storageOp tokeninfoCalls
       currentToken identityCalls].
  destruct (storage_fails env so).
  - do 2 eexists. cbn. repeat split; auto; discriminate.
  - cbn [stored_token log_storageOp].
    destruct st as [[|c s]|]; cbn [Js.truthy from_option id negb];
      do 2 eexists; cbn; repeat split; auto; discriminate.
Qed.

(** X25. [removeAuthStateListener] removes one registration, the first: a
    callback that is not registered leaves the list as it is; otherwise the
    first occurrence goes and every other listener keeps its place.  A
    callback registered twice is therefore still registered after it was
    removed once. *)
Theorem removeAuthStateListener_first_only (f : nat) (listeners : Listeners) :
  (~ In f listeners ->
   removeAuthStateListener (Some f) listeners = listeners)
  /\ (forall before after,
        listeners = before ++ f :: after -> ~ In f before ->
        removeAuthStateListener (Some f) listeners = before ++ after)
  /\ In f (removeAuthStateListener (Some f)
             (onAuthStateChanged (Some f)
                (onAuthStateChanged (Some f) listeners))).
Proof.
  assert (Hnone : forall l, ~ In f l -> indexOf f l = None).
  { induction l as [|g l IH]; [reflexivity|]. cbn. intros H.
    destruct (Nat.eqb_spec g f) as [->|Hne]; [tauto|].
    rewrite IH; tauto. }
  assert (Hsome : forall before after, ~ In f before ->
             indexOf f (before ++ f :: after) = Some (length before)).
  { induction before as [|g l IH]; intros after H; cbn.
    - now rewrite Nat.eqb_refl.
    - destruct (Nat.eqb_spec g f) as [->|Hne]; [cbn in H; tauto|].
      rewrite IH; [reflexivity|]. cbn in H. tauto. }
  assert (Hdel : forall (before after : list nat),
             delete (length before) (before ++ f :: after) = before ++ after).
  { induction before as [|g l IH]; intros after; cbn; [reflexivity|].
    now rewrite IH. }
  assert (Hfirst : forall before after, ~ In f before ->
             removeAuthStateListener (Some f) (before ++ f :: after)
             = before ++ after).
  { intros before after H. unfold removeAuthStateListener.
    now rewrite Hsome, Hdel. }
  split; [|split].
  - intros H. unfold removeAuthStateListener. now rewrite Hnone.
  - intros before after -> H. now apply Hfirst.
  - unfold onAuthStateChanged.
    destruct (in_dec Nat.eq_dec f listeners) as [Hin|Hout].
    + apply in_split in Hin as (l1 & l2 & ->).
      assert (exists before after,
                 l1 ++ f :: l2 = before ++ f :: after /\ ~ In f before)
        as (before & after & E & Hb).
      { clear. induction l1 as [|g l1 IH]; cbn.
        - exists [], l2. auto.
        - destruct (Nat.eq_dec g f) as [->|Hne].
          + exists [], (l1 ++ f :: l2). auto.
          + destruct IH as (b & a & E & Hb). exists (g :: b), a.
            cbn. rewrite E. split; [reflexivity|]. cbn. tauto. }
      rewrite E, <- !app_assoc. cbn [app]. rewrite Hfirst by assumption.
      rewrite ?in_app_iff. cbn. rewrite ?in_app_iff. cbn. tauto.
    + rewrite <- app_assoc. cbn [app].
      rewrite (Hfirst listeners [f]) by assumption.
      rewrite ?in_app_iff. cbn. tauto.
Qed.

End Sessions.

(** ** The transport and the orchestrator as a whole *)

Section Sending.
Import ErrorHandler ErrorHandler.ERROR_TYPES GmailApiService
  GmailApiServiceTest.

Lemma keeps_posts_ret {A} (a : A) : keeps_posts (ret a).
Proof. now intros w. Qed.

Lemma keeps_posts_throw {A} (e : JsError) : keeps_posts (@throw A e).
Proof. now intros w. Qed.

Lemma keeps_posts_get {A} (f : World -> A) : keeps_posts (get f).
Proof. now intros w. Qed.

Lemma keeps_posts_modify (f : World -> World) :
  (forall w, sendCalls (f w) = sendCalls w) -> keeps_posts (modify f).
Proof. intros H w. apply H. Qed.

Lemma keeps_posts_bind {A B} (m : M A) (k : A -> M B) :
  keeps_posts m -> (forall a, keeps_posts (k a)) -> keeps_posts (bind m k).
Proof.
  intros Hm Hk w. unfold bind. specialize (Hm w).
  destruct (m w) as [[a|e|] w1]; cbn [snd] in *; [|assumption..].
  now rewrite Hk.
Qed.

Lemma keeps_posts_try_catch {A} (m : M A) (handler : JsError -> M A) :
  keeps_posts m -> (forall e, keeps_posts (handler e)) ->
  keeps_posts (try_catch m handler).
Proof.
  intros Hm Hh w. unfold try_catch. specialize (Hm w).
  destruct (m w) as [[a|e|] w1]; cbn [snd] in *; [assumption| |assumption].
  now rewrite Hh.
Qed.

Lemma keeps_posts_chrome_storage_op (env : Env) :
  keeps_posts (StorageService.chrome_storage_op env).
Proof.
  intros w. unfold StorageService.chrome_storage_op.
  now destruct (storage_fails env _).
Qed.

Lemma keeps_posts_getAuthToken (env : Env) (interactive : bool) :
  keeps_posts (AuthService._getAuthToken env interactive).
Proof.
  intros w. unfold AuthService._getAuthToken.
  now destruct (getAuthToken_reply env _ _).
Qed.

Lemma keeps_posts_validateToken (env : Env) (token : string) :
  keeps_posts (AuthService._validateToken env token).
Proof.
  intros w. unfold AuthService._validateToken.
  now destruct (negb (Js.truthy token)).
Qed.

Lemma keeps_posts_getUserMessage (e : JsError) :
  keeps_posts (AuthService.getUserMessage e).
Proof.
  intros w. unfold AuthService.getUserMessage.
  now destruct (ErrorHandler.getUserMessage _).
Qed.

Ltac keeps :=
  repeat first
    [ assumption
    | progress cbv zeta
    | apply keeps_posts_ret
    | apply keeps_posts_throw
    | apply keeps_posts_get
    | apply keeps_posts_modify; intros ?; reflexivity
    | apply keeps_posts_chrome_storage_op
    | apply keeps_posts_getAuthToken
    | apply keeps_posts_validateToken
    | apply keeps_posts_getUserMessage
    | apply keeps_posts_bind; [|intros ?]
    | apply keeps_posts_try_catch; [|intros ?]
    | match goal with
      | |- keeps_posts (if ?b then _ else _) => destruct b
      | |- keeps_posts (match ?x with _ => _ end) => destruct x
      end ].

Lemma keeps_posts_authenticate (env : Env) (interactive : bool) :
  keeps_posts (AuthService.authenticate env interactive).
Proof.
  unfold AuthService.authenticate, StorageService.saveAuthToken,
    AuthService._notifyAuthStateChange.
  keeps.
Qed.

Lemma keeps_posts_clearTokens (env : Env) :
  keeps_posts (AuthService.clearTokens env).
Proof.
  unfold AuthService.clearTokens, StorageService.clearAuthToken,
    AuthService._notifyAuthStateChange.
  keeps.
Qed.

Lemma keeps_posts_getValidToken (env : Env) :
  keeps_posts (AuthService.getValidToken env).
Proof.
  pose proof (keeps_posts_authenticate env true).
  unfold AuthService.getValidToken, StorageService.getAuthToken.
  keeps.
Qed.

Lemma keeps_posts_handleAuthError (env : Env) (error : JsError) :
  keeps_posts (AuthService.handleAuthError env error).
Proof.
  pose proof (keeps_posts_authenticate env true).
  pose proof (keeps_posts_authenticate env false).
  pose proof (keeps_posts_clearTokens env).
  unfold AuthService.handleAuthError, AuthService.refreshToken.
  keeps.
Qed.

(** What a call made after some POSTs settles to, seen from before them. *)
Lemma settled_send_after (env : Env) (emailData : EmailData)
    (attachments : list Attachment) (w w1 : World)
    (posts : list (string * string))
    (r : Outcome SendResult * World) :
  sendCalls w1 = sendCalls w ++ posts ->
  settled_send env emailData attachments w1 r ->
  settled_send env emailData attachments w r.
Proof.
  intros Hw (posts' & Hposts & H). exists (posts ++ posts').
  rewrite Hposts, Hw, <- app_assoc. split; [reflexivity|].
  destruct (fst r) as [[id tid|resp]|e|]; try assumption.
  destruct H as (earlier & token & boundary & -> & H).
  exists (posts ++ earlier), token, boundary. cbv zeta in *.
  rewrite <- app_assoc. split; [reflexivity|].
  now rewrite Hw, <- app_assoc in H.
Qed.

Lemma settled_send_same (env : Env) (emailData : EmailData)
    (attachments : list Attachment) (w w1 : World)
    (r : Outcome SendResult * World) :
  sendCalls w1 = sendCalls w ->
  settled_send env emailData attachments w1 r ->
  settled_send env emailData attachments w r.
Proof.
  intros Hw. apply (settled_send_after _ _ _ _ _ []).
  now rewrite app_nil_r.
Qed.

Lemma createErrorResponse_settled (env : Env) (emailData : EmailData)
    (attachments : list Attachment) (e : JsError) (ctx : Context)
    (w : World) :
  settled_send env emailData attachments w
    ((r <- GmailApiService.createErrorResponse e ctx ;;
      ret (SendFailed r)) w).
Proof.
  destruct (createErrorResponse_returns e ctx w)
    as (r & Hr & H1 & _ & _ & _ & H5 & _).
  unfold bind. rewrite Hr. exists []. cbn. rewrite app_nil_r.
  split; [reflexivity|]. split; [assumption|]. split; [|assumption].
  unfold GmailApiService.createErrorResponse in Hr.
  destruct (ErrorHandler.createErrorResponse (RObject e) ctx) as [r'|] eqn:E;
    [|discriminate].
  injection Hr as ->.
  now apply (createErrorResponse_message e ctx).
Qed.

Lemma retryWithBackoff_settles (env : Env)
    (send : EmailData -> list Attachment -> M SendResult) :
  (forall emailData attachments w,
     settled_send env emailData attachments w
       (send emailData attachments w)) ->
  forall fuel emailData attachments attempt w,
    settled_send env emailData attachments w
      (_retryWithBackoff send fuel emailData attachments attempt w).
Proof.
  intros Hsend.
  induction fuel as [|fuel IH]; intros emailData attachments attempt w;
    cbn [_retryWithBackoff]; destruct (maxRetries <? attempt)%nat;
    try apply createErrorResponse_settled.
  - exists []. cbn. now rewrite app_nil_r.
  - unfold try_catch, bind, sleep, modify.
    pose proof (Hsend emailData attachments
                  (log_sleep (2 ^ Z.of_nat attempt * 1000) w)) as H.
    apply (settled_send_same _ _ _ w) in H; [|reflexivity].
    destruct (send emailData attachments _) as [[r|e'|] w'] eqn:Hs;
      [assumption| |assumption].
    destruct H as (? & _ & []).
Qed.

(** One attempt makes at most one POST. *)
Lemma attempt_posts (env : Env) (emailData : EmailData)
    (attachments : list Attachment) (w : World) :
  exists posts,
    sendCalls
      (snd ((token <- AuthService.getValidToken env ;;
             boundary <- _generateBoundary env ;;
             response <- _makeApiRequest env token
                           (_buildEmailMessage boundary emailData
                              attachments) ;;
             ret (SendOk (fst response) (snd response))) w))
    = sendCalls w ++ posts.
Proof.
  unfold bind at 1.
  pose proof (keeps_posts_getValidToken env w) as Hk.
  destruct (AuthService.getValidToken env w) as [[token|e|] w1];
    cbn [snd] in Hk |- *;
    [|exists []; now rewrite app_nil_r..].
  unfold bind at 1. unfold _generateBoundary. unfold bind.
  match goal with
  | |- context [_makeApiRequest env token ?m ?w2] =>
      pose proof (makeApiRequest_world env token m w2) as Hw;
      destruct (_makeApiRequest env token m w2) as [[r|e|] w3]
  end; cbn [snd] in Hw |- *; subst w3; unfold ret;
    cbn [snd sendCalls log_sendCall log_randomCall]; rewrite Hk; eauto.
Qed.

Lemma handleApiError_settles (env : Env) (fuel : nat) :
  (forall emailData attachments w,
     settled_send env emailData attachments w
       (sendEmail env fuel emailData attachments w)) ->
  forall error emailData attachments w,
    settled_send env emailData attachments w
      (_handleApiError env (sendEmail env fuel) fuel error emailData
         attachments w).
Proof.
  intros IH error emailData attachments w. unfold _handleApiError.
  destruct (String.eqb _ TOKEN_EXPIRED).
  { unfold try_catch, bind.
    pose proof (keeps_posts_handleAuthError env error w) as Hk.
    destruct (AuthService.handleAuthError env error w) as [[t|e|] w1];
      cbn [snd] in Hk.
    - pose proof (IH emailData attachments w1) as H.
      apply (settled_send_same _ _ _ w) in H; [|assumption].
      destruct (sendEmail env fuel emailData attachments w1)
        as [[r|e|] w2]; [assumption| |assumption].
      destruct H as (? & _ & []).
    - apply (settled_send_same _ _ _ w w1); [assumption|].
      apply createErrorResponse_settled.
    - exists []. cbn [fst snd]. now rewrite app_nil_r. }
  destruct (String.eqb _ RATE_LIMIT).
  { unfold _handleRateLimit, bind, sleep, modify.
    match goal with
    | |- context [log_sleep ?ms w] =>
        apply (settled_send_same _ _ _ w (log_sleep ms w)); [reflexivity|]
    end.
    now apply retryWithBackoff_settles. }
  destruct (String.eqb _ NETWORK_ERROR).
  { now apply retryWithBackoff_settles. }
  apply createErrorResponse_settled.
Qed.

(** X26. Whatever the environment does, [sendEmail] never throws, and the
    POSTs in the log after the call are those before it followed by the ones
    the call made.  When it reports success, it has made a POST, and the
    identifiers it returns are the ones the endpoint gave in answer to the
    last POST it made, which carried a message built from [emailData] and
    [attachments]; when it reports failure, the response has
    [success: false], one of the seven fixed messages, and the
    [isRetryable] flag of its kind. *)
Theorem sendEmail_settles (env : Env) :
  forall fuel emailData attachments w,
    settled_send env emailData attachments w
      (sendEmail env fuel emailData attachments w).
Proof.
  induction fuel as [|fuel IH]; intros emailData attachments w.
  - exists []. cbn. now rewrite app_nil_r.
  - cbn [sendEmail]. unfold try_catch at 1.
    match goal with
    | |- context [match ?body w with _ => _ end] =>
        destruct (body w) as [[r|e'|] w'] eqn:Hbody
    end.
    + apply bind_return_inv in Hbody as (token & w1 & Htok & Hbody).
      apply bind_return_inv in Hbody as (boundary & w2 & Hb & Hbody).
      apply bind_return_inv in Hbody as ([id tid] & w3 & Hreq & Hbody).
      injection Hbody as <- <-.
      pose proof (keeps_posts_getValidToken env w) as Hk.
      rewrite Htok in Hk. cbn [snd] in Hk.
      unfold _generateBoundary in Hb. injection Hb as <- <-.
      pose proof (makeApiRequest_world env token
                    (_buildEmailMessage
                       ("boundary_" +:+ Js.substr 2 9
                          (random36 env (randomCalls w1)))
                       emailData attachments)
                    (log_randomCall w1)) as Hw3.
      unfold _makeApiRequest in Hreq.
      destruct (send_reply env _ _ _) as [e|st m ra|i t] eqn:Hreply;
        try discriminate.
      injection Hreq as <- <- <-.
      eexists [_]. cbn [fst snd log_sendCall sendCalls log_randomCall].
      rewrite Hk. split; [reflexivity|].
      exists [], token, ("boundary_" +:+ Js.substr 2 9
                              (random36 env (randomCalls w1))).
      cbv zeta. split; [reflexivity|].
      rewrite app_nil_r.
      cbn [sendCalls log_randomCall] in Hreply. rewrite Hk in Hreply.
      exact Hreply.
    + destruct (attempt_posts env emailData attachments w) as (posts & Hp).
      rewrite Hbody in Hp. cbn [snd] in Hp.
      apply (settled_send_after _ _ _ w w' posts); [assumption|].
      now apply handleApiError_settles.
    + destruct (attempt_posts env emailData attachments w) as (posts & Hp).
      rewrite Hbody in Hp. cbn [snd] in Hp.
      exists posts. now split.
Qed.

(** X27. The retries of a rate-limited send are not bounded either: when
    the endpoint answers every POST with a rate-limit error (and the
    in-memory token is live), [sendEmail] has, whatever number [fuel] of
    nested calls is allowed, made [fuel] POSTs and returned nothing.  Each
    round re-enters [_retryWithBackoff] with attempt 1. *)
Theorem sendEmail_rate_limit_never_returns (env : Env)
    (emailData : EmailData) (attachments : list Attachment) (t : string)
    (w : World) :
  endpoint_always_fails_with env RATE_LIMIT ->
  currentToken w = Some t ->
  Js.truthy t = true ->
  (forall n, tokeninfo_ok env n t = true) ->
  forall fuel,
  exists w',
    sendEmail env fuel emailData attachments w = (OutOfFuel, w')
    /\ length (sendCalls w') = (length (sendCalls w) + fuel)%nat.
Proof.
  intros Hnet Hcur Ht Hlive fuel. revert w Hcur.
  cut (forall w, currentToken w = Some t ->
         exists w',
           sendEmail env fuel emailData attachments w = (OutOfFuel, w')
           /\ length (sendCalls w') = (length (sendCalls w) + fuel)%nat
           /\ currentToken w' = Some t).
  { intros H w Hcur. destruct (H w Hcur) as (w' & H1 & H2 & _). eauto. }
  induction fuel as [|fuel IH]; intros w Hcur.
  - exists w. cbn. split; [reflexivity|]. split; [lia|assumption].
  - cbn [sendEmail]. unfold try_catch at 1. unfold bind at 1.
    rewrite getValidToken_memory
      by (unfold memory_live; rewrite Hcur; cbn; now rewrite Ht, Hlive).
    rewrite Hcur. cbn [from_option id].
    unfold bind at 1. unfold _generateBoundary.
    unfold bind at 1.
    match goal with
    | |- context [_makeApiRequest env t ?m ?w2] =>
        destruct (Hnet t m w2) as (e & He & Hkind);
        pose proof (makeApiRequest_world env t m w2) as Hw;
        destruct (_makeApiRequest env t m w2) as [r w3]
    end.
    cbn [fst snd] in He, Hw. subst r.
    unfold _handleApiError. rewrite Hkind.
    change (String.eqb RATE_LIMIT TOKEN_EXPIRED) with false.
    change (String.eqb RATE_LIMIT RATE_LIMIT) with true.
    cbv iota.
    assert (Hlen : length (sendCalls w3) = (length (sendCalls w) + 1)%nat)
      by (subst w3; cbn; rewrite length_app; reflexivity).
    assert (Hcur3 : currentToken w3 = Some t) by (subst w3; exact Hcur).
    unfold _handleRateLimit. unfold bind at 1. unfold sleep at 1, modify.
    destruct fuel as [|fuel].
    + eexists. cbn. split; [reflexivity|]. split; [cbn; lia|assumption].
    + cbn [_retryWithBackoff].
      change (maxRetries <? 1)%nat with false. cbv iota.
      unfold try_catch at 1. unfold bind at 1. unfold sleep, modify.
      match goal with
      | |- context [sendEmail env (S fuel) emailData attachments ?w4] =>
          destruct (IH w4 Hcur3) as (w' & Hsend & Hlen' & Hcur')
      end.
      rewrite Hsend. exists w'. split; [reflexivity|].
      split; [|assumption]. cbn in Hlen'. lia.
Qed.

Lemma throttled_always_fails :
  endpoint_always_fails_with MoreExamples.throttled RATE_LIMIT.
Proof.
  intros token emailMessage w. eexists. split; reflexivity.
Qed.

Lemma sendEmail_rate_limit_never_returns_witness :
  exists w',
    sendEmail MoreExamples.throttled 10 Examples.hello [] Examples.ready
    = (OutOfFuel, w')
    /\ length (sendCalls w') = (length (sendCalls Examples.ready) + 10)%nat.
Proof.
  apply (sendEmail_rate_limit_never_returns MoreExamples.throttled
           Examples.hello [] "tok" Examples.ready).
  - exact throttled_always_fails.
  - reflexivity.
  - reflexivity.
  - reflexivity.
Defined.

(** X28. [testEmailSending] cannot report a failure: it never throws and
    never takes its [catch] branch, since [sendEmail] never throws; and it
    does not look at the result of [sendEmail], so that a send that came
    back as a failure response is reported as a passed test, with no
    message id. *)
Theorem testEmailSending_never_fails (env : Env) (fuel : nat) (to : string)
    (w : World) :
  match fst (testEmailSending env fuel to w) with
  | Return (TestPassed m _) => m = "Test email sent successfully"
  | Return (TestFailed _ _) => False
  | Throw _ => False
  | OutOfFuel => True
  end
  /\ forall r w',
       sendEmail env fuel
         {| GmailApiService.to := to;
            subject := "Test Email from Gmail API Extension";
            body := "This is a test email to verify the Gmail API integration is working correctly." |}
         [] w
       = (Return (SendFailed r), w') ->
       testEmailSending env fuel to w
       = (Return (TestPassed "Test email sent successfully" None), w').
Proof.
  unfold testEmailSending, try_catch, bind.
  split.
  - match goal with
    | |- context [sendEmail env fuel ?d [] w] =>
        pose proof (sendEmail_never_throws env fuel d [] w) as H;
        destruct (sendEmail env fuel d [] w) as [[r|e|] w']
    end; cbn in *; auto. exfalso. now apply (H e).
  - intros r w' ->. reflexivity.
Qed.

(** The second half of X28 is not vacuous: a send that the endpoint
    rejects with status 400 passes the test. *)
Example testEmailSending_passes_rejected_send :
  exists r w',
    sendEmail MoreExamples.rejecting 3
      {| GmailApiService.to := "user@example.com";
         subject := "Test Email from Gmail API Extension";
         body := "This is a test email to verify the Gmail API integration is working correctly." |}
      [] Examples.ready
    = (Return (SendFailed r), w')
    /\ testEmailSending MoreExamples.rejecting 3 "user@example.com"
         Examples.ready
       = (Return (TestPassed "Test email sent successfully" None), w').
Proof. eexists. eexists. split; vm_compute; reflexivity. Qed.

End Sending.

Section Orchestration.
Import ErrorHandler ErrorHandler.ERROR_TYPES EmailService.

(** X30. For every recipient that [isValidEmail] rejects, the failure
    result of [sendEmailWithAttachment] has the kind ['unknown'], not
    [validation.invalid_email]; it is not retryable, and its message and
    its advice are the generic ones. *)
Theorem invalid_recipient_kind (env : Env) (fuel : nat) (recipient : string)
    (w : World) :
  Validator.isValidEmail recipient = false ->
  exists r w',
    sendEmailWithAttachment env fuel recipient w = (Return (ResultError r), w')
    /\ errorType r = "unknown"
    /\ errorType r <> INVALID_EMAIL
    /\ isRetryable r = false
    /\ message r = "An unexpected error occurred. Please try again."
    /\ actionableMessage r
       = "Please try again or contact support if the problem persists.".
Proof.
  intros Hinvalid.
  unfold sendEmailWithAttachment. unfold try_catch at 1. unfold bind at 1.
  unfold get at 1. unfold bind at 1.
  assert (Hinit : exists b w',
             (if negb (initialized w) then initialize env else ret true) w
             = (Return b, w')).
  { destruct (initialized w); cbn [negb]; [now exists true, w|].
    destruct (initialize_total env w) as (b & w' & H & _). eauto. }
  destruct Hinit as (b & w1 & ->).
  rewrite Hinvalid. cbn [negb]. unfold throw at 1.
  unfold bind, GmailApiService.createErrorResponse.
  eexists. eexists. split; [vm_compute; reflexivity|].
  repeat split. discriminate.
Qed.

Lemma invalid_recipient_kind_witness :
  exists r w',
    sendEmailWithAttachment Examples.online 1 "bad-address" Examples.configured
    = (Return (ResultError r), w')
    /\ errorType r = "unknown"
    /\ errorType r <> INVALID_EMAIL
    /\ isRetryable r = false
    /\ message r = "An unexpected error occurred. Please try again."
    /\ actionableMessage r
       = "Please try again or contact support if the problem persists.".
Proof. apply invalid_recipient_kind. reflexivity. Defined.

End Orchestration.
